(** * QBO ingestion service: sync engine, token manager and paginated client

    A shallow embedding of the Python sources under [apps/qbo_ingestion]:
    - [sdk/exceptions.py]     the exception classes and their hierarchy
    - [sdk/__init__.py]       [QuickBooksOnlineSDK] (token manager)
    - [sdk/apis/api_base.py]  [ApiBase] (retrying requests, pagination)
    - [sdk/apis/customers.py], [sdk/apis/invoices.py]
    - [models.py]             [QBOAccount], [Customer], [Invoice], [SyncState]
    - [qbo_client.py]         [create_client_for_account]
    - [sync_engine.py]        [SyncEngine]

    Python objects that are mutated in place (model rows, the SDK client,
    the log of network calls) live in one explicit [world]; every method is
    a function in the monad [M], which keeps the state reached when an
    exception is raised, as Python does. *)

From Stdlib Require Import String Ascii List ZArith NArith Lia Bool DecimalString.
From Stdlib Require Import RelationClasses.
Import ListNotations.

Local Open Scope list_scope.
Local Open Scope string_scope.

(* ================================================================== *)
(** * Python values *)
(* ================================================================== *)

(** [str] values.  Python orders strings by code point; on UTF-8 encoded
    text this is the byte-wise lexicographic order of [String.compare]. *)
Definition str_gt (a b : string) : bool := String.ltb b a.
Definition str_le (a b : string) : bool := String.leb a b.

(** Truthiness of an [Optional[str]]: [None] and the empty string are falsy. *)
Definition truthy (o : option string) : bool :=
  match o with
  | None => false
  | Some s => negb (String.eqb s "")
  end.

(** [str(n)] for a non-negative integer and for any integer. *)
Definition dec_N (n : N) : string := NilZero.string_of_uint (N.to_uint n).
Definition dec_Z (z : Z) : string := NilZero.string_of_int (Z.to_int z).

(** Instants ([datetime]) are microseconds since the epoch, in UTC; a naive
    [datetime] is read as UTC, which is what [ensure_token_valid] does. *)
Definition datetime := Z.
Definition timedelta_minutes (m : Z) : Z := (m * 60 * 1000000)%Z.

(** [datetime.min] and [datetime.max]: the first microsecond of the year 1
    and the last one of the year 9999. *)
Definition datetime_min : datetime := (-62135596800000000)%Z.
Definition datetime_max : datetime := 253402300799999999%Z.

(* ================================================================== *)
(** * sdk/exceptions.py and the engine's exception classes *)
(* ================================================================== *)

Inductive exn_class : Type :=
| Exception                 (* any other subclass of Exception *)
| KeyError
| IndexError
| ValueError
| TypeError
| AttributeError
| OverflowError
| IntegrityError            (* django.db.IntegrityError *)
| DoesNotExist              (* Model.DoesNotExist *)
| MultipleObjectsReturned   (* Model.MultipleObjectsReturned *)
| RequestException          (* requests.RequestException *)
| JSONDecodeError           (* requests.JSONDecodeError, from response.json() *)
| QBOSDKError
| AuthenticationError
| InvalidGrantError
| APIError
| ValidationError
| NotFoundError
| RateLimitError
| ServerError
| SyncError
| AccountNotFoundError
| RevokedRefreshTokenError.

(** A raised exception: its class and the text [str(e)]. *)
Record exn : Type := mkExn { exn_cls : exn_class; exn_str : string }.

Definition exn_class_eqb (a b : exn_class) : bool :=
  match a, b with
  | Exception, Exception | KeyError, KeyError | ValueError, ValueError
  | IndexError, IndexError | TypeError, TypeError
  | AttributeError, AttributeError | OverflowError, OverflowError
  | IntegrityError, IntegrityError | DoesNotExist, DoesNotExist
  | MultipleObjectsReturned, MultipleObjectsReturned
  | RequestException, RequestException | QBOSDKError, QBOSDKError
  | JSONDecodeError, JSONDecodeError
  | AuthenticationError, AuthenticationError
  | InvalidGrantError, InvalidGrantError | APIError, APIError
  | ValidationError, ValidationError | NotFoundError, NotFoundError
  | RateLimitError, RateLimitError | ServerError, ServerError
  | SyncError, SyncError | AccountNotFoundError, AccountNotFoundError
  | RevokedRefreshTokenError, RevokedRefreshTokenError => true
  | _, _ => false
  end.

(** The base classes, as declared in the [class] statements
    ([requests.JSONDecodeError] derives from [RequestException] and from
    [ValueError]). *)
Definition bases (c : exn_class) : list exn_class :=
  match c with
  | Exception => []
  | JSONDecodeError => [RequestException; ValueError]
  | AuthenticationError => [QBOSDKError]
  | InvalidGrantError => [AuthenticationError]
  | APIError => [QBOSDKError]
  | ValidationError | NotFoundError | RateLimitError | ServerError => [APIError]
  | _ => [Exception]
  end.

(** [issubclass(c, d)]; the hierarchy is at most four classes deep. *)
Fixpoint issubclass_fuel (n : nat) (c d : exn_class) : bool :=
  exn_class_eqb c d ||
  match n with
  | O => false
  | S n' => existsb (fun b => issubclass_fuel n' b d) (bases c)
  end.

Definition issubclass : exn_class -> exn_class -> bool := issubclass_fuel 4.

(** [isinstance(e, d)], the test an [except d:] clause performs. *)
Definition isinstance (e : exn) (d : exn_class) : bool := issubclass (exn_cls e) d.

(* ================================================================== *)
(** * Results and the state-and-exception monad *)
(* ================================================================== *)

(** What a call does: return, raise, or still be running when the bound
    on loop iterations is used up ([Diverge] is not an exception and no
    [except] clause sees it). *)
Inductive res (A : Type) : Type :=
| Ret (a : A)
| Raise (e : exn)
| Diverge.

Arguments Ret {A} a.
Arguments Raise {A} e.
Arguments Diverge {A}.

Definition M (W A : Type) : Type := W -> W * res A.

Definition ret {W A} (a : A) : M W A := fun w => (w, Ret a).
Definition raise {W A} (e : exn) : M W A := fun w => (w, Raise e).
Definition diverge {W A} : M W A := fun w => (w, Diverge).

Definition bind {W A B} (m : M W A) (k : A -> M W B) : M W B :=
  fun w =>
    match m w with
    | (w1, Ret a) => k a w1
    | (w1, Raise e) => (w1, Raise e)
    | (w1, Diverge) => (w1, Diverge)
    end.

(** [try: m  except Exception as e: h e].  Every modelled class derives
    from [Exception], so the handler sees every raised exception. *)
Definition try_except {W A} (m : M W A) (h : exn -> M W A) : M W A :=
  fun w =>
    match m w with
    | (w1, Raise e) => h e w1
    | r => r
    end.

Definition get {W} : M W W := fun w => (w, Ret w).
Definition modify {W} (f : W -> W) : M W unit := fun w => (f w, Ret tt).

Declare Scope monad_scope.
Delimit Scope monad_scope with monad.
Notation "x <- m ;; k" := (bind m (fun x => k))
  (at level 61, m at next level, right associativity) : monad_scope.
Notation "m ;;; k" := (bind m (fun _ => k))
  (at level 61, right associativity) : monad_scope.
Local Open Scope monad_scope.

(* ================================================================== *)
(** * Decoded JSON *)
(* ================================================================== *)

(** What [response.json()] returns: [None], a [bool], an [int], a
    [float], a [str], a [list] or a [dict] with [str] keys.  Of a [float]
    the model keeps the literal of the document and whether the number is
    zero, which is all the code below asks of one.  A [dict] is the list
    of its items; should the list name a key twice, the first of the two
    items is the entry of the [dict]. *)
Unset Elimination Schemes.
Inductive jvalue : Type :=
| VNone
| VBool (b : bool)
| VInt (n : Z)
| VFloat (literal : string) (nonzero : bool)
| VStr (s : string)
| VList (l : list jvalue)
| VDict (d : list (string * jvalue)).
Set Elimination Schemes.

(** [type(v).__name__] *)
Definition type_name (v : jvalue) : string :=
  match v with
  | VNone => "NoneType"
  | VBool _ => "bool"
  | VInt _ => "int"
  | VFloat _ _ => "float"
  | VStr _ => "str"
  | VList _ => "list"
  | VDict _ => "dict"
  end.

(** [bool(v)] *)
Definition py_truthy (v : jvalue) : bool :=
  match v with
  | VNone => false
  | VBool b => b
  | VInt n => negb (n =? 0)%Z
  | VFloat _ nonzero => nonzero
  | VStr s => negb (String.eqb s "")
  | VList l => match l with [] => false | _ => true end
  | VDict d => match d with [] => false | _ => true end
  end.

(** [v == s] for a [str] [s] *)
Definition py_eq_str (v : jvalue) (s : string) : bool :=
  match v with
  | VStr x => String.eqb x s
  | _ => false
  end.

(** [p in s] for two [str] *)
Fixpoint contains_str (p s : string) : bool :=
  String.prefix p s ||
  match s with
  | EmptyString => false
  | String _ r => contains_str p r
  end.

Definition dict_lookup (key : string) (d : list (string * jvalue)) : option jvalue :=
  match find (fun kv => String.eqb (fst kv) key) d with
  | Some kv => Some (snd kv)
  | None => None
  end.

(** [key in v] for a [str] [key]: a key of a [dict], an element of a
    [list], a substring of a [str]; the other types are not iterable. *)
Definition py_contains (key : string) (v : jvalue) : bool + exn :=
  match v with
  | VDict d => inl (match dict_lookup key d with Some _ => true | None => false end)
  | VList l => inl (existsb (fun x => py_eq_str x key) l)
  | VStr s => inl (contains_str key s)
  | _ => inr (mkExn TypeError
                    ("argument of type '" ++ type_name v ++ "' is not iterable"))
  end.

(** [v[key]] for a [str] [key] *)
Definition py_getitem (v : jvalue) (key : string) : jvalue + exn :=
  match v with
  | VDict d =>
      match dict_lookup key d with
      | Some x => inl x
      | None => inr (mkExn KeyError ("'" ++ key ++ "'"))
      end
  | VList _ => inr (mkExn TypeError "list indices must be integers or slices, not str")
  | VStr _ => inr (mkExn TypeError "string indices must be integers, not 'str'")
  | _ => inr (mkExn TypeError ("'" ++ type_name v ++ "' object is not subscriptable"))
  end.

(** [v.get(key, default)]: only a [dict] has the method. *)
Definition py_get (v : jvalue) (key : string) (default : jvalue) : jvalue + exn :=
  match v with
  | VDict d =>
      inl (match dict_lookup key d with
           | Some x => x
           | None => default
           end)
  | _ => inr (mkExn AttributeError
                    ("'" ++ type_name v ++ "' object has no attribute 'get'"))
  end.

(** A [str] is kept as its UTF-8 encoding.  [s[:n]] counts code points:
    the bytes [10xxxxxx] continue the code point before them. *)
Definition is_continuation (c : ascii) : bool :=
  let n := N_of_ascii c in ((128 <=? n) && (n <? 192))%N.

Fixpoint take_points (n : nat) (s : string) : string :=
  match s with
  | EmptyString => EmptyString
  | String c r =>
      if is_continuation c then String c (take_points n r)
      else match n with
           | O => EmptyString
           | S n' => String c (take_points n' r)
           end
  end.

(** [v[0]]: the first element of a [list], the first character of a
    [str]; a [dict] of a JSON document has no key [0]. *)
Definition py_first (v : jvalue) : jvalue + exn :=
  match v with
  | VList (x :: _) => inl x
  | VList [] => inr (mkExn IndexError "list index out of range")
  | VStr s =>
      if String.eqb s "" then inr (mkExn IndexError "string index out of range")
      else inl (VStr (take_points 1 s))
  | VDict _ => inr (mkExn KeyError "0")
  | _ => inr (mkExn TypeError ("'" ++ type_name v ++ "' object is not subscriptable"))
  end.

(** Sequencing of results that may be an exception. *)
Definition and_then {A B} (r : A + exn) (k : A -> B + exn) : B + exn :=
  match r with
  | inl a => k a
  | inr e => inr e
  end.

(* ================================================================== *)
(** * The remote system: JSON documents, responses, observable events *)
(* ================================================================== *)

(** A QBO entity as the engine reads it, in the schema of the API: the
    keys ['Id'], ['SyncToken'], ['MetaData']['LastUpdatedTime'] and
    ['CustomerRef']['value'] hold strings, ['MetaData'] and ['CustomerRef']
    objects, and each of them may be absent (or [null], which [.get] reads
    alike where a string is expected); the rest of the payload is opaque.
    A document of a 200 answer that holds a value of another JSON type
    under one of these keys is outside this type, and outside the
    statements below. *)
Record metadata_t : Type := { LastUpdatedTime : option string }.
Record ref_t : Type := { value : option string }.
Record Entity : Type := {
  Id : option string;
  SyncToken : option string;
  MetaData : option metadata_t;
  CustomerRef : option ref_t;
  payload : string
}.

(** The document of a 200 answer of the API: a JSON object, of which the
    code reads ['QueryResponse'], a mapping from entity names to lists of
    entities. *)
Record api_json : Type := {
  QueryResponse : option (list (string * list Entity))
}.

(** The document of a 200 answer of the token endpoint: a JSON object with
    the two tokens, when they are there, and whatever ['expires_in']
    holds. *)
Record token_json : Type := {
  j_access_token : option string;
  j_refresh_token : option string;
  j_expires_in : option jvalue
}.

(** A [requests.Response].  [text] is [response.text].  What
    [response.json()] returns is [json] for a 200 answer, a document of
    the schema [J], and [error_json] for every other answer, of which
    nothing is assumed: any JSON value.  Either is [None] when the body
    does not decode; [response.json()] then raises a [JSONDecodeError]
    whose text is [decode_error]. *)
Record response (J : Type) : Type := {
  status_code : Z;
  text : string;
  json : option J;
  error_json : option jvalue;
  decode_error : string
}.
Arguments status_code {J} r.
Arguments text {J} r.
Arguments json {J} r.
Arguments error_json {J} r.
Arguments decode_error {J} r.

(** What one HTTP call comes to: a transport failure
    ([requests.RequestException], with its text) or a response. *)
Inductive http_outcome (J : Type) : Type :=
| NetworkFailure (msg : string)
| Response (r : response J).
Arguments NetworkFailure {J} msg.
Arguments Response {J} r.

(** Everything the process does to the outside, oldest first. *)
Inductive event : Type :=
| EvTokenPost (refresh_token : string)           (* POST to the token endpoint *)
| EvGet (url : string) (bearer : string)         (* GET with a bearer token *)
| EvSleep (seconds : Z)                          (* time.sleep *)
| EvTokenCallback (access_token refresh_token : string) (expires_at : datetime).

(** django.conf.settings, as far as the client reads it. *)
Record Settings : Type := {
  QBO_ENVIRONMENT : string;
  QBO_MINOR_VERSION : Z
}.

(** The environment of a run.  The remote endpoints answer each call as a
    function of everything that happened before it, which covers every
    deterministic server.  The other fields are functions of the Python
    library, of which nothing is assumed: [fromisoformat] is
    [datetime.fromisoformat] ([None] for a [ValueError]); [py_repr] is
    [str()] of a [float], a [list] or a [dict]; [timedelta_float] is
    [timedelta(seconds=x)] for a [float] [x], in microseconds, or the
    exception it raises. *)
Record Env : Type := {
  token_endpoint : list event -> string -> http_outcome token_json;
  query_endpoint : list event -> string -> string -> http_outcome api_json;
  clock : list event -> datetime;
  fromisoformat : string -> option datetime;
  py_repr : jvalue -> string;
  timedelta_float : string -> Z + exn;
  settings : Settings
}.

(* ================================================================== *)
(** * models.py: rows *)
(* ================================================================== *)

Inductive SyncStatus : Type := PENDING | IN_PROGRESS | SUCCESS | FAILED.
Inductive ObjectType : Type := CUSTOMER | INVOICE.

Definition ObjectType_eqb (a b : ObjectType) : bool :=
  match a, b with
  | CUSTOMER, CUSTOMER | INVOICE, INVOICE => true
  | _, _ => false
  end.

(** Rows refer to their account by the account's [realm_id], which is
    unique; the audit columns [created_at]/[updated_at] are kept only on
    [SyncState], whose methods are specified column by column. *)
Module QBOAccount.
Record t : Type := {
  realm_id : string;
  company_name : option string;
  access_token : option string;
  refresh_token : string;
  access_token_expires_at : option datetime;
  is_token_expired : bool
}.

(** [get_active_accounts]: [filter(is_token_expired=False,
    refresh_token__isnull=False).exclude(refresh_token='')]; the column is
    NOT NULL, so the [isnull] test holds of every row. *)
Definition get_active_accounts (tbl : list t) : list t :=
  filter (fun a => negb (String.eqb (refresh_token a) ""))
         (filter (fun a => negb (is_token_expired a) && true) tbl).

(** [objects.filter(realm_id=realm_id).first()] *)
Definition first_by_realm (rid : string) (tbl : list t) : option t :=
  find (fun a => String.eqb (realm_id a) rid) tbl.

Definition with_revoked (a : t) (b : bool) : t :=
  {| realm_id := realm_id a; company_name := company_name a;
     access_token := access_token a; refresh_token := refresh_token a;
     access_token_expires_at := access_token_expires_at a;
     is_token_expired := b |}.

Definition with_tokens (a : t) (at_ rt : string) (exp : datetime) : t :=
  {| realm_id := realm_id a; company_name := company_name a;
     access_token := Some at_; refresh_token := rt;
     access_token_expires_at := Some exp;
     is_token_expired := false |}.

(** [save(update_fields=[...])]: rewrite the row with this primary key. *)
Definition save (f : t -> t) (rid : string) (tbl : list t) : list t :=
  map (fun r => if String.eqb (realm_id r) rid then f r else r) tbl.
End QBOAccount.

Module Customer.
Record t : Type := {
  account : string;
  qbo_id : string;
  raw_data : Entity;
  sync_token : option string;
  last_updated_time : option datetime
}.

Definition has_key (acc qid : string) (r : t) : bool :=
  String.eqb (account r) acc && String.eqb (qbo_id r) qid.

(** [objects.update_or_create(account=, qbo_id=, defaults={...})] on the
    table: [get] finds the rows with this key; none, it creates one; one,
    it overwrites the columns in [defaults]; several, it raises.  A NULL
    [qbo_id] matches no row and cannot be inserted. *)
Definition update_or_create (acc : string) (qid : option string)
  (raw : Entity) (tok : option string) (lut : option datetime)
  (tbl : list t) : list t + exn :=
  match qid with
  | None => inr (mkExn IntegrityError "NOT NULL constraint failed: customers.qbo_id")
  | Some q =>
      match filter (has_key acc q) tbl with
      | [] => inl (tbl ++ [ {| account := acc; qbo_id := q; raw_data := raw;
                               sync_token := tok; last_updated_time := lut |} ])%list
      | [_] => inl (map (fun r => if has_key acc q r
                                  then {| account := account r; qbo_id := qbo_id r;
                                          raw_data := raw; sync_token := tok;
                                          last_updated_time := lut |}
                                  else r) tbl)
      | _ => inr (mkExn MultipleObjectsReturned
                        "get() returned more than one Customer")
      end
  end.

(** [Customer.upsert] *)
Definition upsert (acc : string) (qid : option string) (raw : Entity)
  (tok : option string) (lut : option datetime) (tbl : list t) : list t + exn :=
  update_or_create acc qid raw tok lut tbl.
End Customer.

Module Invoice.
Record t : Type := {
  account : string;
  qbo_id : string;
  customer_ref : option string;
  raw_data : Entity;
  sync_token : option string;
  last_updated_time : option datetime
}.

Definition has_key (acc qid : string) (r : t) : bool :=
  String.eqb (account r) acc && String.eqb (qbo_id r) qid.

Definition update_or_create (acc : string) (qid : option string)
  (raw : Entity) (cref : option string) (tok : option string)
  (lut : option datetime) (tbl : list t) : list t + exn :=
  match qid with
  | None => inr (mkExn IntegrityError "NOT NULL constraint failed: invoices.qbo_id")
  | Some q =>
      match filter (has_key acc q) tbl with
      | [] => inl (tbl ++ [ {| account := acc; qbo_id := q; customer_ref := cref;
                               raw_data := raw; sync_token := tok;
                               last_updated_time := lut |} ])%list
      | [_] => inl (map (fun r => if has_key acc q r
                                  then {| account := account r; qbo_id := qbo_id r;
                                          customer_ref := cref; raw_data := raw;
                                          sync_token := tok;
                                          last_updated_time := lut |}
                                  else r) tbl)
      | _ => inr (mkExn MultipleObjectsReturned
                        "get() returned more than one Invoice")
      end
  end.

(** [Invoice.upsert]: a missing [customer_ref] is read from the payload. *)
Definition upsert (acc : string) (qid : option string) (raw : Entity)
  (cref : option string) (tok : option string) (lut : option datetime)
  (tbl : list t) : list t + exn :=
  let cref' :=
    match cref, CustomerRef raw with
    | None, Some r => value r
    | _, _ => cref
    end in
  update_or_create acc qid raw cref' tok lut tbl.
End Invoice.

Module SyncState.
Record t : Type := {
  account : string;
  object_type : ObjectType;
  last_attempt_time : option datetime;
  last_successful_sync_time : option datetime;
  status : SyncStatus;
  checkpoint : option string;
  error_message : option string;
  consecutive_failures : Z;
  updated_at : datetime
}.

Inductive column : Type :=
| c_status | c_last_attempt_time | c_last_successful_sync_time
| c_consecutive_failures | c_error_message | c_checkpoint | c_updated_at.

Definition column_eqb (a b : column) : bool :=
  match a, b with
  | c_status, c_status | c_last_attempt_time, c_last_attempt_time
  | c_last_successful_sync_time, c_last_successful_sync_time
  | c_consecutive_failures, c_consecutive_failures
  | c_error_message, c_error_message | c_checkpoint, c_checkpoint
  | c_updated_at, c_updated_at => true
  | _, _ => false
  end.

Definition has_key (acc : string) (ty : ObjectType) (r : t) : bool :=
  String.eqb (account r) acc && ObjectType_eqb (object_type r) ty.

Definition listed (c : column) (cols : list column) : bool :=
  existsb (column_eqb c) cols.

(** One row after [self.save(update_fields=cols)]: the listed columns are
    taken from the object, the others stay as stored. *)
Definition write_columns (cols : list column) (self row : t) : t :=
  let pick {A} (c : column) (f : t -> A) := if listed c cols then f self else f row in
  {| account := account row; object_type := object_type row;
     last_attempt_time := pick c_last_attempt_time last_attempt_time;
     last_successful_sync_time :=
       pick c_last_successful_sync_time last_successful_sync_time;
     status := pick c_status status;
     checkpoint := pick c_checkpoint checkpoint;
     error_message := pick c_error_message error_message;
     consecutive_failures := pick c_consecutive_failures consecutive_failures;
     updated_at := pick c_updated_at updated_at |}.

Definition save (cols : list column) (self : t) (tbl : list t) : list t :=
  map (fun r => if has_key (account self) (object_type self) r
                then write_columns cols self r else r) tbl.

(** [mark_started]: the object after the assignments, and the table after
    [save]; [now] is [datetime.utcnow()], which also stamps [updated_at]. *)
Definition mark_started (now : datetime) (self : t) (tbl : list t) : t * list t :=
  let self' :=
    {| account := account self; object_type := object_type self;
       last_attempt_time := Some now;
       last_successful_sync_time := last_successful_sync_time self;
       status := IN_PROGRESS;
       checkpoint := checkpoint self;
       error_message := None;
       consecutive_failures := consecutive_failures self;
       updated_at := now |} in
  (self', save [c_status; c_last_attempt_time; c_error_message; c_updated_at]
               self' tbl).

(** [mark_success(checkpoint)] *)
Definition mark_success (now : datetime) (self : t) (ckpt : option string)
  (tbl : list t) : t * list t :=
  let self' :=
    {| account := account self; object_type := object_type self;
       last_attempt_time := last_attempt_time self;
       last_successful_sync_time := Some now;
       status := SUCCESS;
       checkpoint := if truthy ckpt then ckpt else checkpoint self;
       error_message := None;
       consecutive_failures := 0;
       updated_at := now |} in
  (self', save [c_status; c_last_successful_sync_time; c_consecutive_failures;
                c_error_message; c_checkpoint; c_updated_at] self' tbl).

(** [mark_failed(error_message)] *)
Definition mark_failed (now : datetime) (self : t) (msg : string)
  (tbl : list t) : t * list t :=
  let self' :=
    {| account := account self; object_type := object_type self;
       last_attempt_time := last_attempt_time self;
       last_successful_sync_time := last_successful_sync_time self;
       status := FAILED;
       checkpoint := checkpoint self;
       error_message := Some msg;
       consecutive_failures := consecutive_failures self + 1;
       updated_at := now |} in
  (self', save [c_status; c_error_message; c_consecutive_failures; c_updated_at]
               self' tbl).

Definition lookup (acc : string) (ty : ObjectType) (tbl : list t) : option t :=
  find (has_key acc ty) tbl.

(** [objects.get_or_create(account=, object_type=,
    defaults={'status': PENDING})]: the stored row, or a new one with the
    model's defaults. *)
Definition get_or_create (now : datetime) (acc : string) (ty : ObjectType)
  (tbl : list t) : t * list t :=
  match lookup acc ty tbl with
  | Some r => (r, tbl)
  | None =>
      let r := {| account := acc; object_type := ty;
                  last_attempt_time := None; last_successful_sync_time := None;
                  status := PENDING; checkpoint := None; error_message := None;
                  consecutive_failures := 0; updated_at := now |} in
      (r, (tbl ++ [r])%list)
  end.
End SyncState.

(* ================================================================== *)
(** * String helpers used by the SDK *)
(* ================================================================== *)

(** [c in s] for a one-character [c]. *)
Fixpoint contains_char (c : ascii) (s : string) : bool :=
  match s with
  | EmptyString => false
  | String d r => Ascii.eqb c d || contains_char c r
  end.

Fixpoint drop_leading (c : ascii) (l : list ascii) : list ascii :=
  match l with
  | d :: r => if Ascii.eqb c d then drop_leading c r else l
  | [] => []
  end.

(** [s.rstrip('/')] *)
Definition rstrip_slash (s : string) : string :=
  string_of_list_ascii (rev (drop_leading "/"%char (rev (list_ascii_of_string s)))).

(** [s.endswith('Z')] and [s[:-1]] *)
Fixpoint endswith_Z (s : string) : bool :=
  match s with
  | EmptyString => false
  | String c EmptyString => Ascii.eqb c "Z"%char
  | String _ r => endswith_Z r
  end.

Fixpoint drop_last (s : string) : string :=
  match s with
  | EmptyString => EmptyString
  | String _ EmptyString => EmptyString
  | String c r => String c (drop_last r)
  end.

(** [urllib.parse.quote(s)] with the default [safe='/']: letters, digits
    and [_.-~/] stay, every other byte becomes [%XX]. *)
Definition quote_safe (c : ascii) : bool :=
  let n := N_of_ascii c in
  ((65 <=? n) && (n <=? 90) || (97 <=? n) && (n <=? 122) ||
   (48 <=? n) && (n <=? 57))%N ||
  existsb (Ascii.eqb c) ["_"; "."; "-"; "~"; "/"]%char.

Definition hex_digit (n : N) : ascii :=
  nth (N.to_nat n)
      ["0";"1";"2";"3";"4";"5";"6";"7";"8";"9";"A";"B";"C";"D";"E";"F"]%char
      "0"%char.

Fixpoint quote (s : string) : string :=
  match s with
  | EmptyString => EmptyString
  | String c r =>
      if quote_safe c then String c (quote r)
      else String "%"%char
             (String (hex_digit (N_of_ascii c / 16))
                (String (hex_digit (N_of_ascii c mod 16)) (quote r)))
  end.

(* ================================================================== *)
(** * Objects of the SDK, and the world *)
(* ================================================================== *)

(** An [ApiBase] instance ([Customers] and [Invoices] add no attribute).
    [_retry_delay] is the float [1.0]: a whole number of seconds, and so
    are its products with the small integers the retry loop uses. *)
Record ApiBase : Type := {
  api_access_token : option string;     (* _access_token *)
  api_server_url : option string;       (* _server_url *)
  api_minor_version : Z;                (* _minor_version *)
  _max_retries : nat;
  _retry_delay : Z
}.

Definition DEFAULT_PAGE_SIZE : N := 100.
Definition MAX_PAGE_SIZE : N := 1000.

(** [ApiBase.__init__] *)
Definition ApiBase_init : ApiBase :=
  {| api_access_token := None; api_server_url := None;
     api_minor_version := 65; _max_retries := 3; _retry_delay := 1 |}.

Definition set_access_token (self : ApiBase) (token : option string) : ApiBase :=
  {| api_access_token := token; api_server_url := api_server_url self;
     api_minor_version := api_minor_version self;
     _max_retries := _max_retries self; _retry_delay := _retry_delay self |}.

Definition set_server_url (self : ApiBase) (url : string) : ApiBase :=
  {| api_access_token := api_access_token self;
     api_server_url := Some (rstrip_slash url);
     api_minor_version := api_minor_version self;
     _max_retries := _max_retries self; _retry_delay := _retry_delay self |}.

Definition set_minor_version (self : ApiBase) (version : Z) : ApiBase :=
  {| api_access_token := api_access_token self;
     api_server_url := api_server_url self;
     api_minor_version := version;
     _max_retries := _max_retries self; _retry_delay := _retry_delay self |}.

(** A [QuickBooksOnlineSDK] instance (and the [QBOClient] that wraps it and
    forwards to it).  [_on_token_refresh] is the closure that
    [create_client_for_account] builds, named by the primary key of the
    account row it captured. *)
Record QuickBooksOnlineSDK : Type := {
  _refresh_token : string;
  _realm_id : string;
  _on_token_refresh : option string;
  _base_url : string;
  _access_token : option string;
  _token_expires_at : option datetime;
  customers : ApiBase;
  invoices : ApiBase
}.

Definition API_BASE_SANDBOX : string :=
  "https://sandbox-quickbooks.api.intuit.com/v3/company".
Definition API_BASE_PRODUCTION : string :=
  "https://quickbooks.api.intuit.com/v3/company".

(** The database, the one client object of the account being synced, and
    the log of what was done to the outside. *)
Record world : Type := {
  accounts : list QBOAccount.t;
  sync_states : list SyncState.t;
  customer_rows : list Customer.t;
  invoice_rows : list Invoice.t;
  client : QuickBooksOnlineSDK;
  trace : list event
}.

Definition with_accounts (w : world) (x : list QBOAccount.t) : world :=
  {| accounts := x; sync_states := sync_states w;
     customer_rows := customer_rows w; invoice_rows := invoice_rows w;
     client := client w; trace := trace w |}.
Definition with_sync_states (w : world) (x : list SyncState.t) : world :=
  {| accounts := accounts w; sync_states := x;
     customer_rows := customer_rows w; invoice_rows := invoice_rows w;
     client := client w; trace := trace w |}.
Definition with_customer_rows (w : world) (x : list Customer.t) : world :=
  {| accounts := accounts w; sync_states := sync_states w;
     customer_rows := x; invoice_rows := invoice_rows w;
     client := client w; trace := trace w |}.
Definition with_invoice_rows (w : world) (x : list Invoice.t) : world :=
  {| accounts := accounts w; sync_states := sync_states w;
     customer_rows := customer_rows w; invoice_rows := x;
     client := client w; trace := trace w |}.
Definition with_client (w : world) (x : QuickBooksOnlineSDK) : world :=
  {| accounts := accounts w; sync_states := sync_states w;
     customer_rows := customer_rows w; invoice_rows := invoice_rows w;
     client := x; trace := trace w |}.
Definition with_trace (w : world) (x : list event) : world :=
  {| accounts := accounts w; sync_states := sync_states w;
     customer_rows := customer_rows w; invoice_rows := invoice_rows w;
     client := client w; trace := x |}.

(** The API resource of the client that serves an object type:
    [client.customers] or [client.invoices]. *)
Definition resource (ty : ObjectType) (c : QuickBooksOnlineSDK) : ApiBase :=
  match ty with
  | CUSTOMER => customers c
  | INVOICE => invoices c
  end.

(** Python's [x or d] on an exception slot. *)
Definition or_else (o : option exn) (d : exn) : exn :=
  match o with
  | Some e => e
  | None => d
  end.

(* ================================================================== *)
(** * sdk/apis/api_base.py *)
(* ================================================================== *)

(** [_get_headers]: the bearer token of the [Authorization] header. *)
Definition _get_headers (self : ApiBase) : res string :=
  match api_access_token self with
  | Some t =>
      if String.eqb t "" then Raise (mkExn AuthenticationError "Access token not set")
      else Ret t
  | None => Raise (mkExn AuthenticationError "Access token not set")
  end.

(** [_build_url] *)
Definition _build_url (self : ApiBase) (endpoint : string) : res string :=
  match api_server_url self with
  | None => Raise (mkExn QBOSDKError "Server URL not configured")
  | Some s =>
      if String.eqb s "" then Raise (mkExn QBOSDKError "Server URL not configured")
      else
        let url := s ++ "/" ++ endpoint in
        let separator := if contains_char "?"%char url then "&" else "?" in
        Ret (url ++ separator ++ "minorversion=" ++ dec_Z (api_minor_version self))
  end.

Section Run.

Context (E : Env).

Definition log (ev : event) : M world unit :=
  modify (fun w => with_trace w (trace w ++ [ev])%list).

(** [time.sleep(delay)] *)
Definition sleep (delay : Z) : M world unit := log (EvSleep delay).

(** [datetime.now(timezone.utc)] / [datetime.utcnow()] *)
Definition now : M world datetime := fun w => (w, Ret (clock E (trace w))).

(** [str(v)], which is what an f-string makes of [v]. *)
Definition py_str (v : jvalue) : string :=
  match v with
  | VStr s => s
  | VNone => "None"
  | VBool true => "True"
  | VBool false => "False"
  | VInt n => dec_Z n
  | _ => py_repr E v
  end.

(** The [try] block of [_handle_response]: the value that it leaves in
    [error_detail], or the exception that it raises. *)
Definition fault_detail {J} (r : response J) : jvalue + exn :=
  match error_json r with
  | None => inr (mkExn JSONDecodeError (decode_error r))
  | Some error_json =>
      and_then (py_contains "Fault" error_json) (fun has_fault =>
        if has_fault : bool then
          and_then (py_getitem error_json "Fault") (fun fault =>
          and_then (py_get fault "Error" (VList [])) (fun errors =>
            if py_truthy errors then
              and_then (py_first errors) (fun first =>
              and_then (py_get first "Message" (VStr "")) (fun message =>
              py_get first "Detail" message))
            else inl (VStr "")))
        else inl (VStr ""))
  end.

(** The [error_detail] of a response that is not a 200, as the f-strings
    print it: [except (ValueError, KeyError)] falls back on the first 500
    characters of the body, every other exception leaves the method. *)
Definition error_detail {J} (r : response J) : string + exn :=
  match fault_detail r with
  | inl v => inl (py_str v)
  | inr e =>
      if isinstance e ValueError || isinstance e KeyError
      then inl (take_points 500 (text r))
      else inr e
  end.

(** [_handle_response] *)
Definition _handle_response (r : response api_json) : res api_json :=
  if (status_code r =? 200)%Z then
    match json r with
    | Some j => Ret j
    | None => Raise (mkExn JSONDecodeError (decode_error r))
    end
  else
    match error_detail r with
    | inr e => Raise e
    | inl d =>
        let status := status_code r in
        if (status =? 401)%Z then
          Raise (mkExn AuthenticationError ("Authentication failed: " ++ d))
        else if (status =? 403)%Z then
          Raise (mkExn AuthenticationError ("Access forbidden: " ++ d))
        else if (status =? 404)%Z then
          Raise (mkExn NotFoundError ("Resource not found: " ++ d))
        else if (status =? 400)%Z then
          Raise (mkExn ValidationError ("Validation error: " ++ d))
        else if (status =? 429)%Z then
          Raise (mkExn RateLimitError "Rate limit exceeded")
        else if (status >=? 500)%Z then
          Raise (mkExn ServerError ("Server error (" ++ dec_Z status ++ "): " ++ d))
        else
          Raise (mkExn QBOSDKError ("API error (" ++ dec_Z status ++ "): " ++ d))
    end.

(** [timedelta(seconds=v)], in microseconds.  A [bool] counts as 0 or 1;
    the number of days must fit a C [int] and have a magnitude of at most
    999999999. *)
Definition timedelta (seconds : jvalue) : Z + exn :=
  let of_int n :=
    let days := (n / 86400)%Z in
    if ((days <? - 2147483648) || (2147483647 <? days))%Z then
      inr (mkExn OverflowError "Python int too large to convert to C int")
    else if ((days <? - 999999999) || (999999999 <? days))%Z then
      inr (mkExn OverflowError
                 ("days=" ++ dec_Z days ++ "; must have magnitude <= 999999999"))
    else inl (n * 1000000)%Z in
  match seconds with
  | VInt n => of_int n
  | VBool b => of_int (if b then 1 else 0)%Z
  | VFloat literal _ => timedelta_float E literal
  | v => inr (mkExn TypeError
                    ("unsupported type for timedelta seconds component: "
                     ++ type_name v))
  end.

(** [t + d] for a [datetime] and a [timedelta]: the result must lie in
    the years 1 to 9999. *)
Definition datetime_add (t : datetime) (d : Z) : datetime + exn :=
  if ((datetime_min <=? t + d) && (t + d <=? datetime_max))%Z then inl (t + d)%Z
  else inr (mkExn OverflowError "date value out of range").

(** [now + timedelta(seconds=expires_in)] *)
Definition expires_at_of (now_ : datetime) (expires_in : jvalue) : datetime + exn :=
  and_then (timedelta expires_in) (datetime_add now_).

(** [requests.request('GET', url, headers=..., timeout=30)] *)
Definition http_get (url bearer : string) : M world (response api_json) :=
  w <- get ;;
  log (EvGet url bearer) ;;;
  match query_endpoint E (trace w) url bearer with
  | NetworkFailure msg => raise (mkExn RequestException msg)
  | Response r => ret r
  end.

(** Lift a pure result into the monad. *)
Definition lift {A} (r : res A) : M world A := fun w => (w, r).

Definition lift_sum {A} (r : A + exn) : M world A :=
  fun w => (w, match r with inl a => Ret a | inr e => Raise e end).

(** The body of the [try] in [_request_with_retry]: build the headers,
    send the request, classify the response. *)
Definition attempt_request (self : ApiBase) (url : string) : M world api_json :=
  bearer <- lift (_get_headers self) ;;
  response <- http_get url bearer ;;
  lift (_handle_response response).

(** The loop of [_request_with_retry]: [todo] iterations of
    [for attempt in range(self._max_retries)] remain, the next one with
    index [attempt].  The [except] clauses are tried in source order. *)
Fixpoint retry_loop (self : ApiBase) (url : string) (todo attempt : nat)
  (last_exception : option exn) : M world api_json :=
  match todo with
  | O => raise (or_else last_exception
                        (mkExn QBOSDKError "Request failed after retries"))
  | S todo' =>
      let a := Z.of_nat attempt in
      let more := (a <? Z.of_nat (_max_retries self) - 1)%Z in
      let again := retry_loop self url todo' (S attempt) in
      try_except (attempt_request self url)
        (fun e =>
           if isinstance e RateLimitError then
             sleep (_retry_delay self * 2 ^ a)%Z ;;;
             again (Some (mkExn RateLimitError "Rate limit exceeded after retries"))
           else if isinstance e ServerError then
             (if more then sleep (_retry_delay self * (a + 1))%Z else ret tt) ;;;
             again (Some e)
           else if isinstance e AuthenticationError || isinstance e NotFoundError
                   || isinstance e ValidationError then
             raise e
           else if isinstance e RequestException then
             (if more then sleep (_retry_delay self * (a + 1))%Z else ret tt) ;;;
             again (Some (mkExn QBOSDKError ("Network error: " ++ exn_str e)))
           else raise e)
  end.

Definition _request_with_retry (self : ApiBase) (url : string) : M world api_json :=
  retry_loop self url (_max_retries self) 0 None.

(** [_query] *)
Definition _query (self : ApiBase) (query : string) : M world api_json :=
  url <- lift (_build_url self ("query?query=" ++ quote query)) ;;
  _request_with_retry self url.

(** ** Pagination: [_query_generator] as a state machine

    A generator object is the arguments it was called with and the point
    where it is suspended; [gen_next] is [next()]: it runs the generator
    up to its next [yield] ([Some batch]) or to its end ([None], that is
    [StopIteration]). *)
Inductive gen_state : Type :=
| Created                                            (* not started *)
| Suspended (start_position : N) (yielded : nat)     (* at the [yield] *)
| Finished.

Record generator : Type := {
  g_resource : ObjectType;      (* [self]: client.customers or client.invoices *)
  g_base_query : string;
  g_entity_name : string;
  g_page_size : N;
  g_state : gen_state
}.

Definition at_state (g : generator) (s : gen_state) : generator :=
  {| g_resource := g_resource g; g_base_query := g_base_query g;
     g_entity_name := g_entity_name g; g_page_size := g_page_size g;
     g_state := s |}.

Definition paginated_query (base_query : string) (start_position page_size : N)
  : string :=
  base_query ++ " STARTPOSITION " ++ dec_N start_position
             ++ " MAXRESULTS " ++ dec_N page_size.

(** [response.get('QueryResponse', {}).get(entity_name, [])] *)
Definition entities_of (j : api_json) (entity_name : string) : list Entity :=
  match QueryResponse j with
  | Some qr =>
      match find (fun kv => String.eqb (fst kv) entity_name) qr with
      | Some kv => snd kv
      | None => []
      end
  | None => []
  end.

(** One turn of the [while True] loop, from its top to the [yield] or the
    first [break]. *)
Definition fetch_page (g : generator) (start_position : N)
  : M world (option (list Entity) * generator) :=
  w <- get ;;
  response <- _query (resource (g_resource g) (client w))
                     (paginated_query (g_base_query g) start_position
                                      (g_page_size g)) ;;
  let entities := entities_of response (g_entity_name g) in
  match entities with
  | [] => ret (None, at_state g Finished)
  | _ => ret (Some entities,
              at_state g (Suspended start_position (List.length entities)))
  end.

Definition gen_next (g : generator) : M world (option (list Entity) * generator) :=
  match g_state g with
  | Created => fetch_page g 1
  | Suspended start_position n =>
      if (N.of_nat n <? g_page_size g)%N then ret (None, at_state g Finished)
      else fetch_page g (start_position + g_page_size g)
  | Finished => ret (None, g)
  end.

(** [_query_generator(base_query, entity_name, page_size)] *)
Definition _query_generator (ty : ObjectType) (base_query entity_name : string)
  (page_size : N) : generator :=
  {| g_resource := ty; g_base_query := base_query;
     g_entity_name := entity_name; g_page_size := page_size;
     g_state := Created |}.

(** [ObjectType.CUSTOMER = 'Customer'], [ObjectType.INVOICE = 'Invoice'] *)
Definition entity_name (ty : ObjectType) : string :=
  match ty with
  | CUSTOMER => "Customer"
  | INVOICE => "Invoice"
  end.

(** The query text that [Customers.get_all_generator] and
    [Invoices.get_all_generator] build. *)
Definition all_query (ty : ObjectType) (last_updated_time : option string) : string :=
  let backfill :=
    "SELECT * FROM " ++ entity_name ty ++ " ORDER BY MetaData.LastUpdatedTime ASC" in
  match last_updated_time with
  | Some t =>
      if String.eqb t "" then backfill
      else "SELECT * FROM " ++ entity_name ty ++ " "
           ++ "WHERE MetaData.LastUpdatedTime > '" ++ t ++ "' "
           ++ "ORDER BY MetaData.LastUpdatedTime ASC"
  | None => backfill
  end.

(** [client.customers.get_all_generator(t)] / [client.invoices...]: it
    delegates with [yield from] and leaves the page size at its default. *)
Definition get_all_generator (ty : ObjectType) (last_updated_time : option string)
  : generator :=
  _query_generator ty (all_query ty last_updated_time) (entity_name ty)
                   DEFAULT_PAGE_SIZE.

(** [list(g)] with a bound on the number of [next()] calls: the batches in
    the order they are yielded. *)
Fixpoint drain (fuel : nat) (g : generator) : M world (list (list Entity)) :=
  match fuel with
  | O => diverge
  | S fuel' =>
      r <- gen_next g ;;
      match r with
      | (None, _) => ret []
      | (Some batch, g') =>
          rest <- drain fuel' g' ;;
          ret (batch :: rest)
      end
  end.

(* ================================================================== *)
(** * sdk/__init__.py: the token manager *)
(* ================================================================== *)

(** [_update_api_tokens] *)
Definition _update_api_tokens (self : QuickBooksOnlineSDK) : QuickBooksOnlineSDK :=
  {| _refresh_token := _refresh_token self; _realm_id := _realm_id self;
     _on_token_refresh := _on_token_refresh self; _base_url := _base_url self;
     _access_token := _access_token self;
     _token_expires_at := _token_expires_at self;
     customers := set_access_token (customers self) (_access_token self);
     invoices := set_access_token (invoices self) (_access_token self) |}.

Definition set_sdk_access_token (self : QuickBooksOnlineSDK) (t : string)
  : QuickBooksOnlineSDK :=
  {| _refresh_token := _refresh_token self; _realm_id := _realm_id self;
     _on_token_refresh := _on_token_refresh self; _base_url := _base_url self;
     _access_token := Some t;
     _token_expires_at := _token_expires_at self;
     customers := customers self; invoices := invoices self |}.

Definition set_sdk_refresh_token (self : QuickBooksOnlineSDK) (t : string)
  : QuickBooksOnlineSDK :=
  {| _refresh_token := t; _realm_id := _realm_id self;
     _on_token_refresh := _on_token_refresh self; _base_url := _base_url self;
     _access_token := _access_token self;
     _token_expires_at := _token_expires_at self;
     customers := customers self; invoices := invoices self |}.

Definition set_sdk_expires_at (self : QuickBooksOnlineSDK) (t : datetime)
  : QuickBooksOnlineSDK :=
  {| _refresh_token := _refresh_token self; _realm_id := _realm_id self;
     _on_token_refresh := _on_token_refresh self; _base_url := _base_url self;
     _access_token := _access_token self;
     _token_expires_at := Some t;
     customers := customers self; invoices := invoices self |}.

Definition update_client (f : QuickBooksOnlineSDK -> QuickBooksOnlineSDK)
  : M world unit :=
  modify (fun w => with_client w (f (client w))).

(** The closure [on_token_refresh] of [create_client_for_account]:
    [select_for_update().get(pk=account.pk)], four assignments and a
    [save(update_fields=...)], inside [transaction.atomic()]. *)
Definition on_token_refresh (pk : string) (access_token refresh_token : string)
  (expires_at : datetime) : M world unit :=
  fun w =>
    match QBOAccount.first_by_realm pk (accounts w) with
    | None => (w, Raise (mkExn DoesNotExist
                               "QBOAccount matching query does not exist."))
    | Some _ =>
        (with_accounts w
           (QBOAccount.save
              (fun a => QBOAccount.with_tokens a access_token refresh_token expires_at)
              pk (accounts w)),
         Ret tt)
    end.

(** What a token response that is not a 200 is raised as: the [try]
    block with its [except ValueError: pass], and the [raise] after it.
    [error_data.get] raises [AttributeError] when the body is JSON but not
    an object. *)
Definition refresh_error (r : response token_json) : exn :=
  let failed := mkExn AuthenticationError ("Token refresh failed: " ++ text r) in
  let attempt : unit + exn :=
    match error_json r with
    | None => inr (mkExn JSONDecodeError (decode_error r))
    | Some error_data =>
        and_then (py_get error_data "error" (VStr "")) (fun error =>
        and_then (py_get error_data "error_description" (VStr (text r)))
          (fun error_desc =>
             if py_eq_str error "invalid_grant"
             then inr (mkExn InvalidGrantError
                             ("Refresh token invalid: " ++ py_str error_desc))
             else inl tt))
    end in
  match attempt with
  | inl _ => failed
  | inr e => if isinstance e ValueError then failed else e
  end.

(** [token_data[key]] *)
Definition subscript {A} (key : string) (v : option A) : M world A :=
  match v with
  | Some a => ret a
  | None => raise (mkExn KeyError ("'" ++ key ++ "'"))
  end.

(** [_refresh_tokens] *)
Definition _refresh_tokens : M world unit :=
  w <- get ;;
  log (EvTokenPost (_refresh_token (client w))) ;;;
  match token_endpoint E (trace w) (_refresh_token (client w)) with
  | NetworkFailure msg => raise (mkExn RequestException msg)
  | Response r =>
      if negb (status_code r =? 200)%Z then raise (refresh_error r)
      else
        match json r with
        | None => raise (mkExn JSONDecodeError (decode_error r))
        | Some token_data =>
            a <- subscript "access_token" (j_access_token token_data) ;;
            update_client (fun self => set_sdk_access_token self a) ;;;
            rt <- subscript "refresh_token" (j_refresh_token token_data) ;;
            update_client (fun self => set_sdk_refresh_token self rt) ;;;
            let expires_in := match j_expires_in token_data with
                              | Some v => v
                              | None => VInt 3600
                              end in
            t <- now ;;
            expires_at <- lift_sum (expires_at_of t expires_in) ;;
            update_client (fun self => set_sdk_expires_at self expires_at) ;;;
            update_client _update_api_tokens ;;;
            w' <- get ;;
            match _on_token_refresh (client w') with
            | Some pk =>
                log (EvTokenCallback a rt expires_at) ;;;
                on_token_refresh pk a rt expires_at
            | None => ret tt
            end
        end
  end.

(** [ensure_token_valid] *)
Definition ensure_token_valid : M world unit :=
  w <- get ;;
  match _access_token (client w) with
  | None => _refresh_tokens
  | Some _ =>
      match _token_expires_at (client w) with
      | Some expires_at =>
          t <- now ;;
          if (t >=? expires_at - timedelta_minutes 5)%Z
          then _refresh_tokens
          else ret tt
      | None => ret tt
      end
  end.

(* ================================================================== *)
(** * qbo_client.py *)
(* ================================================================== *)

(** [QuickBooksOnlineSDK.__init__], as [QBOClient.__init__] calls it with
    the values of [settings]. *)
Definition QuickBooksOnlineSDK_init (refresh_token realm_id : string)
  (on_refresh : option string) (access_token : option string)
  (token_expires_at : option datetime) : QuickBooksOnlineSDK :=
  let base_url :=
    (if String.eqb (QBO_ENVIRONMENT (settings E)) "production"
     then API_BASE_PRODUCTION else API_BASE_SANDBOX) ++ "/" ++ realm_id in
  let configure api :=
    set_minor_version (set_server_url api base_url) (QBO_MINOR_VERSION (settings E)) in
  let self :=
    {| _refresh_token := refresh_token; _realm_id := realm_id;
       _on_token_refresh := on_refresh; _base_url := base_url;
       _access_token := access_token; _token_expires_at := token_expires_at;
       customers := configure ApiBase_init;
       invoices := configure ApiBase_init |} in
  if truthy access_token then _update_api_tokens self else self.

(** [create_client_for_account] *)
Definition create_client_for_account (account : QBOAccount.t) : QuickBooksOnlineSDK :=
  QuickBooksOnlineSDK_init
    (QBOAccount.refresh_token account) (QBOAccount.realm_id account)
    (Some (QBOAccount.realm_id account))
    (QBOAccount.access_token account)
    (QBOAccount.access_token_expires_at account).

(* ================================================================== *)
(** * sync_engine.py *)
(* ================================================================== *)

(** [_parse_last_updated_time] *)
Definition _parse_last_updated_time (iso_string : option string) : option datetime :=
  match iso_string with
  | None => None
  | Some s =>
      if String.eqb s "" then None
      else fromisoformat E (if endswith_Z s then drop_last s ++ "+00:00" else s)
  end.

(** [_update_checkpoint]:
    [if new_value and (not current or new_value > current)] *)
Definition _update_checkpoint (current new_value : option string) : option string :=
  match new_value with
  | None => current
  | Some n =>
      if negb (String.eqb n "")
         && (negb (truthy current)
             || match current with
                | Some c => str_gt n c
                | None => false
                end)
      then new_value
      else current
  end.

(** [with transaction.atomic(): m]: an exception leaves the block with the
    tables as they were on entry. *)
Definition atomic {A} (m : M world A) : M world A :=
  fun w =>
    match m w with
    | (w1, Raise e) =>
        ({| accounts := accounts w; sync_states := sync_states w;
            customer_rows := customer_rows w; invoice_rows := invoice_rows w;
            client := client w1; trace := trace w1 |}, Raise e)
    | r => r
    end.

(** [for x in l: s = body(s, x)] *)
Fixpoint for_each {A S} (body : S -> A -> M world S) (l : list A) (s : S)
  : M world S :=
  match l with
  | [] => ret s
  | x :: l' => s' <- body s x ;; for_each body l' s'
  end.

(** [for batch in g: s = body(s, batch)], at most [fuel] calls of [next]. *)
Fixpoint for_batches {S} (fuel : nat) (body : S -> list Entity -> M world S)
  (g : generator) (s : S) : M world S :=
  match fuel with
  | O => diverge
  | S fuel' =>
      r <- gen_next g ;;
      match r with
      | (None, _) => ret s
      | (Some batch, g') => s' <- body s batch ;; for_batches fuel' body g' s'
      end
  end.

(** A method of [SyncState] run against the stored table. *)
Definition on_sync_states
  (f : datetime -> list SyncState.t -> SyncState.t * list SyncState.t)
  : M world SyncState.t :=
  fun w =>
    (with_sync_states w (snd (f (clock E (trace w)) (sync_states w))),
     Ret (fst (f (clock E (trace w)) (sync_states w)))).

Definition Customer_upsert (acc : string) (qid : option string) (raw : Entity)
  (tok : option string) (lut : option datetime) : M world unit :=
  fun w =>
    match Customer.upsert acc qid raw tok lut (customer_rows w) with
    | inl t => (with_customer_rows w t, Ret tt)
    | inr e => (w, Raise e)
    end.

Definition Invoice_upsert (acc : string) (qid : option string) (raw : Entity)
  (cref : option string) (tok : option string) (lut : option datetime)
  : M world unit :=
  fun w =>
    match Invoice.upsert acc qid raw cref tok lut (invoice_rows w) with
    | inl t => (with_invoice_rows w t, Ret tt)
    | inr e => (w, Raise e)
    end.

(** [customer_data.get('MetaData', {}).get('LastUpdatedTime')] *)
Definition last_updated_str_of (data : Entity) : option string :=
  match MetaData data with
  | Some metadata => LastUpdatedTime metadata
  | None => None
  end.

(** The body of [for customer_data in customer_batch]; the loop state is
    [(total_processed, max_checkpoint)]. *)
Definition customer_body (acc : string) (st : nat * option string)
  (customer_data : Entity) : M world (nat * option string) :=
  let qbo_id := Id customer_data in
  let sync_token := SyncToken customer_data in
  let last_updated_str := last_updated_str_of customer_data in
  let last_updated := _parse_last_updated_time last_updated_str in
  let max_checkpoint := _update_checkpoint (snd st) last_updated_str in
  Customer_upsert acc qbo_id customer_data sync_token last_updated ;;;
  ret (fst st + 1, max_checkpoint).

(** The body of [for invoice_data in invoice_batch]. *)
Definition invoice_body (acc : string) (st : nat * option string)
  (invoice_data : Entity) : M world (nat * option string) :=
  let qbo_id := Id invoice_data in
  let sync_token := SyncToken invoice_data in
  let customer_ref := match CustomerRef invoice_data with
                      | Some r => value r
                      | None => None
                      end in
  let last_updated_str := last_updated_str_of invoice_data in
  let last_updated := _parse_last_updated_time last_updated_str in
  let max_checkpoint := _update_checkpoint (snd st) last_updated_str in
  Invoice_upsert acc qbo_id invoice_data customer_ref sync_token last_updated ;;;
  ret (fst st + 1, max_checkpoint).

Definition record_body (ty : ObjectType)
  : string -> nat * option string -> Entity -> M world (nat * option string) :=
  match ty with
  | CUSTOMER => customer_body
  | INVOICE => invoice_body
  end.

(** [sync_customers] and [sync_invoices]: the two methods are the same text
    up to the object type, the API resource and the loop body. *)
Definition sync_type (ty : ObjectType) (fuel : nat) (account : QBOAccount.t)
  : M world (nat * option string) :=
  let acc := QBOAccount.realm_id account in
  ensure_token_valid ;;;
  sync_state <- on_sync_states (fun t => SyncState.get_or_create t acc ty) ;;
  let last_sync_time := SyncState.checkpoint sync_state in
  sync_state <- on_sync_states (fun t => SyncState.mark_started t sync_state) ;;
  try_except
    (st <- for_batches fuel
             (fun st batch => atomic (for_each (record_body ty acc) batch st))
             (get_all_generator ty last_sync_time)
             (0, last_sync_time) ;;
     on_sync_states (fun t => SyncState.mark_success t sync_state (snd st)) ;;;
     ret st)
    (fun e =>
       on_sync_states (fun t => SyncState.mark_failed t sync_state (exn_str e)) ;;;
       raise e).

Definition sync_customers : nat -> QBOAccount.t -> M world (nat * option string) :=
  sync_type CUSTOMER.
Definition sync_invoices : nat -> QBOAccount.t -> M world (nat * option string) :=
  sync_type INVOICE.

(** The per-type entry of a result dict, and the dict of one account. *)
Record type_result : Type := {
  r_status : string;
  r_count : nat;
  r_checkpoint : option string;
  r_error : option string
}.

Record account_result : Type := {
  a_realm_id : string;
  a_success : bool;
  a_error : option string;
  a_types : list (string * type_result)
}.

Inductive sync_method : Type := m_sync_customers | m_sync_invoices.

Definition SYNC_CONFIG : list (string * sync_method) :=
  [("customers", m_sync_customers); ("invoices", m_sync_invoices)].

(** [getattr(self, config['method'])] *)
Definition getattr_sync (m : sync_method)
  : nat -> QBOAccount.t -> M world (nat * option string) :=
  match m with
  | m_sync_customers => sync_customers
  | m_sync_invoices => sync_invoices
  end.

(** [account.is_token_expired = True; account.save(update_fields=[...])] *)
Definition revoke (account : QBOAccount.t) : M world unit :=
  modify (fun w =>
    with_accounts w
      (QBOAccount.save (fun a => QBOAccount.with_revoked a true)
                       (QBOAccount.realm_id account) (accounts w))).

(** [_sync_object_type] *)
Definition _sync_object_type (fuel : nat) (account : QBOAccount.t)
  (config : string * sync_method) : M world type_result :=
  try_except
    (r <- getattr_sync (snd config) fuel account ;;
     ret {| r_status := "success"; r_count := fst r;
            r_checkpoint := snd r; r_error := None |})
    (fun e =>
       if isinstance e InvalidGrantError then
         revoke account ;;;
         raise (mkExn RevokedRefreshTokenError "Refresh token is invalid or revoked")
       else
         ret {| r_status := "failed"; r_count := 0;
                r_checkpoint := None; r_error := Some (exn_str e) |}).

(** [results[name] = r] *)
Fixpoint set_key {V} (k : string) (v : V) (d : list (string * V)) : list (string * V) :=
  match d with
  | [] => [(k, v)]
  | (k', v') :: d' => if String.eqb k' k then (k, v) :: d' else (k', v') :: set_key k v d'
  end.

Definition get_key {V} (k : string) (d : list (string * V)) : option V :=
  match find (fun kv => String.eqb (fst kv) k) d with
  | Some kv => Some (snd kv)
  | None => None
  end.

Definition pending_result : type_result :=
  {| r_status := "pending"; r_count := 0; r_checkpoint := None; r_error := None |}.

(** [all(results[c['name']]['status'] == 'success' for c in SYNC_CONFIG)] *)
Definition all_success (types : list (string * type_result)) : bool :=
  forallb (fun c => match get_key (fst c) types with
                    | Some r => String.eqb (r_status r) "success"
                    | None => false
                    end) SYNC_CONFIG.

(** [for config in cfgs:
       results[config['name']] = self._sync_object_type(account, client, config)] *)
Definition sync_configs (fuel : nat) (account : QBOAccount.t)
  (cfgs : list (string * sync_method)) (results : list (string * type_result))
  : M world (list (string * type_result)) :=
  for_each
    (fun d config =>
       r <- _sync_object_type fuel account config ;;
       ret (set_key (fst config) r d))
    cfgs results.

(** The [results] dict before the loop: every object type pending. *)
Definition initial_results : list (string * type_result) :=
  fold_left (fun d c => set_key (fst c) pending_result d) SYNC_CONFIG [].

(** [sync_account] *)
Definition sync_account (fuel : nat) (realm_id : string) : M world account_result :=
  try_except
    (w <- get ;;
     match QBOAccount.first_by_realm realm_id (accounts w) with
     | None => raise (mkExn AccountNotFoundError
                            ("Account with realm_id=" ++ realm_id ++ " not found"))
     | Some account =>
         if QBOAccount.is_token_expired account then
           raise (mkExn RevokedRefreshTokenError "Token has been marked as expired")
         else
           try_except
             (modify (fun w => with_client w (create_client_for_account account)))
             (fun e =>
                if isinstance e InvalidGrantError then
                  revoke account ;;;
                  raise (mkExn RevokedRefreshTokenError
                               "Refresh token is invalid or revoked")
                else raise e) ;;;
           types <- sync_configs fuel account SYNC_CONFIG initial_results ;;
           ret {| a_realm_id := realm_id; a_success := all_success types;
                  a_error := None; a_types := types |}
     end)
    (fun e =>
       if isinstance e AccountNotFoundError || isinstance e RevokedRefreshTokenError
       then raise e
       else raise (mkExn SyncError ("Sync failed: " ++ exn_str e))).

Definition status_only (s : string) : type_result :=
  {| r_status := s; r_count := 0; r_checkpoint := None; r_error := None |}.

(** The loop of [sync_all_accounts] over the accounts in [l]:
    [try: results.append(self.sync_account(realm_id))], with its two
    [except] clauses. *)
Definition fleet_loop (fuel : nat) (l : list QBOAccount.t)
  (results : list account_result) : M world (list account_result) :=
  for_each
    (fun results account =>
       let rid := QBOAccount.realm_id account in
       try_except
         (result <- sync_account fuel rid ;;
          ret (results ++ [result])%list)
         (fun e =>
            if isinstance e RevokedRefreshTokenError then
              ret (results ++
                   [ {| a_realm_id := rid; a_success := false;
                        a_error := Some "Re-authorization required";
                        a_types := [("customers", status_only "skipped");
                                    ("invoices", status_only "skipped")] |} ])%list
            else
              ret (results ++
                   [ {| a_realm_id := rid; a_success := false;
                        a_error := Some (exn_str e);
                        a_types := [("customers", status_only "failed");
                                    ("invoices", status_only "failed")] |} ])%list))
    l results.

(** [sync_all_accounts]; the queryset is evaluated once, when the loop
    starts. *)
Definition sync_all_accounts (fuel : nat) : M world (list account_result) :=
  w <- get ;;
  fleet_loop fuel (QBOAccount.get_active_accounts (accounts w)) [].

End Run.

(* ================================================================== *)
(** * Vocabulary of the statements *)
(* ================================================================== *)

(** The watermark a checkpoint column stands for: [None] and [''] both
    mean that there is none, which is how [get_all_generator] and
    [_update_checkpoint] read them. *)
Definition wm (c : option string) : string :=
  match c with
  | Some s => s
  | None => ""
  end.

(** Watermarks in Python's string order. *)
Definition ckpt_le (a b : option string) : Prop := str_le (wm a) (wm b) = true.

(** The checkpoint stored for an (account, object type); no row, no
    watermark. *)
Definition ck (acc : string) (ty : ObjectType) (tbl : list SyncState.t)
  : option string :=
  match SyncState.lookup acc ty tbl with
  | Some r => SyncState.checkpoint r
  | None => None
  end.

Definition stored_checkpoint (acc : string) (ty : ObjectType) (w : world)
  : option string :=
  ck acc ty (sync_states w).

(** A sync cycle: one object type of an account, one account, or the
    whole fleet, each with its bound on pages per object type. *)
Inductive cycle : Type :=
| CycleType (ty : ObjectType) (account : QBOAccount.t)
| CycleAccount (realm_id : string)
| CycleAll.

Definition run_cycle (E : Env) (c : nat * cycle) (w : world) : world :=
  match snd c with
  | CycleType ty account => fst (sync_type E ty (fst c) account w)
  | CycleAccount realm_id => fst (sync_account E (fst c) realm_id w)
  | CycleAll => fst (sync_all_accounts E (fst c) w)
  end.

Definition run_cycles (E : Env) (cs : list (nat * cycle)) (w : world) : world :=
  fold_left (fun w c => run_cycle E c w) cs w.

(** Number of stored rows with a given key. *)
Definition customer_count (acc qid : string) (tbl : list Customer.t) : nat :=
  List.length (filter (Customer.has_key acc qid) tbl).
Definition invoice_count (acc qid : string) (tbl : list Invoice.t) : nat :=
  List.length (filter (Invoice.has_key acc qid) tbl).

(** The last-updated fields stored for an external id of an object type. *)
Definition stored_luts (ty : ObjectType) (acc qid : string) (w : world)
  : list (option datetime) :=
  match ty with
  | CUSTOMER => map Customer.last_updated_time
                    (filter (Customer.has_key acc qid) (customer_rows w))
  | INVOICE => map Invoice.last_updated_time
                   (filter (Invoice.has_key acc qid) (invoice_rows w))
  end.



Definition sleeps (t : list event) : list Z :=
  flat_map (fun ev => match ev with EvSleep d => [d] | _ => [] end) t.

Definition requests (t : list event) : list string :=
  flat_map (fun ev => match ev with EvGet u _ => [u] | _ => [] end) t.

(** The delays of the retry policy, in the spec's words: base delay times
    2 to the attempt, for each of [n] attempts counted from zero; and base
    delay times the attempt number, between [n] attempts counted from one. *)
Definition exponential_backoff (base : Z) (n : nat) : list Z :=
  map (fun a => base * 2 ^ Z.of_nat a)%Z (seq 0 n).
Definition linear_backoff (base : Z) (n : nat) : list Z :=
  map (fun a => base * Z.of_nat a)%Z (seq 1 (n - 1)).

(** Number of queries sent so far. *)
Definition gets (t : list event) : nat := List.length (requests t).

(** A remote system that serves at most [N] full pages: once [N] queries
    have been sent, no answer holds a full page of any entity. *)
Definition bounded_pages (E : Env) (N : nat) : Prop :=
  forall t url bearer r j name,
    N <= gets t ->
    query_endpoint E t url bearer = Response r ->
    status_code r = 200%Z ->
    json r = Some j ->
    (N.of_nat (List.length (entities_of j name)) < DEFAULT_PAGE_SIZE)%N.

(** A computation that ends, by returning or by raising. *)
Definition terminates {A} (m : M world A) : Prop :=
  forall w, snd (m w) <> Diverge.

(** The record that [sync_all_accounts] appends for an account whose
    [sync_account] ended as [r]; no record while it is still running. *)
Definition outcome_record (rid : string) (r : res account_result)
  : option account_result :=
  match r with
  | Ret result => Some result
  | Raise e =>
      Some (if isinstance e RevokedRefreshTokenError
            then {| a_realm_id := rid; a_success := false;
                    a_error := Some "Re-authorization required";
                    a_types := [("customers", status_only "skipped");
                                ("invoices", status_only "skipped")] |}
            else {| a_realm_id := rid; a_success := false;
                    a_error := Some (exn_str e);
                    a_types := [("customers", status_only "failed");
                                ("invoices", status_only "failed")] |})
  | Diverge => None
  end.

(* ================================================================== *)
(** * A model of [datetime.fromisoformat] and a concrete environment *)
(* ================================================================== *)

(** [datetime.fromisoformat] belongs to the Python library, and every
    statement below holds for any function in its place.  The concrete
    runs use this model of it on the strings the remote system emits,
    [YYYY-MM-DD], optionally followed by one separator character and
    [HH:MM:SS], a fraction of three or six digits, and an offset [+HH:MM]
    or [-HH:MM]; anything else is a [ValueError], here [None]. *)
Definition digit_of (c : ascii) : option Z :=
  let n := N_of_ascii c in
  if ((48 <=? n) && (n <=? 57))%N then Some (Z.of_N n - 48)%Z else None.

(** Read exactly [k] digits off the front. *)
Fixpoint digits (k : nat) (acc : Z) (s : list ascii) : option (Z * list ascii) :=
  match k with
  | O => Some (acc, s)
  | S k' =>
      match s with
      | c :: r =>
          match digit_of c with
          | Some d => digits k' (acc * 10 + d)%Z r
          | None => None
          end
      | [] => None
      end
  end.

(** Skip one given character. *)
Definition expect (c : ascii) (s : list ascii) : option (list ascii) :=
  match s with
  | d :: r => if Ascii.eqb c d then Some r else None
  | [] => None
  end.

Definition is_leap (y : Z) : bool :=
  ((y mod 4 =? 0) && (negb (y mod 100 =? 0) || (y mod 400 =? 0)))%Z.

Definition days_in_month (y m : Z) : Z :=
  if (m =? 2)%Z then (if is_leap y then 29%Z else 28%Z)
  else if ((m =? 4) || (m =? 6) || (m =? 9) || (m =? 11))%Z then 30%Z
  else 31%Z.

(** Days from 1970-01-01 to the given civil date. *)
Definition days_from_civil (y m d : Z) : Z :=
  let y' := (if m <=? 2 then y - 1 else y)%Z in
  let era := (y' / 400)%Z in
  let yoe := (y' - era * 400)%Z in
  let doy := ((153 * (if m >? 2 then m - 3 else m + 9) + 2) / 5 + d - 1)%Z in
  let doe := (yoe * 365 + yoe / 4 - yoe / 100 + doy)%Z in
  (era * 146097 + doe - 719468)%Z.

Definition parse_fraction (s : list ascii) : option (Z * list ascii) :=
  match expect "."%char s with
  | None => Some (0%Z, s)
  | Some r =>
      match digits 6 0 r with
      | Some (us, r') => Some (us, r')
      | None =>
          match digits 3 0 r with
          | Some (ms, r') => Some ((ms * 1000)%Z, r')
          | None => None
          end
      end
  end.

Definition parse_offset (s : list ascii) : option Z :=
  match s with
  | [] => Some 0%Z
  | sign :: r =>
      let sg := if Ascii.eqb sign "+"%char then Some 1%Z
                else if Ascii.eqb sign "-"%char then Some (-1)%Z else None in
      match sg, digits 2 0 r with
      | Some k, Some (h, r1) =>
          match expect ":"%char r1 with
          | Some r2 =>
              match digits 2 0 r2 with
              | Some (m, []) =>
                  if ((h <? 24) && (m <? 60))%Z
                  then Some (k * (h * 3600 + m * 60) * 1000000)%Z else None
              | _ => None
              end
          | None => None
          end
      | _, _ => None
      end
  end.

Definition parse_time (s : list ascii) : option Z :=
  match digits 2 0 s with
  | Some (h, r1) =>
      match expect ":"%char r1 with
      | Some r2 =>
          match digits 2 0 r2 with
          | Some (mi, r3) =>
              match expect ":"%char r3 with
              | Some r4 =>
                  match digits 2 0 r4 with
                  | Some (sec, r5) =>
                      match parse_fraction r5 with
                      | Some (us, r6) =>
                          match parse_offset r6 with
                          | Some off =>
                              if ((h <? 24) && (mi <? 60) && (sec <? 60))%Z
                              then Some (((h * 3600 + mi * 60 + sec) * 1000000
                                          + us - off)%Z)
                              else None
                          | None => None
                          end
                      | None => None
                      end
                  | None => None
                  end
              | None => None
              end
          | None => None
          end
      | None => None
      end
  | None => None
  end.

Definition iso_model (s : string) : option datetime :=
  match digits 4 0 (list_ascii_of_string s) with
  | Some (y, r1) =>
      match expect "-"%char r1 with
      | Some r2 =>
          match digits 2 0 r2 with
          | Some (m, r3) =>
              match expect "-"%char r3 with
              | Some r4 =>
                  match digits 2 0 r4 with
                  | Some (d, rest) =>
                      if ((1 <=? y) && (1 <=? m) && (m <=? 12) && (1 <=? d)
                          && (d <=? days_in_month y m))%Z
                      then
                        let day0 := (days_from_civil y m d * 86400 * 1000000)%Z in
                        match rest with
                        | [] => Some day0
                        | _ :: t =>
                            match parse_time t with
                            | Some us => Some (day0 + us)%Z
                            | None => None
                            end
                        end
                      else None
                  | None => None
                  end
              | None => None
              end
          | None => None
          end
      | None => None
      end
  | None => None
  end.

(** ** A remote system with 240 customers and one invoice

    The token endpoint rejects the refresh token ["rt-revoked"] with
    [invalid_grant] and accepts every other one; the query endpoint serves
    the backfill queries page by page and answers every other query with
    an empty result. *)
Definition pad2 (n : N) : string :=
  if (n <? 10)%N then "0" ++ dec_N n else dec_N n.

Definition demo_lut (i : nat) : string :=
  "2024-03-" ++ pad2 (1 + N.of_nat i / 10) ++ "T10:0" ++ dec_N (N.of_nat i mod 10)
             ++ ":00-08:00".

Definition demo_customer (i : nat) : Entity :=
  {| Id := Some (dec_N (N.of_nat i)); SyncToken := Some "0";
     MetaData := Some {| LastUpdatedTime := Some (demo_lut i) |};
     CustomerRef := None; payload := "Customer " ++ dec_N (N.of_nat i) |}.

Definition demo_customers : list Entity := map demo_customer (seq 1 240).

Definition demo_invoice : Entity :=
  {| Id := Some "9001"; SyncToken := Some "2";
     MetaData := Some {| LastUpdatedTime := Some "2024-03-05T08:15:00-08:00" |};
     CustomerRef := Some {| value := Some "17" |}; payload := "Invoice 1001" |}.

Definition demo_settings : Settings :=
  {| QBO_ENVIRONMENT := "sandbox"; QBO_MINOR_VERSION := 75%Z |}.

Definition demo_url (realm query : string) : string :=
  API_BASE_SANDBOX ++ "/" ++ realm ++ "/query?query=" ++ quote query
                   ++ "&minorversion=75".

(** A 200 answer with its document, and an answer with another status
    whose body is the given text or, when [body] is given, decodes to it. *)
Definition ok {J} (j : J) : http_outcome J :=
  Response {| status_code := 200%Z; text := ""; json := Some j;
              error_json := None; decode_error := "" |}.

Definition refused {J} (status : Z) (text_ : string) (body : option jvalue)
  : http_outcome J :=
  Response {| status_code := status; text := text_; json := None;
              error_json := body;
              decode_error := "Expecting value: line 1 column 1 (char 0)" |}.

Definition ok_json (name : string) (l : list Entity) : http_outcome api_json :=
  ok {| QueryResponse := Some [(name, l)] |}.

Definition demo_query_endpoint (t : list event) (url bearer : string)
  : http_outcome api_json :=
  let backfill ty := "SELECT * FROM " ++ ty ++ " ORDER BY MetaData.LastUpdatedTime ASC" in
  let at_ ty (p : N) :=
    String.eqb url
      (demo_url "realm-ok"
         (backfill ty ++ " STARTPOSITION " ++ dec_N p ++ " MAXRESULTS 100")) in
  if at_ "Customer" 1%N then ok_json "Customer" (firstn 100 demo_customers)
  else if at_ "Customer" 101%N then
    ok_json "Customer" (firstn 100 (skipn 100 demo_customers))
  else if at_ "Customer" 201%N then
    ok_json "Customer" (firstn 100 (skipn 200 demo_customers))
  else if at_ "Invoice" 1%N then ok_json "Invoice" [demo_invoice]
  else ok {| QueryResponse := None |}.

Definition demo_token_endpoint (t : list event) (refresh_token : string)
  : http_outcome token_json :=
  if String.eqb refresh_token "rt-revoked" then
    refused 400 "error=invalid_grant"
      (Some (VDict [("error", VStr "invalid_grant");
                    ("error_description", VStr "Token revoked")]))
  else
    ok {| j_access_token := Some "at-1";
          j_refresh_token := Some (refresh_token ++ "+");
          j_expires_in := Some (VInt 3600) |}.

(** No document of the concrete runs holds a [float], or prints a [list]
    or a [dict]: the two library functions on them are left trivial. *)
Definition demo_repr (v : jvalue) : string :=
  match v with
  | VFloat literal _ => literal
  | _ => ""
  end.

Definition demo_timedelta_float (literal : string) : Z + exn :=
  inr (mkExn ValueError "cannot convert float NaN to integer").

Definition env_of (tokens : list event -> string -> http_outcome token_json)
  (queries : list event -> string -> string -> http_outcome api_json) : Env :=
  {| token_endpoint := tokens;
     query_endpoint := queries;
     clock := fun _ => 1710000000000000%Z;
     fromisoformat := iso_model;
     py_repr := demo_repr;
     timedelta_float := demo_timedelta_float;
     settings := demo_settings |}.

Definition demo_env : Env := env_of demo_token_endpoint demo_query_endpoint.

Definition demo_account (realm rt : string) (revoked : bool) : QBOAccount.t :=
  {| QBOAccount.realm_id := realm; QBOAccount.company_name := None;
     QBOAccount.access_token := None; QBOAccount.refresh_token := rt;
     QBOAccount.access_token_expires_at := None;
     QBOAccount.is_token_expired := revoked |}.

Definition demo_pending (realm : string) (ty : ObjectType) : SyncState.t :=
  {| SyncState.account := realm; SyncState.object_type := ty;
     SyncState.last_attempt_time := None;
     SyncState.last_successful_sync_time := None;
     SyncState.status := PENDING; SyncState.checkpoint := None;
     SyncState.error_message := None; SyncState.consecutive_failures := 0%Z;
     SyncState.updated_at := 0%Z |}.

(** Four accounts: one whose refresh token the identity provider has
    revoked, one in good standing, one already flagged, one without a
    refresh token. *)
Definition demo_world : world :=
  {| accounts := [ demo_account "realm-bad" "rt-revoked" false;
                   demo_account "realm-ok" "rt-good" false;
                   demo_account "realm-flagged" "rt-old" true;
                   demo_account "realm-empty" "" false ];
     sync_states := [ demo_pending "realm-bad" CUSTOMER;
                      demo_pending "realm-bad" INVOICE;
                      demo_pending "realm-ok" CUSTOMER;
                      demo_pending "realm-ok" INVOICE ];
     customer_rows := [];
     invoice_rows := [];
     client := create_client_for_account demo_env (demo_account "" "" false);
     trace := [] |}.

(** The same remote system while its API answers every query with a 503,
    and while it answers every query with a 429. *)
Definition always (status : Z) (body : string) (t : list event) (url bearer : string)
  : http_outcome api_json :=
  refused status body None.

Definition env_with (q : list event -> string -> string -> http_outcome api_json)
  : Env :=
  env_of demo_token_endpoint q.

Definition outage_env : Env := env_with (always 503 "Service Unavailable").

(** The world once [sync_account] has built the client of an account. *)
Definition demo_world_for (account : QBOAccount.t) : world :=
  with_client demo_world (create_client_for_account demo_env account).

(** The world in which the client of the account in good standing holds a
    fresh access token. *)
Definition demo_ready : world :=
  fst (ensure_token_valid demo_env
         (demo_world_for (demo_account "realm-ok" "rt-good" false))).

(** The customers of the remote system, in pages of 100. *)
Definition demo_page (k : nat) : list Entity :=
  firstn 100 (skipn (k * 100) demo_customers).

Definition demo_page_url (k : nat) : string :=
  demo_url "realm-ok"
    (paginated_query "SELECT * FROM Customer ORDER BY MetaData.LastUpdatedTime ASC"
       (1 + N.of_nat k * 100) 100).

(* ================================================================== *)
(** * Vocabulary of the proofs *)
(* ================================================================== *)

(** The error that marks an account as revoked. *)
Definition revoked_error : exn :=
  mkExn RevokedRefreshTokenError "Refresh token is invalid or revoked".

(** Whether [ensure_token_valid] finds a refresh due. *)
Definition refresh_due (E : Env) (w : world) : bool :=
  match _access_token (client w) with
  | None => true
  | Some _ =>
      match _token_expires_at (client w) with
      | Some expires_at =>
          (clock E (trace w) >=? expires_at - timedelta_minutes 5)%Z
      | None => false
      end
  end.

(** The client after a successful exchange. *)
Definition refreshed (self : QuickBooksOnlineSDK) (a rt : string) (exp : datetime)
  : QuickBooksOnlineSDK :=
  _update_api_tokens
    (set_sdk_expires_at (set_sdk_refresh_token (set_sdk_access_token self a) rt) exp).

(** The start position of the page with index [k]: fixed windows of the
    page size, counted from 1. *)
Definition start_position (page_size : N) (k : nat) : N :=
  (1 + N.of_nat k * page_size)%N.

(** A generator of which page [i] is the next to fetch, the pages before
    it being [pages 0], ..., [pages (i - 1)]. *)
Definition before_page (g : generator) (pages : nat -> list Entity) (i : nat)
  : generator :=
  at_state g match i with
             | O => Created
             | S j => Suspended (start_position (g_page_size g) j)
                                (List.length (pages j))
             end.

(** How many calls of [next] a generator may still need, at most, against
    a remote system that serves at most [N] full pages. *)
Definition pages_left (N : nat) (g : generator) (w : world) : nat :=
  match g_state g with
  | Created => N - gets (trace w) + 2
  | Suspended _ n =>
      if (N.of_nat n <? g_page_size g)%N then 1 else N - gets (trace w) + 2
  | Finished => 1
  end.

(** Rewrite the rows that satisfy [p]. *)
Definition overwrite {A} (p : A -> bool) (f : A -> A) (r : A) : A :=
  if p r then f r else r.

(** [m] takes every world to an [R]-related one, however it ends. *)
Definition maintains (R : world -> world -> Prop) {A} (m : M world A) : Prop :=
  forall w, R w (fst (m w)).

(** What a computation returns, when it returns. *)
Definition yields {A} (Q : A -> Prop) (m : M world A) : Prop :=
  forall w a, snd (m w) = Ret a -> Q a.

(** A computation that never raises (it returns, or it is still running). *)
Definition never_raises {A} (m : M world A) : Prop :=
  forall w e, snd (m w) <> Raise e.

(** Relations between the world before and after. *)
Definition same_sync_states (w w' : world) : Prop := sync_states w' = sync_states w.

Definition same_realms (w w' : world) : Prop :=
  map QBOAccount.realm_id (accounts w') = map QBOAccount.realm_id (accounts w).

Definition gets_grow (w w' : world) : Prop := gets (trace w) <= gets (trace w').

(** Stored checkpoints only move forward. *)
Definition ckpt_mono (w w' : world) : Prop :=
  forall acc ty, ckpt_le (stored_checkpoint acc ty w) (stored_checkpoint acc ty w').

(** A relation between the world before and after is a frame when it is a
    preorder that admits every elementary change the layers below the
    engine make: a new event in the log, a new state of the client object,
    new customer or invoice rows, refreshed tokens on an account row, and
    the rollback of an atomic block. *)
Class Frame (R : world -> world -> Prop) : Prop := {
  frame_preorder :: PreOrder R;
  frame_log : forall w ev, R w (with_trace w (trace w ++ [ev])%list);
  frame_client : forall w c, R w (with_client w c);
  frame_customers : forall w t, R w (with_customer_rows w t);
  frame_invoices : forall w t, R w (with_invoice_rows w t);
  frame_tokens : forall w pk a r e,
    R w (with_accounts w
           (QBOAccount.save (fun x => QBOAccount.with_tokens x a r e) pk (accounts w)));
  frame_rollback : forall w w1,
    R w w1 ->
    R w {| accounts := accounts w; sync_states := sync_states w;
           customer_rows := customer_rows w; invoice_rows := invoice_rows w;
           client := client w1; trace := trace w1 |}
}.

(** A frame that also admits what the engine itself changes: the
    sync-state table, and a column of an account row. *)
Class EngineFrame (R : world -> world -> Prop) : Prop := {
  engine_frame :: Frame R;
  engine_sync_states : forall w t, R w (with_sync_states w t);
  engine_account_column : forall w f rid,
    (forall a, QBOAccount.realm_id (f a) = QBOAccount.realm_id a) ->
    R w (with_accounts w (QBOAccount.save f rid (accounts w)))
}.

(* ================================================================== *)
(** * models.py: registering an account *)
(* ================================================================== *)

(** [ObjectType.values] *)
Definition ObjectType_values : list ObjectType := [CUSTOMER; INVOICE].

(** The value of a [SyncStatus] member, which is what a row stores. *)
Definition SyncStatus_value (s : SyncStatus) : string :=
  match s with
  | PENDING => "pending"
  | IN_PROGRESS => "in_progress"
  | SUCCESS => "success"
  | FAILED => "failed"
  end.

(** [QBOAccount.objects.update_or_create(realm_id=realm_id, defaults=...)]
    with the [defaults] that [create_or_update] builds: the tokens, the
    expiry, [is_token_expired = False], and [company_name] only when it is
    truthy.  The result is the object, [created], and the table. *)
Definition QBOAccount_update_or_create (realm_id refresh_token : string)
  (access_token : option string) (access_token_expires_at : option datetime)
  (company_name : option string) (tbl : list QBOAccount.t)
  : (QBOAccount.t * bool * list QBOAccount.t) + exn :=
  let has r := String.eqb (QBOAccount.realm_id r) realm_id in
  let set a :=
    {| QBOAccount.realm_id := QBOAccount.realm_id a;
       QBOAccount.company_name :=
         if truthy company_name then company_name else QBOAccount.company_name a;
       QBOAccount.access_token := access_token;
       QBOAccount.refresh_token := refresh_token;
       QBOAccount.access_token_expires_at := access_token_expires_at;
       QBOAccount.is_token_expired := false |} in
  match filter has tbl with
  | [] =>
      let a :=
        {| QBOAccount.realm_id := realm_id;
           QBOAccount.company_name :=
             if truthy company_name then company_name else None;
           QBOAccount.access_token := access_token;
           QBOAccount.refresh_token := refresh_token;
           QBOAccount.access_token_expires_at := access_token_expires_at;
           QBOAccount.is_token_expired := false |} in
      inl (a, true, (tbl ++ [a])%list)
  | [r] => inl (set r, false, map (fun x => if has x then set x else x) tbl)
  | _ => inr (mkExn MultipleObjectsReturned
                    "get() returned more than one QBOAccount")
  end.

(** [SyncState.objects.create(account=, object_type=, status=PENDING)]: an
    INSERT, which the [unique_together] constraint refuses when the key is
    taken. *)
Definition SyncState_create (now : datetime) (acc : string) (ty : ObjectType)
  (tbl : list SyncState.t) : list SyncState.t + exn :=
  if existsb (SyncState.has_key acc ty) tbl then
    inr (mkExn IntegrityError
               "UNIQUE constraint failed: sync_states.account_id, sync_states.object_type")
  else
    inl (tbl ++ [ {| SyncState.account := acc; SyncState.object_type := ty;
                     SyncState.last_attempt_time := None;
                     SyncState.last_successful_sync_time := None;
                     SyncState.status := PENDING; SyncState.checkpoint := None;
                     SyncState.error_message := None;
                     SyncState.consecutive_failures := 0;
                     SyncState.updated_at := now |} ])%list.

(* ================================================================== *)
(** * sync_engine.py: [get_sync_status] *)
(* ================================================================== *)

(** The entry of one sync state, and the status dict of an account. *)
Record state_report : Type := {
  rep_status : string;
  rep_last_attempt : option string;
  rep_last_success : option string;
  rep_checkpoint : option string;
  rep_consecutive_failures : Z;
  rep_error : option string
}.

Record status_report : Type := {
  st_realm_id : string;
  st_company_name : option string;
  st_is_token_expired : bool;
  st_customers : nat;              (* record_counts['customers'] *)
  st_invoices : nat;               (* record_counts['invoices'] *)
  st_sync_states : list (string * state_report)
}.

(** [x.isoformat() if x else None] *)
Definition isoformat_or_none (isoformat : datetime -> string) (x : option datetime)
  : option string :=
  match x with
  | Some t => Some (isoformat t)
  | None => None
  end.

Definition report_of (isoformat : datetime -> string) (state : SyncState.t)
  : state_report :=
  {| rep_status := SyncStatus_value (SyncState.status state);
     rep_last_attempt := isoformat_or_none isoformat (SyncState.last_attempt_time state);
     rep_last_success :=
       isoformat_or_none isoformat (SyncState.last_successful_sync_time state);
     rep_checkpoint := SyncState.checkpoint state;
     rep_consecutive_failures := SyncState.consecutive_failures state;
     rep_error := SyncState.error_message state |}.

(** [get_sync_status]; [isoformat] is [datetime.isoformat], and the keys
    of ['sync_states'] are the object types' values. *)
Definition get_sync_status (isoformat : datetime -> string) (realm_id : string)
  : M world status_report :=
  fun w =>
    match QBOAccount.first_by_realm realm_id (accounts w) with
    | None => (w, Raise (mkExn AccountNotFoundError ("Account not found: " ++ realm_id)))
    | Some account =>
        let mine := String.eqb (QBOAccount.realm_id account) in
        let states := filter (fun s => mine (SyncState.account s)) (sync_states w) in
        let customer_count :=
          List.length (filter (fun r => mine (Customer.account r)) (customer_rows w)) in
        let invoice_count :=
          List.length (filter (fun r => mine (Invoice.account r)) (invoice_rows w)) in
        (w, Ret {| st_realm_id := realm_id;
                   st_company_name := QBOAccount.company_name account;
                   st_is_token_expired := QBOAccount.is_token_expired account;
                   st_customers := customer_count;
                   st_invoices := invoice_count;
                   st_sync_states :=
                     fold_left
                       (fun d state =>
                          set_key (entity_name (SyncState.object_type state))
                                  (report_of isoformat state) d)
                       states [] |})
    end.

(* ================================================================== *)
(** * utils.py: [custom_exception_handler] *)
(* ================================================================== *)

(** [Response({'error': text}, status=code)] *)
Record error_response : Type := { err_status : Z; err_error : string }.

(** [custom_exception_handler]; [response] is what the framework's own
    [exception_handler(exc, context)] returned. *)
Definition custom_exception_handler {R} (response : option R) (exc : exn)
  : R + error_response :=
  match response with
  | Some r => inl r
  | None =>
      if isinstance exc AccountNotFoundError then
        inr {| err_status := 404; err_error := exn_str exc |}
      else if isinstance exc RevokedRefreshTokenError
              || isinstance exc AuthenticationError then
        inr {| err_status := 401; err_error := exn_str exc |}
      else if isinstance exc QBOSDKError then
        inr {| err_status := 502; err_error := exn_str exc |}
      else
        inr {| err_status := 500; err_error := "Internal server error" |}
  end.

(* ================================================================== *)
(** * sdk/__init__.py: [exchange_authorization_code] *)
(* ================================================================== *)

(** What [exchange_authorization_code] makes of the outcome of its POST
    to the token endpoint.  [response.json().get] raises [AttributeError]
    when the body of a refusal is JSON but not an object, and
    [except ValueError] does not catch it. *)
Definition exchange_authorization_code (E : Env) (outcome : http_outcome token_json)
  : res token_json :=
  match outcome with
  | NetworkFailure msg => Raise (mkExn RequestException msg)
  | Response r =>
      if negb (status_code r =? 200)%Z then
        let attempt : jvalue + exn :=
          match error_json r with
          | None => inr (mkExn JSONDecodeError (decode_error r))
          | Some body => py_get body "error_description" (VStr (text r))
          end in
        match attempt with
        | inl error =>
            Raise (mkExn AuthenticationError
                     ("Token exchange failed: " ++ py_str E error))
        | inr e =>
            if isinstance e ValueError then
              Raise (mkExn AuthenticationError ("Token exchange failed: " ++ text r))
            else Raise e
        end
      else
        match json r with
        | Some j => Ret j
        | None => Raise (mkExn JSONDecodeError (decode_error r))
        end
  end.

(* ================================================================== *)
(** * views.py *)
(* ================================================================== *)

(** The fields of [QBOAccountSerializer] that the model carries. *)
Record account_data : Type := {
  d_realm_id : string;
  d_company_name : option string;
  d_is_token_expired : bool
}.

Definition QBOAccountSerializer (a : QBOAccount.t) : account_data :=
  {| d_realm_id := QBOAccount.realm_id a;
     d_company_name := QBOAccount.company_name a;
     d_is_token_expired := QBOAccount.is_token_expired a |}.

(** The responses of [AuthorizeView.post] and of [SyncTriggerView.post]:
    the status code and the keys of the body. *)
Record authorize_response : Type := {
  az_status : Z;
  az_success : bool;
  az_account : option account_data;
  az_error : option string
}.

Record sync_response : Type := {
  sr_status : Z;
  sr_success : bool;
  sr_results : list account_result;
  sr_error : option string;
  sr_requires_reauthorization : bool
}.

Section Service.

Context (E : Env).

Definition SyncState_objects_create (acc : string) (ty : ObjectType) : M world unit :=
  fun w =>
    match SyncState_create (clock E (trace w)) acc ty (sync_states w) with
    | inl t => (with_sync_states w t, Ret tt)
    | inr e => (w, Raise e)
    end.

(** [QBOAccount.create_or_update] *)
Definition create_or_update (realm_id refresh_token : string)
  (access_token : option string) (access_token_expires_at : option datetime)
  (company_name : option string) : M world QBOAccount.t :=
  fun w =>
    match QBOAccount_update_or_create realm_id refresh_token access_token
            access_token_expires_at company_name (accounts w) with
    | inr e => (w, Raise e)
    | inl (account, created, tbl) =>
        ((if created : bool then
            for_each (fun _ obj_type =>
                        SyncState_objects_create (QBOAccount.realm_id account) obj_type)
                     ObjectType_values tt
          else ret tt) ;;;
         ret account) (with_accounts w tbl)
    end.

(** [serializer = Serializer(data=request.data)] and
    [serializer.is_valid(raise_exception=True)]: the framework parses and
    validates the request.  [request] is what that comes to: the validated
    data, or the exception raised ([ParseError], [ValidationError], ...),
    which leaves the view. *)
Definition is_valid {A} (request : A + exn) : M world A := lift_sum request.

(** [AuthorizeView.post]; the validated data are the realm id (the code
    and the redirect URI go into the POST), and [outcome] is the outcome
    of the POST that [exchange_code_for_tokens] makes. *)
Definition AuthorizeView_post (request : string + exn)
  (outcome : http_outcome token_json) : M world authorize_response :=
  realm_id <- is_valid request ;;
  try_except
    (token_data <- lift (exchange_authorization_code E outcome) ;;
     t <- now E ;;
     expires_at <- lift_sum (expires_at_of E t (match j_expires_in token_data with
                                                | Some v => v
                                                | None => VInt 3600
                                                end)) ;;
     refresh_token <- subscript "refresh_token" (j_refresh_token token_data) ;;
     access_token <- subscript "access_token" (j_access_token token_data) ;;
     account <- create_or_update realm_id refresh_token (Some access_token)
                                 (Some expires_at) None ;;
     ret {| az_status := 200; az_success := true;
            az_account := Some (QBOAccountSerializer account); az_error := None |})
    (fun e =>
       if isinstance e AuthenticationError then
         ret {| az_status := 400; az_success := false; az_account := None;
                az_error := Some (exn_str e) |}
       else raise e).

(** [SyncTriggerView.post]; the validated data are the realm id, when one
    is given. *)
Definition SyncTriggerView_post (fuel : nat) (request : option string + exn)
  : M world sync_response :=
  realm_id <- is_valid request ;;
  try_except
    (if truthy realm_id then
       result <- sync_account E fuel (wm realm_id) ;;
       ret {| sr_status := 200; sr_success := a_success result;
              sr_results := [result]; sr_error := None;
              sr_requires_reauthorization := false |}
     else
       results <- sync_all_accounts E fuel ;;
       let success_count := List.length (filter a_success results) in
       ret {| sr_status := 200;
              sr_success := Nat.eqb success_count (List.length results);
              sr_results := results; sr_error := None;
              sr_requires_reauthorization := false |})
    (fun e =>
       if isinstance e AccountNotFoundError then
         ret {| sr_status := 404; sr_success := false; sr_results := [];
                sr_error := Some (exn_str e); sr_requires_reauthorization := false |}
       else if isinstance e RevokedRefreshTokenError then
         ret {| sr_status := 401; sr_success := false; sr_results := [];
                sr_error := Some (exn_str e); sr_requires_reauthorization := true |}
       else raise e).

End Service.

(* ================================================================== *)
(** * Vocabulary of the further properties *)
(* ================================================================== *)

(** The payloads stored for an external id of an object type. *)
Definition stored_payloads (ty : ObjectType) (acc qid : string) (w : world)
  : list Entity :=
  match ty with
  | CUSTOMER => map Customer.raw_data
                    (filter (Customer.has_key acc qid) (customer_rows w))
  | INVOICE => map Invoice.raw_data
                   (filter (Invoice.has_key acc qid) (invoice_rows w))
  end.

(** The key (account, external id) is unique in the table of an object type. *)
Definition unique_keys (ty : ObjectType) (w : world) : Prop :=
  forall acc qid, List.length (stored_payloads ty acc qid w) <= 1.

(** What is stored for an external id once the records [l] have been
    upserted in order: the last record of [l] that carries the id, or what
    was there before. *)
Fixpoint latest (qid : string) (l : list Entity) (before : list Entity)
  : list Entity :=
  match l with
  | [] => before
  | d :: l' =>
      latest qid l'
        (match Id d with
         | Some q => if String.eqb q qid then [d] else before
         | None => before
         end)
  end.

(** The running checkpoint after the records [l]. *)
Definition checkpoint_after (l : list Entity) (start : option string)
  : option string :=
  fold_left (fun c d => _update_checkpoint c (last_updated_str_of d)) l start.

(** A failure of one attempt that [_request_with_retry] answers with
    another attempt: a 429, a 5xx with the detail read off its body, or a
    failure of the transport with its text. *)
Inductive failure : Type :=
| Throttled
| ServerFailed (status : Z) (detail : string)
| TransportFailed (msg : string).

(** Which failure the outcome of a request is, if any.  The error body of
    a 429 or a 5xx must be one that [_handle_response] can read
    ([error_detail] returns); an undecodable 200 counts as a failure of
    the transport, because [requests.JSONDecodeError] is a
    [RequestException]. *)
Definition failure_of (E : Env) (o : http_outcome api_json) : option failure :=
  match o with
  | NetworkFailure msg => Some (TransportFailed msg)
  | Response r =>
      if (status_code r =? 200)%Z then
        match json r with
        | Some _ => None
        | None => Some (TransportFailed (decode_error r))
        end
      else
        match error_detail E r with
        | inr _ => None
        | inl d =>
            if (status_code r =? 429)%Z then Some Throttled
            else if (500 <=? status_code r)%Z then Some (ServerFailed (status_code r) d)
            else None
        end
  end.

(** The sleep that follows attempt [attempt] (counted from 0) when it
    failed as [f]: base delay times 2 to the attempt after a 429, also
    after the last attempt; base delay times the attempt number (counted
    from 1) after the other failures, but none after the last attempt. *)
Definition backoff (self : ApiBase) (attempt : nat) (f : failure) : list event :=
  match f with
  | Throttled => [EvSleep (_retry_delay self * 2 ^ Z.of_nat attempt)%Z]
  | _ => if (Z.of_nat attempt <? Z.of_nat (_max_retries self) - 1)%Z
         then [EvSleep (_retry_delay self * (Z.of_nat attempt + 1))%Z]
         else []
  end.

(** The error that a failure leaves in [last_exception]. *)
Definition surfaced (f : failure) : exn :=
  match f with
  | Throttled => mkExn RateLimitError "Rate limit exceeded after retries"
  | ServerFailed status detail =>
      mkExn ServerError ("Server error (" ++ dec_Z status ++ "): " ++ detail)
  | TransportFailed msg => mkExn QBOSDKError ("Network error: " ++ msg)
  end.

(** What consecutive failed attempts do to the outside, the first of them
    being attempt [attempt]: each one a request and its backoff. *)
Fixpoint failed_attempts (self : ApiBase) (url bearer : string) (attempt : nat)
  (fs : list failure) : list event :=
  match fs with
  | [] => []
  | f :: fs' =>
      (EvGet url bearer :: backoff self attempt f
         ++ failed_attempts self url bearer (S attempt) fs')%list
  end.

(** The remote system answers the attempts of a call from the world [w]
    with the failures [fs], one after the other. *)
Definition fails_with (E : Env) (self : ApiBase) (url bearer : string) (w : world)
  (fs : list failure) : Prop :=
  forall k f,
    nth_error fs k = Some f ->
    failure_of E (query_endpoint E
                    (trace w ++ failed_attempts self url bearer 0 (firstn k fs))%list
                    url bearer)
      = Some f.

(** The error bodies that the parsing in [_handle_response] cannot read:
    [None], a [bool] or a number (['Fault' in] has no meaning); a [list]
    or a [str] that holds ['Fault'] (no subscript by a [str]); an object
    whose ['Fault'] is not an object (no [get]); and an object whose
    ['Fault']['Error'] is truthy without being a list that starts with an
    object, or an object itself. *)
Definition unreadable (body : jvalue) : bool :=
  match body with
  | VNone | VBool _ | VInt _ | VFloat _ _ => true
  | VList l => existsb (fun x => py_eq_str x "Fault") l
  | VStr s => contains_str "Fault" s
  | VDict d =>
      match dict_lookup "Fault" d with
      | None => false
      | Some (VDict fault) =>
          match dict_lookup "Error" fault with
          | None => false
          | Some errors =>
              py_truthy errors &&
              match errors with
              | VList (VDict _ :: _) | VDict _ => false
              | _ => true
              end
          end
      | Some _ => true
      end
  end.

(** An exception of the SDK, or what the parsing of an error body raises. *)
Definition sdk_or_parse_error (e : exn) : Prop :=
  isinstance e QBOSDKError = true
  \/ exn_cls e = TypeError \/ exn_cls e = AttributeError.

(** What the body of a sync may touch: the record tables, and nothing else. *)
Definition same_but_records (w w' : world) : Prop :=
  accounts w' = accounts w /\ sync_states w' = sync_states w
  /\ client w' = client w /\ trace w' = trace w.

(** The record tables are the same before and after. *)
Definition same_records (w w' : world) : Prop :=
  customer_rows w' = customer_rows w /\ invoice_rows w' = invoice_rows w.

(** Keys that are unique before are unique after. *)
Definition keys_stay_unique (w w' : world) : Prop :=
  (unique_keys CUSTOMER w /\ unique_keys INVOICE w) ->
  (unique_keys CUSTOMER w' /\ unique_keys INVOICE w').

(** [k] slashes. *)
Fixpoint slashes (k : nat) : string :=
  match k with
  | O => ""
  | S k' => String "/"%char (slashes k')
  end.

(** ** Further remote systems

    One that fails twice, with a 503 and then on the network, before it
    serves the customers' first page; one that answers every query with a
    409; one that fails with a 503, then on the network, and is throttled
    from then on; and one that answers every query with a 429 whose body
    is the JSON document [null]. *)
Definition flaky_query_endpoint (t : list event) (url bearer : string)
  : http_outcome api_json :=
  match gets t with
  | 0 => refused 503 "Service Unavailable" None
  | 1 => NetworkFailure "Connection reset by peer"
  | _ => ok_json "Customer" (firstn 100 demo_customers)
  end.

Definition flaky_env : Env := env_with flaky_query_endpoint.

Definition failing_query_endpoint (t : list event) (url bearer : string)
  : http_outcome api_json :=
  match gets t with
  | 0 => refused 503 "Service Unavailable" None
  | 1 => NetworkFailure "Connection reset by peer"
  | _ => refused 429 "Too Many Requests" None
  end.

Definition failing_env : Env := env_with failing_query_endpoint.

Definition null_body_env : Env :=
  env_with (fun _ _ _ => refused 429 "null" (Some VNone)).
Definition conflict_env : Env := env_with (always 409 "Conflict").

(** An identity provider whose 200 answer carries an access token and no
    refresh token. *)
Definition partial_token_env : Env :=
  env_of (fun _ _ => ok {| j_access_token := Some "at-2";
                           j_refresh_token := None;
                           j_expires_in := Some (VInt 3600) |})
         demo_query_endpoint.

(** Identity providers that refuse every refresh with a 400 whose body is
    the JSON document [[]], and that answer every refresh with a 200
    whose [expires_in] is 10 to the 20. *)
Definition array_body_env : Env :=
  env_of (fun _ _ => refused 400 "[]" (Some (VList []))) demo_query_endpoint.

Definition long_lived_env : Env :=
  env_of (fun _ refresh_token =>
            ok {| j_access_token := Some "at-3";
                  j_refresh_token := Some (refresh_token ++ "+");
                  j_expires_in := Some (VInt 100000000000000000000) |})
         demo_query_endpoint.

(* ================================================================== *)
(** * Proofs *)
(* ================================================================== *)

(** ** Python's string order *)

Lemma ascii_compare_N a b :
  Ascii.compare a b = N.compare (N_of_ascii a) (N_of_ascii b).
Proof. reflexivity. Qed.

Lemma str_compare_refl s : String.compare s s = Eq.
Proof.
  induction s as [|c s IH]; simpl; auto.
  rewrite ascii_compare_N, N.compare_refl. exact IH.
Qed.

Lemma str_compare_lt_trans a : forall b c,
  String.compare a b = Lt -> String.compare b c = Lt -> String.compare a c = Lt.
Proof.
  induction a as [|x a IH]; intros [|y b] [|z c]; simpl; try congruence.
  rewrite !ascii_compare_N.
  destruct (N.compare_spec (N_of_ascii x) (N_of_ascii y)) as [e1|l1|g1];
  destruct (N.compare_spec (N_of_ascii y) (N_of_ascii z)) as [e2|l2|g2];
  try congruence; intros H1 H2.
  - rewrite e1, e2, N.compare_refl. eauto.
  - rewrite e1. apply N.compare_lt_iff in l2. now rewrite l2.
  - rewrite <- e2. apply N.compare_lt_iff in l1. now rewrite l1.
  - assert (N_of_ascii x < N_of_ascii z)%N as l by lia.
    apply N.compare_lt_iff in l. now rewrite l.
Qed.

Lemma str_le_refl s : str_le s s = true.
Proof. unfold str_le, String.leb. now rewrite str_compare_refl. Qed.

Lemma str_gt_le a b : str_gt b a = true -> str_le a b = true.
Proof.
  unfold str_gt, str_le, String.ltb, String.leb.
  destruct (String.compare a b); congruence.
Qed.

Lemma str_le_trans a b c : str_le a b = true -> str_le b c = true -> str_le a c = true.
Proof.
  unfold str_le, String.leb. intros H1 H2.
  destruct (String.compare a b) eqn:Hab; try discriminate.
  - apply String.compare_eq_iff in Hab. now subst.
  - destruct (String.compare b c) eqn:Hbc; try discriminate.
    + apply String.compare_eq_iff in Hbc. subst. now rewrite Hab.
    + now rewrite (str_compare_lt_trans _ _ _ Hab Hbc).
Qed.

Lemma str_le_empty s : str_le "" s = true.
Proof. destruct s; reflexivity. Qed.

Lemma ckpt_le_refl a : ckpt_le a a.
Proof. apply str_le_refl. Qed.

Lemma ckpt_le_trans a b c : ckpt_le a b -> ckpt_le b c -> ckpt_le a c.
Proof. apply str_le_trans. Qed.

(** ** Tables with a key *)

Section KeyedTable.
Variables (A : Type) (p : A -> bool) (f : A -> A).
Hypothesis f_keeps_key : forall r, p (f r) = p r.

Lemma overwrite_keeps_key r : p (overwrite p f r) = p r.
Proof. unfold overwrite. destruct (p r) eqn:H; [rewrite f_keeps_key|]; auto. Qed.

Lemma filter_overwrite l :
  filter p (map (overwrite p f) l) = map f (filter p l).
Proof.
  induction l as [|r l IH]; simpl; auto.
  rewrite overwrite_keeps_key. unfold overwrite at 1.
  destruct (p r); simpl; now rewrite IH.
Qed.

Lemma others_overwrite l :
  filter (fun r => negb (p r)) (map (overwrite p f) l)
    = filter (fun r => negb (p r)) l.
Proof.
  induction l as [|r l IH]; simpl; auto.
  rewrite overwrite_keeps_key. unfold overwrite at 1.
  destruct (p r); simpl; now rewrite IH.
Qed.

Lemma filter_snoc_hit l x : p x = true -> (filter p (l ++ [x]) = filter p l ++ [x])%list.
Proof. intros H. rewrite filter_app. simpl. now rewrite H. Qed.

Lemma others_snoc_hit l x :
  p x = true -> filter (fun r => negb (p r)) (l ++ [x])%list = filter (fun r => negb (p r)) l.
Proof. intros H. rewrite filter_app. simpl. rewrite H. simpl. apply app_nil_r. Qed.
End KeyedTable.

Lemma Customer_has_key_refl acc q raw tok lut :
  Customer.has_key acc q
    {| Customer.account := acc; Customer.qbo_id := q; Customer.raw_data := raw;
       Customer.sync_token := tok; Customer.last_updated_time := lut |} = true.
Proof. unfold Customer.has_key; simpl. now rewrite !String.eqb_refl. Qed.

(** What one [Customer.upsert] does to a table that holds at most one row
    with the key. *)
Lemma Customer_upsert_spec acc q raw tok lut tbl :
  customer_count acc q tbl <= 1 ->
  exists tbl',
    Customer.upsert acc (Some q) raw tok lut tbl = inl tbl'
    /\ customer_count acc q tbl' = 1
    /\ List.length tbl' = List.length tbl + (1 - customer_count acc q tbl)
    /\ (forall r, In r tbl' -> Customer.has_key acc q r = true ->
          Customer.raw_data r = raw /\ Customer.sync_token r = tok
          /\ Customer.last_updated_time r = lut)
    /\ filter (fun r => negb (Customer.has_key acc q r)) tbl'
       = filter (fun r => negb (Customer.has_key acc q r)) tbl.
Proof.
  unfold customer_count, Customer.upsert, Customer.update_or_create. intros H.
  destruct (filter (Customer.has_key acc q) tbl) as [|r0 [|r1 rest]] eqn:Hf;
    [ | | simpl in H; lia ].
  - eexists. split; [reflexivity|].
    pose proof (Customer_has_key_refl acc q raw tok lut) as Hk.
    rewrite (filter_snoc_hit _ _ _ _ Hk), (others_snoc_hit _ _ _ _ Hk), Hf.
    rewrite !length_app. simpl.
    split; [reflexivity|]. split; [lia|]. split; [|reflexivity].
    intros r Hin Hr. apply in_app_or in Hin. destruct Hin as [Hin|[<-|[]]].
    + assert (In r (filter (Customer.has_key acc q) tbl)) as Hx
        by (apply filter_In; auto).
      rewrite Hf in Hx. destruct Hx.
    + simpl. auto.
  - set (f := fun r : Customer.t =>
               {| Customer.account := Customer.account r;
                  Customer.qbo_id := Customer.qbo_id r;
                  Customer.raw_data := raw; Customer.sync_token := tok;
                  Customer.last_updated_time := lut |}).
    assert (forall r, Customer.has_key acc q (f r) = Customer.has_key acc q r) as Hkeep
      by reflexivity.
    eexists. split; [reflexivity|].
    change (map _ tbl) with (map (overwrite (Customer.has_key acc q) f) tbl).
    rewrite (filter_overwrite _ _ f Hkeep), (others_overwrite _ _ f Hkeep), Hf.
    rewrite !length_map. simpl.
    split; [reflexivity|]. split; [lia|]. split; [|reflexivity].
    intros r Hin Hr. apply in_map_iff in Hin. destruct Hin as [r' [<- _]].
    unfold overwrite in *. destruct (Customer.has_key acc q r') eqn:Hk'.
    + simpl. auto.
    + congruence.
Qed.

Lemma Invoice_has_key_refl acc q cref raw tok lut :
  Invoice.has_key acc q
    {| Invoice.account := acc; Invoice.qbo_id := q; Invoice.customer_ref := cref;
       Invoice.raw_data := raw; Invoice.sync_token := tok;
       Invoice.last_updated_time := lut |} = true.
Proof. unfold Invoice.has_key; simpl. now rewrite !String.eqb_refl. Qed.

Lemma Invoice_upsert_spec acc q raw cref tok lut tbl :
  invoice_count acc q tbl <= 1 ->
  exists tbl',
    Invoice.upsert acc (Some q) raw cref tok lut tbl = inl tbl'
    /\ invoice_count acc q tbl' = 1
    /\ List.length tbl' = List.length tbl + (1 - invoice_count acc q tbl)
    /\ (forall r, In r tbl' -> Invoice.has_key acc q r = true ->
          Invoice.raw_data r = raw /\ Invoice.sync_token r = tok
          /\ Invoice.last_updated_time r = lut)
    /\ filter (fun r => negb (Invoice.has_key acc q r)) tbl'
       = filter (fun r => negb (Invoice.has_key acc q r)) tbl.
Proof.
  unfold invoice_count, Invoice.upsert, Invoice.update_or_create. intros H.
  set (cref' := match cref, CustomerRef raw with
                | None, Some r => value r
                | _, _ => cref
                end).
  destruct (filter (Invoice.has_key acc q) tbl) as [|r0 [|r1 rest]] eqn:Hf;
    [ | | simpl in H; lia ].
  - eexists. split; [reflexivity|].
    pose proof (Invoice_has_key_refl acc q cref' raw tok lut) as Hk.
    rewrite (filter_snoc_hit _ _ _ _ Hk), (others_snoc_hit _ _ _ _ Hk), Hf.
    rewrite !length_app. simpl.
    split; [reflexivity|]. split; [lia|]. split; [|reflexivity].
    intros r Hin Hr. apply in_app_or in Hin. destruct Hin as [Hin|[<-|[]]].
    + assert (In r (filter (Invoice.has_key acc q) tbl)) as Hx
        by (apply filter_In; auto).
      rewrite Hf in Hx. destruct Hx.
    + simpl. auto.
  - set (f := fun r : Invoice.t =>
               {| Invoice.account := Invoice.account r;
                  Invoice.qbo_id := Invoice.qbo_id r;
                  Invoice.customer_ref := cref';
                  Invoice.raw_data := raw; Invoice.sync_token := tok;
                  Invoice.last_updated_time := lut |}).
    assert (forall r, Invoice.has_key acc q (f r) = Invoice.has_key acc q r) as Hkeep
      by reflexivity.
    eexists. split; [reflexivity|].
    change (map _ tbl) with (map (overwrite (Invoice.has_key acc q) f) tbl).
    rewrite (filter_overwrite _ _ f Hkeep), (others_overwrite _ _ f Hkeep), Hf.
    rewrite !length_map. simpl.
    split; [reflexivity|]. split; [lia|]. split; [|reflexivity].
    intros r Hin Hr. apply in_map_iff in Hin. destruct Hin as [r' [<- _]].
    unfold overwrite in *. destruct (Invoice.has_key acc q r') eqn:Hk'.
    + simpl. auto.
    + congruence.
Qed.

(** C8.  Upserting an external id twice, with the same or with a new
    payload, into a table that holds at most one row for the key
    (account, external id), succeeds both times and leaves exactly one
    row for the key: the second call creates no row, the row carries the
    payload, sync token and last-updated value of the second call, and the
    rows of other keys are as they were; for customers and for invoices. *)
Theorem upsert_twice_keeps_one_row
  (acc q : string) (ctbl : list Customer.t) (itbl : list Invoice.t)
  (raw1 raw2 : Entity) (tok1 tok2 : option string) (lut1 lut2 : option datetime)
  (cref1 cref2 : option string) :
  customer_count acc q ctbl <= 1 ->
  invoice_count acc q itbl <= 1 ->
  (exists t1 t2,
     Customer.upsert acc (Some q) raw1 tok1 lut1 ctbl = inl t1
     /\ Customer.upsert acc (Some q) raw2 tok2 lut2 t1 = inl t2
     /\ customer_count acc q t1 = 1
     /\ customer_count acc q t2 = 1
     /\ List.length t2 = List.length t1
     /\ (forall r, In r t2 -> Customer.has_key acc q r = true ->
           Customer.raw_data r = raw2 /\ Customer.sync_token r = tok2
           /\ Customer.last_updated_time r = lut2)
     /\ filter (fun r => negb (Customer.has_key acc q r)) t2
        = filter (fun r => negb (Customer.has_key acc q r)) ctbl)
  /\
  (exists t1 t2,
     Invoice.upsert acc (Some q) raw1 cref1 tok1 lut1 itbl = inl t1
     /\ Invoice.upsert acc (Some q) raw2 cref2 tok2 lut2 t1 = inl t2
     /\ invoice_count acc q t1 = 1
     /\ invoice_count acc q t2 = 1
     /\ List.length t2 = List.length t1
     /\ (forall r, In r t2 -> Invoice.has_key acc q r = true ->
           Invoice.raw_data r = raw2 /\ Invoice.sync_token r = tok2
           /\ Invoice.last_updated_time r = lut2)
     /\ filter (fun r => negb (Invoice.has_key acc q r)) t2
        = filter (fun r => negb (Invoice.has_key acc q r)) itbl).
Proof.
  intros Hc Hi. split.
  - destruct (Customer_upsert_spec acc q raw1 tok1 lut1 ctbl Hc)
      as (t1 & H1 & Hone & _ & _ & Hrest1).
    destruct (Customer_upsert_spec acc q raw2 tok2 lut2 t1 ltac:(lia))
      as (t2 & H2 & Hone2 & Hlen & Hrows & Hrest2).
    exists t1, t2. repeat (split; [assumption|]).
    split; [lia|]. split; [exact Hrows | congruence].
  - destruct (Invoice_upsert_spec acc q raw1 cref1 tok1 lut1 itbl Hi)
      as (t1 & H1 & Hone & _ & _ & Hrest1).
    destruct (Invoice_upsert_spec acc q raw2 cref2 tok2 lut2 t1 ltac:(lia))
      as (t2 & H2 & Hone2 & Hlen & Hrows & Hrest2).
    exists t1, t2. repeat (split; [assumption|]).
    split; [lia|]. split; [exact Hrows | congruence].
Qed.

(** A customer that is already stored, next to another one, is upserted
    twice: still two rows, one of them for the key, with the new token. *)
Lemma upsert_twice_keeps_one_row_witness :
  let stored q := {| Customer.account := "realm-ok"; Customer.qbo_id := q;
                     Customer.raw_data := demo_customer 7;
                     Customer.sync_token := Some "0";
                     Customer.last_updated_time := None |} in
  customer_count "realm-ok" "7" [stored "7"; stored "8"] <= 1
  /\ invoice_count "realm-ok" "7" [] <= 1
  /\ exists t1 t2,
       Customer.upsert "realm-ok" (Some "7") (demo_customer 7) (Some "1") None
         [stored "7"; stored "8"] = inl t1
       /\ Customer.upsert "realm-ok" (Some "7") (demo_customer 7) (Some "2") None t1
          = inl t2
       /\ customer_count "realm-ok" "7" t2 = 1
       /\ List.length t2 = 2.
Proof.
  intros stored.
  assert (customer_count "realm-ok" "7" [stored "7"; stored "8"] <= 1) as Hc
    by (vm_compute; lia).
  assert (invoice_count "realm-ok" "7" [] <= 1) as Hi by (vm_compute; lia).
  split; [exact Hc|]. split; [exact Hi|].
  destruct (proj1 (upsert_twice_keeps_one_row "realm-ok" "7"
                     [stored "7"; stored "8"] []
                     (demo_customer 7) (demo_customer 7) (Some "1") (Some "2")
                     None None None None Hc Hi))
    as (t1 & t2 & H1 & H2 & Hone1 & Hone2 & Hlen & _).
  exists t1, t2. repeat (split; [assumption|]).
  rewrite Hlen. unfold Customer.upsert in H1. vm_compute in H1.
  injection H1 as <-. reflexivity.
Defined.

(** ** Sync state rows *)

Lemma SyncState_save_length cols self tbl :
  List.length (SyncState.save cols self tbl) = List.length tbl.
Proof. unfold SyncState.save. apply length_map. Qed.

Lemma SyncState_save_nth cols self tbl i r :
  nth_error tbl i = Some r ->
  nth_error (SyncState.save cols self tbl) i =
    Some (if SyncState.has_key (SyncState.account self) (SyncState.object_type self) r
          then SyncState.write_columns cols self r else r).
Proof.
  intros H. unfold SyncState.save. rewrite nth_error_map, H. reflexivity.
Qed.

(** C9.  [mark_failed] sets the status to failed, stores the message and
    adds one to the consecutive-failure counter; the checkpoint, the
    last-successful-sync instant and the last-attempt instant stay as they
    were, on the object and on the stored row (whose [updated_at] stamp is
    the only other column written), and rows of other keys are untouched.
    [mark_success] sets the status to success, the counter to zero and
    the message to null. *)
Theorem mark_failed_and_mark_success_effects :
  forall (now : datetime) (self : SyncState.t) (tbl : list SyncState.t),
    let mine := SyncState.has_key (SyncState.account self) (SyncState.object_type self) in
    (forall msg,
       let self' := fst (SyncState.mark_failed now self msg tbl) in
       let tbl' := snd (SyncState.mark_failed now self msg tbl) in
       SyncState.status self' = FAILED
       /\ SyncState.error_message self' = Some msg
       /\ SyncState.consecutive_failures self' = (SyncState.consecutive_failures self + 1)%Z
       /\ SyncState.checkpoint self' = SyncState.checkpoint self
       /\ SyncState.last_successful_sync_time self' = SyncState.last_successful_sync_time self
       /\ SyncState.last_attempt_time self' = SyncState.last_attempt_time self
       /\ List.length tbl' = List.length tbl
       /\ forall i r, nth_error tbl i = Some r ->
            exists r', nth_error tbl' i = Some r'
              /\ SyncState.account r' = SyncState.account r
              /\ SyncState.object_type r' = SyncState.object_type r
              /\ SyncState.checkpoint r' = SyncState.checkpoint r
              /\ SyncState.last_successful_sync_time r' = SyncState.last_successful_sync_time r
              /\ SyncState.last_attempt_time r' = SyncState.last_attempt_time r
              /\ (mine r = true ->
                    SyncState.status r' = FAILED
                    /\ SyncState.error_message r' = Some msg
                    /\ SyncState.consecutive_failures r'
                       = (SyncState.consecutive_failures self + 1)%Z)
              /\ (mine r = false -> r' = r))
    /\
    (forall ckpt,
       let self' := fst (SyncState.mark_success now self ckpt tbl) in
       let tbl' := snd (SyncState.mark_success now self ckpt tbl) in
       SyncState.status self' = SUCCESS
       /\ SyncState.consecutive_failures self' = 0%Z
       /\ SyncState.error_message self' = None
       /\ List.length tbl' = List.length tbl
       /\ forall i r, nth_error tbl i = Some r ->
            exists r', nth_error tbl' i = Some r'
              /\ (mine r = true ->
                    SyncState.status r' = SUCCESS
                    /\ SyncState.consecutive_failures r' = 0%Z
                    /\ SyncState.error_message r' = None)
              /\ (mine r = false -> r' = r)).
Proof.
  intros now self tbl mine. split.
  - intros msg self' tbl'. subst self' tbl'. cbn [fst snd SyncState.mark_failed].
    repeat (split; [reflexivity|]).
    split; [apply SyncState_save_length|].
    intros i r Hr. eexists. split; [apply SyncState_save_nth; exact Hr|].
    cbn [SyncState.account SyncState.object_type]. fold (mine r).
    destruct (mine r); repeat split; try discriminate; reflexivity.
  - intros ckpt self' tbl'. subst self' tbl'. cbn [fst snd SyncState.mark_success].
    repeat (split; [reflexivity|]).
    split; [apply SyncState_save_length|].
    intros i r Hr. eexists. split; [apply SyncState_save_nth; exact Hr|].
    cbn [SyncState.account SyncState.object_type]. fold (mine r).
    destruct (mine r); repeat split; try discriminate; reflexivity.
Qed.

(** ** The monad: what a computation maintains *)

Section Maintains.

Context (R : world -> world -> Prop) {R_preorder : PreOrder R}.

Let R_refl : forall w, R w w := @PreOrder_Reflexive _ R R_preorder.
Let R_trans : forall a b c, R a b -> R b c -> R a c :=
  @PreOrder_Transitive _ R R_preorder.

Lemma maintains_ret {A} (a : A) : maintains R (ret a).
Proof. intros w. apply R_refl. Qed.

Lemma maintains_raise {A} e : maintains R (@raise world A e).
Proof. intros w. apply R_refl. Qed.

Lemma maintains_diverge {A} : maintains R (@diverge world A).
Proof. intros w. apply R_refl. Qed.

Lemma maintains_get : maintains R get.
Proof. intros w. apply R_refl. Qed.

Lemma maintains_bind {A B} (m : M world A) (k : A -> M world B) :
  maintains R m -> (forall a, maintains R (k a)) -> maintains R (bind m k).
Proof.
  intros Hm Hk w. unfold bind. specialize (Hm w).
  destruct (m w) as [w1 [a|e|]]; simpl in *; auto.
  eapply R_trans; [exact Hm | apply Hk].
Qed.

Lemma maintains_try_except {A} (m : M world A) (h : exn -> M world A) :
  maintains R m -> (forall e, maintains R (h e)) -> maintains R (try_except m h).
Proof.
  intros Hm Hh w. unfold try_except. specialize (Hm w).
  destruct (m w) as [w1 [a|e|]]; simpl in *; auto.
  eapply R_trans; [exact Hm | apply Hh].
Qed.

Lemma maintains_for_each {A S} (body : S -> A -> M world S) (l : list A) :
  (forall s x, maintains R (body s x)) -> forall s, maintains R (for_each body l s).
Proof.
  intros Hb. induction l as [|x l IH]; intros s; simpl.
  - apply maintains_ret.
  - apply maintains_bind; auto.
Qed.

Lemma maintains_for_batches {S} E (body : S -> list Entity -> M world S) :
  (forall g, maintains R (gen_next E g)) ->
  (forall s b, maintains R (body s b)) ->
  forall fuel g s, maintains R (for_batches E fuel body g s).
Proof.
  intros Hg Hb. induction fuel as [|fuel IH]; intros g s; simpl.
  - apply maintains_diverge.
  - apply maintains_bind; [apply Hg|].
    intros [[batch|] g']; [|apply maintains_ret].
    apply maintains_bind; auto.
Qed.

(** A relation that only looks at what [transaction.atomic] does not
    restore survives the rollback. *)
Lemma maintains_atomic {A} (m : M world A) :
  (forall w w1, R w w1 ->
     R w {| accounts := accounts w; sync_states := sync_states w;
            customer_rows := customer_rows w; invoice_rows := invoice_rows w;
            client := client w1; trace := trace w1 |}) ->
  maintains R m -> maintains R (atomic m).
Proof.
  intros Hroll Hm w. unfold atomic. specialize (Hm w).
  destruct (m w) as [w1 [a|e|]]; simpl in *; auto.
Qed.

End Maintains.

(** ** Frames: what the layers below the engine can change *)

(** Apply a lemma of the section above; the preorder is found by instance
    search. *)
Ltac mstep L := apply L; try exact _.

(** Walk down a computation built from binds, handlers and case
    distinctions, closing the leaves with [leaf]. *)
Ltac mwalk leaf :=
  repeat first
    [ leaf
    | mstep maintains_ret | mstep maintains_raise
    | mstep maintains_get | mstep maintains_diverge
    | mstep maintains_bind; [ | intros ? ]
    | mstep maintains_try_except; [ | intros ? ]
    | progress cbv zeta
    | match goal with
      | |- maintains _ (match ?x with _ => _ end) => destruct x
      end ].


Section Frames.

Context (E : Env) (R : world -> world -> Prop) {F : Frame R}.

Lemma fr_lift {A} (r : res A) : maintains R (lift r).
Proof. intros w. simpl. reflexivity. Qed.

Lemma fr_now : maintains R (now E).
Proof. intros w. simpl. reflexivity. Qed.

Lemma fr_log ev : maintains R (log ev).
Proof. intros w. apply frame_log. Qed.

Lemma fr_sleep d : maintains R (sleep d).
Proof. apply fr_log. Qed.

Lemma fr_update_client f : maintains R (update_client f).
Proof. intros w. apply frame_client. Qed.

Lemma fr_subscript {A} key (v : option A) : maintains R (subscript key v).
Proof. destruct v; intros w; simpl; reflexivity. Qed.

Lemma fr_on_token_refresh pk a rt exp : maintains R (on_token_refresh pk a rt exp).
Proof.
  intros w. unfold on_token_refresh.
  destruct (QBOAccount.first_by_realm _ _); simpl; [apply frame_tokens | reflexivity].
Qed.

Lemma fr_Customer_upsert acc qid raw tok lut :
  maintains R (Customer_upsert acc qid raw tok lut).
Proof.
  intros w. unfold Customer_upsert.
  destruct (Customer.upsert _ _ _ _ _ _); simpl; [apply frame_customers | reflexivity].
Qed.

Lemma fr_Invoice_upsert acc qid raw cref tok lut :
  maintains R (Invoice_upsert acc qid raw cref tok lut).
Proof.
  intros w. unfold Invoice_upsert.
  destruct (Invoice.upsert _ _ _ _ _ _ _); simpl; [apply frame_invoices | reflexivity].
Qed.

(** Leaves of the walk. *)
Ltac fr_leaf :=
  first [ apply fr_log | apply fr_update_client | apply fr_now
        | apply fr_lift | apply fr_subscript | apply fr_on_token_refresh
        | apply fr_Customer_upsert | apply fr_Invoice_upsert ].

Lemma fr_http_get url bearer : maintains R (http_get E url bearer).
Proof. unfold http_get. mwalk fr_leaf. Qed.

Lemma fr_attempt_request self url : maintains R (attempt_request E self url).
Proof. unfold attempt_request. mwalk fr_leaf. Qed.

Lemma fr_retry_loop self url todo :
  forall attempt last, maintains R (retry_loop E self url todo attempt last).
Proof.
  induction todo as [|todo IH]; intros attempt last; simpl.
  - mwalk fr_leaf.
  - mstep maintains_try_except; [apply fr_attempt_request|].
    intros e. mwalk fr_leaf; solve [apply fr_sleep | apply IH].
Qed.

Lemma fr_query self q : maintains R (_query E self q).
Proof. unfold _query. mwalk fr_leaf. apply fr_retry_loop. Qed.

Lemma fr_fetch_page g pos : maintains R (fetch_page E g pos).
Proof. unfold fetch_page. mwalk fr_leaf. apply fr_retry_loop. Qed.

Lemma fr_gen_next g : maintains R (gen_next E g).
Proof. unfold gen_next. mwalk fr_leaf; apply fr_retry_loop. Qed.

Lemma fr_refresh_tokens : maintains R (_refresh_tokens E).
Proof. unfold _refresh_tokens. mwalk fr_leaf. Qed.

Lemma fr_ensure_token_valid : maintains R (ensure_token_valid E).
Proof. unfold ensure_token_valid. mwalk fr_leaf; apply fr_refresh_tokens. Qed.

Lemma fr_record_body ty acc st d : maintains R (record_body E ty acc st d).
Proof. destruct ty; simpl; unfold customer_body, invoice_body; mwalk fr_leaf. Qed.

Lemma fr_batch ty acc st batch :
  maintains R (atomic (for_each (record_body E ty acc) batch st)).
Proof.
  mstep maintains_atomic.
  - apply frame_rollback.
  - mstep maintains_for_each. intros. apply fr_record_body.
Qed.

Lemma fr_batches ty acc fuel g st :
  maintains R (for_batches E fuel
                 (fun st batch => atomic (for_each (record_body E ty acc) batch st))
                 g st).
Proof.
  mstep maintains_for_batches.
  - apply fr_gen_next.
  - intros. apply fr_batch.
Qed.

End Frames.

(** ** The frame of the sync-state table *)

#[local] Instance same_sync_states_frame : Frame same_sync_states.
Proof.
  split; try (intros; reflexivity).
  split; unfold same_sync_states; [intros w; reflexivity | intros a b c; congruence].
Qed.

Lemma keeps_revoke account : maintains same_sync_states (revoke account).
Proof. intros w. reflexivity. Qed.

Lemma keeps_modify f :
  (forall w, sync_states (f w) = sync_states w) -> maintains same_sync_states (modify f).
Proof. intros H w. apply H. Qed.

(** ** The checkpoint watermark *)

Lemma update_checkpoint_ge cur new : ckpt_le cur (_update_checkpoint cur new).
Proof.
  unfold _update_checkpoint, ckpt_le. destruct new as [n|]; [|apply str_le_refl].
  destruct (String.eqb n ""); simpl; [apply str_le_refl|].
  destruct cur as [c|]; simpl; [|apply str_le_empty].
  destruct (String.eqb c "") eqn:Hc; simpl.
  - apply String.eqb_eq in Hc. subst. apply str_le_empty.
  - destruct (str_gt n c) eqn:Hgt; simpl; [now apply str_gt_le | apply str_le_refl].
Qed.

(** [_update_checkpoint] returns the new value exactly when it is
    non-empty and the current one is empty or strictly smaller. *)
Lemma update_checkpoint_cases cur new :
  (_update_checkpoint cur new = new /\ truthy new = true
   /\ (truthy cur = false \/ str_gt (wm new) (wm cur) = true))
  \/ (_update_checkpoint cur new = cur
      /\ (truthy new = false
          \/ (truthy cur = true /\ str_gt (wm new) (wm cur) = false))).
Proof.
  unfold _update_checkpoint. destruct new as [n|]; [|right; auto].
  simpl. destruct (String.eqb n "") eqn:Hn; simpl; [right; auto|].
  destruct cur as [c|]; simpl; [|left; auto].
  destruct (String.eqb c ""); simpl; [left; auto|].
  destruct (str_gt n c); [left | right]; auto.
Qed.

Lemma ObjectType_eqb_eq a b : ObjectType_eqb a b = true -> a = b.
Proof. destruct a, b; simpl; congruence. Qed.

Lemma SyncState_has_key_eq acc ty r :
  SyncState.has_key acc ty r = true ->
  SyncState.account r = acc /\ SyncState.object_type r = ty.
Proof.
  unfold SyncState.has_key. intros H. apply andb_prop in H. destruct H as [H1 H2].
  apply String.eqb_eq in H1. apply ObjectType_eqb_eq in H2. auto.
Qed.

Lemma find_map_same {A} (p : A -> bool) (g : A -> A) l :
  (forall r, p (g r) = p r) -> find p (map g l) = option_map g (find p l).
Proof.
  intros H. induction l as [|r l IH]; simpl; auto.
  rewrite H. destruct (p r); auto.
Qed.

Lemma find_snoc {A} (p : A -> bool) l x :
  find p (l ++ [x])%list =
    match find p l with
    | Some y => Some y
    | None => if p x then Some x else None
    end.
Proof. induction l as [|r l IH]; simpl; auto. destruct (p r); auto. Qed.

Lemma SyncState_lookup_save acc ty cols self tbl :
  SyncState.lookup acc ty (SyncState.save cols self tbl) =
    option_map
      (fun r => if SyncState.has_key (SyncState.account self)
                                     (SyncState.object_type self) r
                then SyncState.write_columns cols self r else r)
      (SyncState.lookup acc ty tbl).
Proof.
  unfold SyncState.lookup, SyncState.save. apply find_map_same.
  intros r. destruct (SyncState.has_key _ _ r); reflexivity.
Qed.

(** A [save] that does not list the checkpoint column leaves every stored
    checkpoint as it is. *)
Lemma ck_save_other acc ty cols self tbl :
  SyncState.listed SyncState.c_checkpoint cols = false ->
  ck acc ty (SyncState.save cols self tbl) = ck acc ty tbl.
Proof.
  intros H. unfold ck. rewrite SyncState_lookup_save.
  destruct (SyncState.lookup acc ty tbl) as [r|]; simpl; auto.
  destruct (SyncState.has_key _ _ r); auto.
  unfold SyncState.write_columns. simpl. now rewrite H.
Qed.

Lemma ck_mark_started acc ty t self tbl :
  ck acc ty (snd (SyncState.mark_started t self tbl)) = ck acc ty tbl.
Proof. apply ck_save_other. reflexivity. Qed.

Lemma ck_mark_failed acc ty t self msg tbl :
  ck acc ty (snd (SyncState.mark_failed t self msg tbl)) = ck acc ty tbl.
Proof. apply ck_save_other. reflexivity. Qed.

(** [mark_success] with a checkpoint that is not below the object's own,
    on an object that agrees with its stored row: no stored checkpoint
    goes down. *)
Lemma ck_mark_success acc ty t self c tbl :
  ck (SyncState.account self) (SyncState.object_type self) tbl
    = SyncState.checkpoint self ->
  ckpt_le (SyncState.checkpoint self) c ->
  ckpt_le (ck acc ty tbl) (ck acc ty (snd (SyncState.mark_success t self c tbl))).
Proof.
  intros Hrow Hle. unfold SyncState.mark_success. cbn [snd].
  unfold ck at 2. rewrite SyncState_lookup_save. cbn [SyncState.account SyncState.object_type].
  unfold ck at 1. destruct (SyncState.lookup acc ty tbl) as [r|] eqn:Hr; simpl;
    [|apply ckpt_le_refl].
  destruct (SyncState.has_key _ _ r) eqn:Hk; [|apply ckpt_le_refl].
  unfold SyncState.write_columns. simpl.
  assert (SyncState.checkpoint r = SyncState.checkpoint self) as ->.
  { unfold SyncState.lookup in Hr. pose proof (find_some _ _ Hr) as [_ Hk'].
    apply SyncState_has_key_eq in Hk, Hk'. cbn [SyncState.account SyncState.object_type] in Hk.
    destruct Hk as [Ea Et], Hk' as [Ea' Et'].
    rewrite <- Ea, <- Et, Ea', Et' in Hrow.
    unfold ck, SyncState.lookup in Hrow. now rewrite Hr in Hrow. }
  destruct (truthy c); [exact Hle | apply ckpt_le_refl].
Qed.

Lemma SyncState_get_or_create_spec t acc ty tbl :
  let s := fst (SyncState.get_or_create t acc ty tbl) in
  let tbl' := snd (SyncState.get_or_create t acc ty tbl) in
  SyncState.lookup acc ty tbl' = Some s
  /\ SyncState.account s = acc /\ SyncState.object_type s = ty
  /\ SyncState.checkpoint s = ck acc ty tbl
  /\ forall a b, ck a b tbl' = ck a b tbl.
Proof.
  unfold SyncState.get_or_create, ck.
  destruct (SyncState.lookup acc ty tbl) as [r|] eqn:Hr; cbn [fst snd].
  - pose proof (find_some _ _ Hr) as [_ Hk]. apply SyncState_has_key_eq in Hk.
    destruct Hk. auto.
  - unfold SyncState.lookup in *. rewrite find_snoc, Hr.
    unfold SyncState.has_key at 1. cbn [SyncState.account SyncState.object_type].
    rewrite String.eqb_refl. replace (ObjectType_eqb ty ty) with true by (now destruct ty).
    simpl. repeat split. intros a b. rewrite find_snoc.
    destruct (find (SyncState.has_key a b) tbl); auto.
    destruct (SyncState.has_key a b _); auto.
Qed.

#[local] Instance ckpt_mono_preorder : PreOrder ckpt_mono.
Proof.
  split.
  - intros w acc ty. apply ckpt_le_refl.
  - intros a b c H1 H2 acc ty. eapply ckpt_le_trans; [apply H1 | apply H2].
Qed.

Lemma keeps_mono {A} (m : M world A) :
  maintains same_sync_states m -> maintains ckpt_mono m.
Proof.
  intros H w acc ty. unfold stored_checkpoint. rewrite (H w). apply ckpt_le_refl.
Qed.

Lemma yields_bind {A B} (Q : B -> Prop) (m : M world A) (k : A -> M world B) :
  (forall a, yields Q (k a)) -> yields Q (bind m k).
Proof.
  intros Hk w b. unfold bind. destruct (m w) as [w1 [a|e|]]; simpl; try discriminate.
  apply Hk.
Qed.

Lemma yields_for_each {A S} (I : S -> Prop) (body : S -> A -> M world S) l :
  (forall s x, I s -> yields I (body s x)) ->
  forall s, I s -> yields I (for_each body l s).
Proof.
  intros Hb. induction l as [|x l IH]; intros s Hs w s'; simpl.
  - intros [= <-]. exact Hs.
  - unfold bind. destruct (body s x w) as [w1 [s1|e|]] eqn:Hx; simpl; try discriminate.
    apply IH. apply (Hb s x Hs w). now rewrite Hx.
Qed.

Lemma yields_atomic {A} (Q : A -> Prop) (m : M world A) :
  yields Q m -> yields Q (atomic m).
Proof.
  intros H w a. unfold atomic. specialize (H w a).
  destruct (m w) as [w1 [x|e|]]; simpl in *; auto; discriminate.
Qed.

Lemma yields_for_batches {S} E (I : S -> Prop) (body : S -> list Entity -> M world S) :
  (forall s b, I s -> yields I (body s b)) ->
  forall fuel g s, I s -> yields I (for_batches E fuel body g s).
Proof.
  intros Hb. induction fuel as [|fuel IH]; intros g s Hs w s'; simpl.
  - discriminate.
  - unfold bind. destruct (gen_next E g w) as [w1 [[[batch|] g']|e|]]; simpl;
      try discriminate.
    + destruct (body s batch w1) as [w2 [s1|e|]] eqn:Hx; simpl; try discriminate.
      apply IH. apply (Hb s batch Hs w1). now rewrite Hx.
    + intros [= <-]. exact Hs.
Qed.

Lemma SyncState_has_key_lookup acc ty tbl r :
  SyncState.lookup acc ty tbl = Some r -> SyncState.has_key acc ty r = true.
Proof. intros H. apply (find_some _ _ H). Qed.

(** The checkpoint stored after [mark_started] and then [mark_success]
    on the object [get_or_create] returned. *)
Lemma success_row ty acc t1 t2 t3 c tbl :
  let s := fst (SyncState.get_or_create t1 acc ty tbl) in
  let tbl2 := snd (SyncState.get_or_create t1 acc ty tbl) in
  let s1 := fst (SyncState.mark_started t2 s tbl2) in
  let tbl3 := snd (SyncState.mark_started t2 s tbl2) in
  ck acc ty (snd (SyncState.mark_success t3 s1 c tbl3))
    = if truthy c then c else ck acc ty tbl.
Proof.
  intros s tbl2 s1 tbl3.
  pose proof (SyncState_get_or_create_spec t1 acc ty tbl) as (Hlook & Hacc & Hty & Hck & _).
  fold s tbl2 in Hlook, Hacc, Hty, Hck.
  pose proof (SyncState_has_key_lookup _ _ _ _ Hlook) as Hk.
  unfold ck at 1, SyncState.mark_success. cbn [snd].
  rewrite SyncState_lookup_save. unfold tbl3, SyncState.mark_started. cbn [snd].
  rewrite SyncState_lookup_save, Hlook. cbn [option_map].
  unfold s1, SyncState.mark_started. cbn [fst SyncState.account SyncState.object_type].
  rewrite Hacc, Hty, Hk.
  replace (SyncState.has_key acc ty (SyncState.write_columns _ _ s)) with true
    by (symmetry; exact Hk).
  cbn. rewrite Hck. reflexivity.
Qed.

Section Checkpoint.

Context (E : Env).

Lemma record_body_above c0 ty acc st d :
  ckpt_le c0 (snd st) ->
  yields (fun st' => ckpt_le c0 (snd st')) (record_body E ty acc st d).
Proof.
  intros H w st'. destruct ty; simpl;
    unfold customer_body, invoice_body, bind, Customer_upsert, Invoice_upsert.
  - destruct (Customer.upsert _ _ _ _ _ _); simpl; try discriminate.
    intros [= <-]. simpl. eapply ckpt_le_trans; [exact H | apply update_checkpoint_ge].
  - destruct (Invoice.upsert _ _ _ _ _ _ _); simpl; try discriminate.
    intros [= <-]. simpl. eapply ckpt_le_trans; [exact H | apply update_checkpoint_ge].
Qed.

(** The loop of a sync never lets the running checkpoint fall below the
    one it started from. *)
Lemma batches_above ty acc fuel g c0 n :
  yields (fun st' => ckpt_le c0 (snd st'))
    (for_batches E fuel
       (fun st batch => atomic (for_each (record_body E ty acc) batch st))
       g (n, c0)).
Proof.
  apply (yields_for_batches E (fun st => ckpt_le c0 (snd st))).
  - intros s b Hs. apply yields_atomic.
    apply (yields_for_each (fun st => ckpt_le c0 (snd st))); auto.
    intros. now apply record_body_above.
  - apply ckpt_le_refl.
Qed.

Lemma on_sync_states_run f w :
  on_sync_states E f w =
    (with_sync_states w (snd (f (clock E (trace w)) (sync_states w))),
     Ret (fst (f (clock E (trace w)) (sync_states w)))).
Proof. reflexivity. Qed.

(** One object type's sync moves no stored checkpoint backwards, however
    it ends. *)
Lemma sync_type_monotone ty fuel account :
  maintains ckpt_mono (sync_type E ty fuel account).
Proof.
  intros w acc' ty'. unfold sync_type.
  set (acc := QBOAccount.realm_id account).
  unfold bind at 1.
  pose proof (fr_ensure_token_valid E same_sync_states w) as H1.
  destruct (ensure_token_valid E w) as [w1 [[]|e|]]; simpl in H1;
    unfold stored_checkpoint;
    [ | cbn [fst]; rewrite H1; apply ckpt_le_refl .. ].
  unfold bind at 1. rewrite on_sync_states_run.
  pose proof (SyncState_get_or_create_spec (clock E (trace w1)) acc ty (sync_states w1))
    as (Hlook & Hacc & Hty & Hck & Hsame).
  set (s := fst (SyncState.get_or_create _ acc ty (sync_states w1))) in *.
  set (tbl2 := snd (SyncState.get_or_create _ acc ty (sync_states w1))) in *.
  set (w2 := with_sync_states w1 tbl2).
  unfold bind at 1. rewrite on_sync_states_run.
  set (s1 := fst (SyncState.mark_started (clock E (trace w2)) s (sync_states w2))).
  set (tbl3 := snd (SyncState.mark_started (clock E (trace w2)) s (sync_states w2))).
  set (w3 := with_sync_states w2 tbl3).
  assert (forall a b, ck a b tbl3 = ck a b (sync_states w)) as H3.
  { intros a b. unfold tbl3. rewrite ck_mark_started. simpl. now rewrite Hsame, H1. }
  assert (SyncState.account s1 = acc /\ SyncState.object_type s1 = ty
          /\ SyncState.checkpoint s1 = SyncState.checkpoint s) as (Ha1 & Ht1 & Hc1)
    by (repeat split; assumption).
  unfold try_except, bind at 1.
  pose proof (fr_batches E same_sync_states ty acc fuel
                (get_all_generator ty (SyncState.checkpoint s))
                (0, SyncState.checkpoint s) w3) as H4.
  pose proof (batches_above ty acc fuel
                (get_all_generator ty (SyncState.checkpoint s))
                (SyncState.checkpoint s) 0 w3) as H5.
  destruct (for_batches E fuel _ _ _ w3) as [w4 [st|e|]]; simpl in H4, H5.
  - unfold bind. rewrite on_sync_states_run. cbn [fst snd sync_states with_sync_states].
    fold (ck acc' ty' (sync_states w)). rewrite <- H3, H4.
    change (sync_states w3) with tbl3.
    apply ck_mark_success.
    + rewrite Ha1, Ht1, Hc1, H3, <- H1, <- Hsame. fold tbl2. unfold ck. now rewrite Hlook.
    + rewrite Hc1. now apply H5.
  - unfold bind. rewrite on_sync_states_run. cbn [fst snd sync_states with_sync_states].
    fold (ck acc' ty' (sync_states w)).
    change (ckpt_le (ck acc' ty' (sync_states w))
              (ck acc' ty' (snd (SyncState.mark_failed (clock E (trace w4)) s1
                                   (exn_str e) (sync_states w4))))).
    rewrite ck_mark_failed, H4. change (sync_states w3) with tbl3.
    rewrite H3. apply ckpt_le_refl.
  - cbn [fst]. fold (ck acc' ty' (sync_states w)).
    change (ckpt_le (ck acc' ty' (sync_states w)) (ck acc' ty' (sync_states w4))).
    rewrite H4. change (sync_states w3) with tbl3. rewrite H3. apply ckpt_le_refl.
Qed.

(** A sync that returns has stored the checkpoint it returns, which is
    not below the one stored before: [mark_success] is only ever handed
    the maximum of the stored checkpoint and the timestamps seen. *)
Lemma sync_type_success ty fuel account w w' n c :
  sync_type E ty fuel account w = (w', Ret (n, c)) ->
  ckpt_le (stored_checkpoint (QBOAccount.realm_id account) ty w) c
  /\ stored_checkpoint (QBOAccount.realm_id account) ty w'
     = if truthy c then c else stored_checkpoint (QBOAccount.realm_id account) ty w.
Proof.
  unfold sync_type, stored_checkpoint.
  set (acc := QBOAccount.realm_id account).
  unfold bind at 1.
  pose proof (fr_ensure_token_valid E same_sync_states w) as H1.
  destruct (ensure_token_valid E w) as [w1 [[]|e|]]; simpl in H1; try discriminate.
  unfold bind at 1. rewrite on_sync_states_run.
  unfold bind at 1. rewrite on_sync_states_run.
  cbn [sync_states with_sync_states trace].
  set (t1 := clock E (trace w1)).
  pose proof (SyncState_get_or_create_spec t1 acc ty (sync_states w1))
    as (_ & _ & _ & Hck & _).
  set (s := fst (SyncState.get_or_create t1 acc ty (sync_states w1))) in *.
  set (tbl2 := snd (SyncState.get_or_create t1 acc ty (sync_states w1))).
  set (s1 := fst (SyncState.mark_started t1 s tbl2)).
  set (tbl3 := snd (SyncState.mark_started t1 s tbl2)).
  set (w3 := with_sync_states (with_sync_states w1 tbl2) tbl3).
  unfold try_except, bind at 1.
  pose proof (fr_batches E same_sync_states ty acc fuel
                (get_all_generator ty (SyncState.checkpoint s))
                (0, SyncState.checkpoint s) w3) as H4.
  pose proof (batches_above ty acc fuel
                (get_all_generator ty (SyncState.checkpoint s))
                (SyncState.checkpoint s) 0 w3) as H5.
  destruct (for_batches E fuel _ _ _ w3) as [w4 [st|e|]]; simpl in H4, H5.
  - unfold bind. rewrite on_sync_states_run. intros [= <- ->].
    cbn [sync_states with_sync_states snd]. rewrite H4.
    change (sync_states w3) with tbl3. rewrite <- H1, <- Hck.
    split; [exact (H5 (n, c) eq_refl)|].
    pose proof (success_row ty acc t1 t1 (clock E (trace w4)) c (sync_states w1))
      as Hrow.
    transitivity (if truthy c then c else ck acc ty (sync_states w1));
      [exact Hrow | now rewrite Hck].
  - unfold bind. rewrite on_sync_states_run. discriminate.
  - discriminate.
Qed.

Ltac mono_leaf :=
  first [ apply sync_type_monotone
        | apply keeps_mono; first [ apply keeps_revoke | apply keeps_modify; reflexivity ] ].

Lemma sync_object_type_monotone fuel account config :
  maintains ckpt_mono (_sync_object_type E fuel account config).
Proof.
  unfold _sync_object_type. destruct config as [name []]; simpl;
    unfold sync_customers, sync_invoices; mwalk mono_leaf.
Qed.

Lemma sync_account_monotone fuel realm_id :
  maintains ckpt_mono (sync_account E fuel realm_id).
Proof.
  unfold sync_account.
  mstep maintains_try_except; [|intros e; mwalk mono_leaf].
  mstep maintains_bind; [mstep maintains_get|]. intros w0.
  destruct (QBOAccount.first_by_realm _ _); [|mwalk mono_leaf].
  destruct (QBOAccount.is_token_expired _); [mwalk mono_leaf|].
  mstep maintains_bind; [mwalk mono_leaf|]. intros _.
  mstep maintains_bind; [|intros; mwalk mono_leaf].
  unfold sync_configs. mstep maintains_for_each. intros d config.
  mstep maintains_bind; [apply sync_object_type_monotone | intros; mwalk mono_leaf].
Qed.

Lemma sync_all_accounts_monotone fuel :
  maintains ckpt_mono (sync_all_accounts E fuel).
Proof.
  unfold sync_all_accounts.
  mstep maintains_bind; [mstep maintains_get|]. intros w0.
  unfold fleet_loop. mstep maintains_for_each. intros results account.
  mstep maintains_try_except; [|intros e; mwalk mono_leaf].
  mstep maintains_bind; [apply sync_account_monotone | intros; mwalk mono_leaf].
Qed.

Lemma run_cycles_monotone cs : forall w, ckpt_mono w (run_cycles E cs w).
Proof.
  induction cs as [|[fuel c] cs IH]; intros w; simpl.
  - reflexivity.
  - etransitivity; [|apply IH].
    unfold run_cycle. destruct c; simpl.
    + apply sync_type_monotone.
    + apply sync_account_monotone.
    + apply sync_all_accounts_monotone.
Qed.

End Checkpoint.

(** C1.  The checkpoint watermark is non-decreasing in string order:
    [_update_checkpoint] returns a value that is not below the current one,
    and replaces it only by a non-empty string that compares strictly
    greater (or when there is no current watermark); [mark_success] keeps
    the stored checkpoint when it is given [None] or the empty string, and
    the value a sync hands to it, which is the value the sync returns and
    stores, is not below the checkpoint stored before; and over every
    sequence of sync cycles (of one object type, of an account or of the
    fleet, successful, failed or cut short) every stored checkpoint ends
    not below where it started. *)
Theorem checkpoint_watermark_never_decreases (E : Env) :
  (forall cur new,
     ckpt_le cur (_update_checkpoint cur new)
     /\ (_update_checkpoint cur new = cur
         \/ (_update_checkpoint cur new = new /\ truthy new = true
             /\ (truthy cur = false \/ str_gt (wm new) (wm cur) = true))))
  /\ (forall t self c tbl acc ty,
        truthy c = false ->
        SyncState.checkpoint (fst (SyncState.mark_success t self c tbl))
          = SyncState.checkpoint self
        /\ (ck (SyncState.account self) (SyncState.object_type self) tbl
              = SyncState.checkpoint self ->
            ck acc ty (snd (SyncState.mark_success t self c tbl)) = ck acc ty tbl))
  /\ (forall ty fuel account w w' n c,
        sync_type E ty fuel account w = (w', Ret (n, c)) ->
        ckpt_le (stored_checkpoint (QBOAccount.realm_id account) ty w) c
        /\ stored_checkpoint (QBOAccount.realm_id account) ty w'
           = if truthy c then c
             else stored_checkpoint (QBOAccount.realm_id account) ty w)
  /\ (forall cs w acc ty,
        ckpt_le (stored_checkpoint acc ty w)
                (stored_checkpoint acc ty (run_cycles E cs w))).
Proof.
  split; [|split; [|split]].
  - intros cur new. split; [apply update_checkpoint_ge|].
    destruct (update_checkpoint_cases cur new) as [H|[H _]]; auto.
  - intros t self c tbl acc ty Hc. unfold SyncState.mark_success. cbn [fst snd].
    simpl. rewrite Hc. split; [reflexivity|]. intros Hrow.
    unfold ck at 1. rewrite SyncState_lookup_save.
    cbn [SyncState.account SyncState.object_type].
    unfold ck at 1. destruct (SyncState.lookup acc ty tbl) as [r|] eqn:Hr; simpl; auto.
    destruct (SyncState.has_key _ _ r) eqn:Hk; auto.
    unfold SyncState.write_columns. simpl.
    unfold SyncState.lookup in Hr. pose proof (find_some _ _ Hr) as [_ Hk'].
    apply SyncState_has_key_eq in Hk, Hk'. destruct Hk as [Ea Et], Hk' as [Ea' Et'].
    rewrite <- Ea, <- Et, Ea', Et' in Hrow.
    unfold ck, SyncState.lookup in Hrow. now rewrite Hr in Hrow.
  - intros ty fuel account w w' n c. apply sync_type_success.
  - intros cs w acc ty. apply run_cycles_monotone.
Qed.

(** Two fleet cycles in a row: a backfill, then an incremental sync that
    finds nothing new; the customers watermark goes from none to the
    latest update time and stays there. *)
Lemma checkpoint_watermark_never_decreases_witness :
  let after := run_cycles demo_env [(10, CycleAll); (10, CycleAll)] demo_world in
  stored_checkpoint "realm-ok" CUSTOMER demo_world = None
  /\ stored_checkpoint "realm-ok" CUSTOMER after = Some "2024-03-25T10:00:00-08:00"
  /\ ckpt_le (stored_checkpoint "realm-ok" CUSTOMER demo_world)
             (stored_checkpoint "realm-ok" CUSTOMER after).
Proof.
  split; [reflexivity|]. split; [vm_compute; reflexivity|].
  apply (proj2 (proj2 (proj2 (checkpoint_watermark_never_decreases demo_env)))).
Defined.

(** ** Failure of one object type's sync *)

Section Failure.

Context (E : Env).

(** The row of a sync state after [mark_started] and then [mark_failed]
    on the object [get_or_create] returned. *)
Lemma failed_row ty acc t1 t2 t3 msg tbl :
  let s := fst (SyncState.get_or_create t1 acc ty tbl) in
  let tbl2 := snd (SyncState.get_or_create t1 acc ty tbl) in
  let s1 := fst (SyncState.mark_started t2 s tbl2) in
  let tbl3 := snd (SyncState.mark_started t2 s tbl2) in
  exists r,
    SyncState.lookup acc ty (snd (SyncState.mark_failed t3 s1 msg tbl3)) = Some r
    /\ SyncState.status r = FAILED
    /\ SyncState.error_message r = Some msg
    /\ SyncState.consecutive_failures r = (SyncState.consecutive_failures s + 1)%Z
    /\ SyncState.checkpoint r = SyncState.checkpoint s
    /\ SyncState.last_successful_sync_time r = SyncState.last_successful_sync_time s.
Proof.
  intros s tbl2 s1 tbl3.
  pose proof (SyncState_get_or_create_spec t1 acc ty tbl) as (Hlook & Hacc & Hty & _).
  fold s tbl2 in Hlook, Hacc, Hty.
  pose proof (SyncState_has_key_lookup _ _ _ _ Hlook) as Hk.
  unfold SyncState.mark_failed. cbn [snd].
  rewrite SyncState_lookup_save. unfold tbl3, SyncState.mark_started. cbn [snd].
  rewrite SyncState_lookup_save, Hlook. cbn [option_map].
  unfold s1, SyncState.mark_started. cbn [fst SyncState.account SyncState.object_type].
  rewrite Hacc, Hty, Hk.
  replace (SyncState.has_key acc ty (SyncState.write_columns _ _ s)) with true
    by (symmetry; exact Hk).
  eexists. split; [reflexivity|]. repeat split.
Qed.

(** C2 as the code has it.  An exception raised by [ensure_token_valid]
    (step 3) leaves [sync_customers]/[sync_invoices] at once: the sync
    state is neither loaded nor marked.  Once [ensure_token_valid] has
    returned, every exception that escapes the batch iteration and the
    per-batch upserts (steps 4 and 5) is re-raised only after
    [mark_failed(str(e))]: the stored row is then [failed], carries the
    message, has one more consecutive failure, and keeps its checkpoint. *)
Theorem sync_failure_is_marked_after_token_check ty fuel account w :
  (forall w1 e,
     ensure_token_valid E w = (w1, Raise e) ->
     sync_type E ty fuel account w = (w1, Raise e)
     /\ sync_states w1 = sync_states w)
  /\
  (forall w1 w' e,
     ensure_token_valid E w = (w1, Ret tt) ->
     sync_type E ty fuel account w = (w', Raise e) ->
     exists r,
       SyncState.lookup (QBOAccount.realm_id account) ty (sync_states w') = Some r
       /\ SyncState.status r = FAILED
       /\ SyncState.error_message r = Some (exn_str e)
       /\ SyncState.consecutive_failures r =
          (SyncState.consecutive_failures
             (fst (SyncState.get_or_create (clock E (trace w1))
                     (QBOAccount.realm_id account) ty (sync_states w1))) + 1)%Z
       /\ SyncState.checkpoint r =
          ck (QBOAccount.realm_id account) ty (sync_states w1)).
Proof.
  split.
  - intros w1 e He. unfold sync_type, bind at 1. rewrite He. split; [reflexivity|].
    pose proof (fr_ensure_token_valid E same_sync_states w) as H. now rewrite He in H.
  - intros w1 w' e He. unfold sync_type.
    set (acc := QBOAccount.realm_id account).
    unfold bind at 1. rewrite He.
    unfold bind at 1. rewrite on_sync_states_run.
    unfold bind at 1. rewrite on_sync_states_run.
    cbn [sync_states with_sync_states trace].
    set (t1 := clock E (trace w1)).
    set (s := fst (SyncState.get_or_create t1 acc ty (sync_states w1))).
    set (tbl2 := snd (SyncState.get_or_create t1 acc ty (sync_states w1))).
    set (s1 := fst (SyncState.mark_started t1 s tbl2)).
    set (tbl3 := snd (SyncState.mark_started t1 s tbl2)).
    set (w3 := with_sync_states (with_sync_states w1 tbl2) tbl3).
    unfold try_except, bind at 1.
    pose proof (fr_batches E same_sync_states ty acc fuel
                  (get_all_generator ty (SyncState.checkpoint s))
                  (0, SyncState.checkpoint s) w3) as H4.
    destruct (for_batches E fuel _ _ _ w3) as [w4 [st|e0|]]; simpl in H4.
    + unfold bind. rewrite on_sync_states_run. discriminate.
    + unfold bind. rewrite on_sync_states_run. intros [= <- <-].
      cbn [sync_states with_sync_states]. rewrite H4.
      change (sync_states w3) with tbl3.
      destruct (failed_row ty acc t1 t1 (clock E (trace w4)) (exn_str e0)
                  (sync_states w1)) as (r & Hr & Hs & Hm & Hn & Hc & _).
      exists r. fold s tbl2 s1 tbl3 in Hr, Hn, Hc. repeat split; auto.
      rewrite Hc.
      now destruct (SyncState_get_or_create_spec t1 acc ty (sync_states w1))
        as (_ & _ & _ & Hck & _).
    + discriminate.
Qed.

End Failure.

(** C2, as stated, fails on step 3: the identity provider rejects the
    refresh token, [sync_customers] raises [InvalidGrantError], and the
    sync state is still [pending], without message and without a counted
    failure: [mark_failed] was not called. *)
Lemma token_failure_is_not_marked_failed :
  let account := demo_account "realm-bad" "rt-revoked" false in
  let r := sync_customers demo_env 10 account (demo_world_for account) in
  snd r = Raise (mkExn InvalidGrantError "Refresh token invalid: Token revoked")
  /\ SyncState.lookup "realm-bad" CUSTOMER (sync_states (fst r))
     = Some (demo_pending "realm-bad" CUSTOMER)
  /\ SyncState.status (demo_pending "realm-bad" CUSTOMER) <> FAILED.
Proof. split; [vm_compute; reflexivity | split; [vm_compute; reflexivity | discriminate]]. Qed.

(** During an outage of the API the customers sync of the account in good
    standing fails in step 4, and the failure is recorded. *)
Lemma sync_failure_is_marked_witness :
  exists r,
    SyncState.lookup "realm-ok" CUSTOMER
      (sync_states
         (fst (sync_customers outage_env 10 (demo_account "realm-ok" "rt-good" false)
                 (demo_world_for (demo_account "realm-ok" "rt-good" false))))) = Some r
    /\ SyncState.status r = FAILED
    /\ SyncState.error_message r = Some "Server error (503): Service Unavailable".
Proof.
  pose (account := demo_account "realm-ok" "rt-good" false).
  destruct (proj2 (sync_failure_is_marked_after_token_check outage_env CUSTOMER 10
                     account (demo_world_for account))
              (fst (ensure_token_valid outage_env (demo_world_for account)))
              (fst (sync_customers outage_env 10 account (demo_world_for account)))
              (mkExn ServerError "Server error (503): Service Unavailable")
              ltac:(vm_compute; reflexivity) ltac:(vm_compute; reflexivity))
    as (r & Hr & Hs & Hm & _).
  exists r. auto.
Defined.

(** ** Frames of the whole engine *)

Section EngineFrames.

Context (E : Env) (R : world -> world -> Prop) {F : EngineFrame R}.

Lemma ef_on_sync_states f : maintains R (on_sync_states E f).
Proof. intros w. apply engine_sync_states. Qed.

Lemma ef_revoke account : maintains R (revoke account).
Proof. intros w. apply engine_account_column. reflexivity. Qed.

Lemma ef_new_client c : maintains R (modify (fun w => with_client w c)).
Proof. intros w. apply frame_client. Qed.

Ltac ef_leaf :=
  first [ apply ef_on_sync_states | apply ef_revoke | apply ef_new_client
        | apply fr_ensure_token_valid; exact _
        | apply fr_batches; exact _ ].

Lemma ef_sync_type ty fuel account : maintains R (sync_type E ty fuel account).
Proof. unfold sync_type. mwalk ef_leaf. Qed.

Lemma ef_sync_object_type fuel account config :
  maintains R (_sync_object_type E fuel account config).
Proof.
  unfold _sync_object_type. destruct config as [name []]; simpl;
    unfold sync_customers, sync_invoices;
    (mstep maintains_try_except;
     [ mstep maintains_bind; [apply ef_sync_type | intros; mwalk ef_leaf]
     | intros; mwalk ef_leaf ]).
Qed.

Lemma ef_sync_configs fuel account cfgs d :
  maintains R (sync_configs E fuel account cfgs d).
Proof.
  unfold sync_configs. mstep maintains_for_each. intros.
  mstep maintains_bind; [apply ef_sync_object_type | intros; mwalk ef_leaf].
Qed.

Lemma ef_sync_account fuel realm_id : maintains R (sync_account E fuel realm_id).
Proof.
  unfold sync_account.
  mstep maintains_try_except; [|intros e; mwalk ef_leaf].
  mstep maintains_bind; [mstep maintains_get|]. intros w0.
  destruct (QBOAccount.first_by_realm _ _); [|mwalk ef_leaf].
  destruct (QBOAccount.is_token_expired _); [mwalk ef_leaf|].
  mstep maintains_bind; [mwalk ef_leaf|]. intros _.
  mstep maintains_bind; [apply ef_sync_configs | intros; mwalk ef_leaf].
Qed.

Lemma ef_sync_all_accounts fuel : maintains R (sync_all_accounts E fuel).
Proof.
  unfold sync_all_accounts.
  mstep maintains_bind; [mstep maintains_get|]. intros w0.
  unfold fleet_loop. mstep maintains_for_each. intros results account.
  mstep maintains_try_except; [|intros e; mwalk ef_leaf].
  mstep maintains_bind; [apply ef_sync_account | intros; mwalk ef_leaf].
Qed.

End EngineFrames.

(** ** Account rows are never added, removed or renamed *)

Lemma QBOAccount_save_realms f rid tbl :
  (forall a, QBOAccount.realm_id (f a) = QBOAccount.realm_id a) ->
  map QBOAccount.realm_id (QBOAccount.save f rid tbl) = map QBOAccount.realm_id tbl.
Proof.
  intros H. unfold QBOAccount.save. rewrite map_map. apply map_ext.
  intros a. destruct (String.eqb _ _); auto.
Qed.

#[local] Instance same_realms_frame : Frame same_realms.
Proof.
  split; try (intros; reflexivity).
  - split; unfold same_realms; [intros w; reflexivity | intros a b c; congruence].
  - intros. unfold same_realms. simpl. now apply QBOAccount_save_realms.
Qed.

#[local] Instance same_realms_engine_frame : EngineFrame same_realms.
Proof.
  split; [exact _ | intros; reflexivity |].
  intros. unfold same_realms. simpl. now apply QBOAccount_save_realms.
Qed.

Lemma first_by_realm_same_realms rid tbl : forall tbl' a,
  map QBOAccount.realm_id tbl' = map QBOAccount.realm_id tbl ->
  QBOAccount.first_by_realm rid tbl = Some a ->
  exists a', QBOAccount.first_by_realm rid tbl' = Some a'.
Proof.
  unfold QBOAccount.first_by_realm.
  induction tbl as [|x tbl IH]; intros [|y tbl'] a Hm Hf; simpl in *; try discriminate.
  injection Hm as Hy Hm. rewrite Hy.
  destruct (String.eqb (QBOAccount.realm_id x) rid); eauto.
Qed.

Lemma first_by_realm_realm rid tbl a :
  QBOAccount.first_by_realm rid tbl = Some a -> QBOAccount.realm_id a = rid.
Proof.
  intros H. apply find_some in H. destruct H as [_ H]. now apply String.eqb_eq.
Qed.

Lemma first_by_realm_save f rid tbl :
  (forall a, QBOAccount.realm_id (f a) = QBOAccount.realm_id a) ->
  QBOAccount.first_by_realm rid (QBOAccount.save f rid tbl)
    = option_map f (QBOAccount.first_by_realm rid tbl).
Proof.
  intros H. unfold QBOAccount.first_by_realm, QBOAccount.save.
  induction tbl as [|x tbl IH]; simpl; auto.
  destruct (String.eqb (QBOAccount.realm_id x) rid) eqn:Hx.
  - rewrite H, Hx. reflexivity.
  - rewrite Hx. exact IH.
Qed.

(** ** Revocation *)

Lemma for_each_app {A S} (body : S -> A -> M world S) pre post s w :
  for_each body (pre ++ post)%list s w =
    match for_each body pre s w with
    | (w1, Ret s1) => for_each body post s1 w1
    | r => r
    end.
Proof.
  revert s w. induction pre as [|x pre IH]; intros s w; simpl; auto.
  unfold bind. destruct (body s x w) as [w1 [s1|e|]]; auto.
Qed.

Section Revoked.

Context (E : Env).

Lemma sync_object_type_invalid_grant fuel account config w w1 e :
  getattr_sync E (snd config) fuel account w = (w1, Raise e) ->
  isinstance e InvalidGrantError = true ->
  _sync_object_type E fuel account config w
    = (fst (revoke account w1), Raise revoked_error).
Proof.
  intros Hrun He. unfold _sync_object_type, try_except, bind at 1.
  rewrite Hrun, He. reflexivity.
Qed.

(** C3.  An account whose revoked flag is set is refused by
    [sync_account] with the revoked error before a client exists and with
    the world, hence the log of calls, untouched.  When the sync of an
    object type raises [InvalidGrantError], [_sync_object_type] sets and
    stores the flag and raises the revoked error; [sync_account] then ends
    with that error in the world the failing sync left, plus the flag:
    nothing is logged after it, so the object types later in
    [SYNC_CONFIG] are not attempted, and the stored account is flagged. *)
Theorem revoked_account_gets_no_api_call fuel :
  (forall realm w account,
     QBOAccount.first_by_realm realm (accounts w) = Some account ->
     QBOAccount.is_token_expired account = true ->
     sync_account E fuel realm w
       = (w, Raise (mkExn RevokedRefreshTokenError "Token has been marked as expired")))
  /\
  (forall account config w w1 e,
     getattr_sync E (snd config) fuel account w = (w1, Raise e) ->
     isinstance e InvalidGrantError = true ->
     _sync_object_type E fuel account config w
       = (fst (revoke account w1), Raise revoked_error))
  /\
  (forall realm w account pre config post d w1 w2 e,
     QBOAccount.first_by_realm realm (accounts w) = Some account ->
     QBOAccount.is_token_expired account = false ->
     SYNC_CONFIG = (pre ++ config :: post)%list ->
     sync_configs E fuel account pre initial_results
       (with_client w (create_client_for_account E account)) = (w1, Ret d) ->
     getattr_sync E (snd config) fuel account w1 = (w2, Raise e) ->
     isinstance e InvalidGrantError = true ->
     sync_account E fuel realm w = (fst (revoke account w2), Raise revoked_error)
     /\ trace (fst (revoke account w2)) = trace w2
     /\ exists a',
          QBOAccount.first_by_realm realm (accounts (fst (revoke account w2))) = Some a'
          /\ QBOAccount.is_token_expired a' = true).
Proof.
  split; [|split].
  - intros realm w account Hfind Hflag.
    unfold sync_account, try_except, bind, get. rewrite Hfind, Hflag. reflexivity.
  - intros account config w w1 e H1 H2.
    now apply (sync_object_type_invalid_grant fuel account config w w1 e).
  - intros realm w account pre config post d w1 w2 e Hfind Hflag Hcfg Hpre Hrun He.
    split; [|split].
    + unfold sync_account, try_except at 1, bind at 1, get. rewrite Hfind, Hflag.
      unfold bind at 1, try_except at 1, modify.
      unfold bind at 1. rewrite Hcfg. unfold sync_configs in *.
      rewrite for_each_app, Hpre. cbn [for_each]. unfold bind at 1, bind at 1.
      fold (_sync_object_type E fuel account config).
      rewrite (sync_object_type_invalid_grant _ _ _ _ _ _ Hrun He). reflexivity.
    + reflexivity.
    + pose proof (first_by_realm_realm _ _ _ Hfind) as Hrid.
      assert (same_realms w w2) as Hsame.
      { transitivity (with_client w (create_client_for_account E account));
          [reflexivity|].
        transitivity w1.
        - pose proof (ef_sync_configs E same_realms fuel account pre initial_results
                        (with_client w (create_client_for_account E account))) as H.
          now rewrite Hpre in H.
        - destruct config as [name m].
          pose proof (ef_sync_type E same_realms
                        (match m with m_sync_customers => CUSTOMER
                                    | m_sync_invoices => INVOICE end)
                        fuel account w1) as H.
          destruct m; simpl in Hrun; unfold sync_customers, sync_invoices in Hrun;
            now rewrite Hrun in H. }
      destruct (first_by_realm_same_realms realm (accounts w) (accounts w2) account
                  Hsame Hfind) as [a2 Ha2].
      unfold revoke, modify. cbn [fst accounts with_accounts].
      rewrite Hrid, first_by_realm_save, Ha2 by reflexivity.
      eexists. split; reflexivity.
Qed.

End Revoked.

(** The identity provider rejects the refresh token during the customers
    sync: the account ends flagged, the revoked error is raised, and the
    only call ever made is that one token request; the invoices are not
    queried.  A second [sync_account] then changes nothing at all. *)
Lemma revoked_account_gets_no_api_call_witness :
  let run := sync_account demo_env 10 "realm-bad" demo_world in
  snd run = Raise revoked_error
  /\ trace (fst run) = [EvTokenPost "rt-revoked"]
  /\ option_map QBOAccount.is_token_expired
       (QBOAccount.first_by_realm "realm-bad" (accounts (fst run))) = Some true
  /\ sync_account demo_env 10 "realm-bad" (fst run)
     = (fst run,
        Raise (mkExn RevokedRefreshTokenError "Token has been marked as expired")).
Proof.
  pose (account := demo_account "realm-bad" "rt-revoked" false).
  pose (w1 := with_client demo_world (create_client_for_account demo_env account)).
  destruct (proj2 (proj2 (revoked_account_gets_no_api_call demo_env 10))
              "realm-bad" demo_world account []
              ("customers", m_sync_customers) [("invoices", m_sync_invoices)]
              initial_results w1 (fst (sync_customers demo_env 10 account w1))
              (mkExn InvalidGrantError "Refresh token invalid: Token revoked")
              eq_refl eq_refl eq_refl eq_refl
              ltac:(vm_compute; reflexivity) eq_refl)
    as (Hrun & Htrace & a' & Hfind & Hflag).
  cbv zeta. rewrite Hrun. cbn [fst snd].
  split; [reflexivity|]. split; [vm_compute; reflexivity|].
  split; [now rewrite Hfind; simpl; rewrite Hflag|].
  apply (proj1 (revoked_account_gets_no_api_call demo_env 10) "realm-bad" _ a' Hfind Hflag).
Defined.

(** ** Termination *)

Lemma terminates_ret {A} (a : A) : terminates (ret a).
Proof. intros w. discriminate. Qed.

Lemma terminates_raise {A} e : terminates (@raise world A e).
Proof. intros w. discriminate. Qed.

Lemma terminates_get : terminates get.
Proof. intros w. discriminate. Qed.

Lemma terminates_modify f : terminates (modify f).
Proof. intros w. discriminate. Qed.

Lemma terminates_lift {A} (r : res A) : r <> Diverge -> terminates (lift r).
Proof. intros H w. exact H. Qed.

Lemma terminates_bind {A B} (m : M world A) (k : A -> M world B) :
  terminates m -> (forall a, terminates (k a)) -> terminates (bind m k).
Proof.
  intros Hm Hk w. unfold bind. specialize (Hm w).
  destruct (m w) as [w1 [a|e|]]; simpl in *; [apply Hk | discriminate | now contradiction Hm].
Qed.

Lemma terminates_try_except {A} (m : M world A) (h : exn -> M world A) :
  terminates m -> (forall e, terminates (h e)) -> terminates (try_except m h).
Proof.
  intros Hm Hh w. unfold try_except. specialize (Hm w).
  destruct (m w) as [w1 [a|e|]]; simpl in *; [discriminate | apply Hh | now contradiction Hm].
Qed.

Lemma terminates_for_each {A S} (body : S -> A -> M world S) l :
  (forall s x, terminates (body s x)) -> forall s, terminates (for_each body l s).
Proof.
  intros Hb. induction l as [|x l IH]; intros s; simpl.
  - apply terminates_ret.
  - apply terminates_bind; auto.
Qed.

Lemma terminates_atomic {A} (m : M world A) : terminates m -> terminates (atomic m).
Proof.
  intros Hm w. unfold atomic. specialize (Hm w).
  destruct (m w) as [w1 [a|e|]]; simpl in *; [discriminate | discriminate | now contradiction Hm].
Qed.

Lemma get_headers_ends self : _get_headers self <> Diverge.
Proof.
  unfold _get_headers. destruct (api_access_token self); [|discriminate].
  destruct (String.eqb _ _); discriminate.
Qed.

Lemma build_url_ends self endpoint : _build_url self endpoint <> Diverge.
Proof.
  unfold _build_url. destruct (api_server_url self); [|discriminate].
  destruct (String.eqb _ _); discriminate.
Qed.

Lemma handle_response_ends E r : _handle_response E r <> Diverge.
Proof.
  unfold _handle_response.
  repeat match goal with
         | |- context [if ?b then _ else _] => destruct b
         | |- context [match json r with _ => _ end] => destruct (json r)
         | |- context [match error_detail E r with _ => _ end] =>
             destruct (error_detail E r)
         end; discriminate.
Qed.

(** A response is returned as a result only when it is a 200 with a JSON
    body. *)
Lemma handle_response_ok E r j :
  _handle_response E r = Ret j -> status_code r = 200%Z /\ json r = Some j.
Proof.
  unfold _handle_response. destruct (status_code r =? 200)%Z eqn:Hs.
  - apply Z.eqb_eq in Hs. destruct (json r); [|discriminate]. intros [= <-]. auto.
  - destruct (error_detail E r); [|discriminate].
    repeat match goal with
           | |- context [if ?b then _ else _] => destruct b
           end; discriminate.
Qed.

Lemma terminates_lift_sum {A} (r : A + exn) : terminates (lift_sum r).
Proof. intros w. destruct r; discriminate. Qed.

Ltac twalk leaf :=
  repeat first
    [ leaf
    | apply terminates_ret | apply terminates_raise
    | apply terminates_get | apply terminates_modify
    | apply terminates_lift_sum
    | apply terminates_lift;
      first [ apply get_headers_ends | apply build_url_ends
            | apply handle_response_ends ]
    | apply terminates_bind; [ | intros ? ]
    | apply terminates_try_except; [ | intros ? ]
    | progress cbv zeta
    | match goal with
      | |- terminates (match ?x with _ => _ end) => destruct x
      end ].

Section Termination.

Context (E : Env).

Lemma terminates_now : terminates (now E).
Proof. intros w. discriminate. Qed.

Lemma terminates_on_token_refresh pk a rt exp : terminates (on_token_refresh pk a rt exp).
Proof.
  intros w. unfold on_token_refresh.
  destruct (QBOAccount.first_by_realm _ _); discriminate.
Qed.

Lemma terminates_subscript {A} key (v : option A) : terminates (subscript key v).
Proof. destruct v; intros w; discriminate. Qed.

Lemma terminates_Customer_upsert acc qid raw tok lut :
  terminates (Customer_upsert acc qid raw tok lut).
Proof.
  intros w. unfold Customer_upsert. destruct (Customer.upsert _ _ _ _ _ _); discriminate.
Qed.

Lemma terminates_Invoice_upsert acc qid raw cref tok lut :
  terminates (Invoice_upsert acc qid raw cref tok lut).
Proof.
  intros w. unfold Invoice_upsert. destruct (Invoice.upsert _ _ _ _ _ _ _); discriminate.
Qed.

Lemma terminates_on_sync_states f : terminates (on_sync_states E f).
Proof. intros w. discriminate. Qed.

Ltac t_leaf :=
  first [ apply terminates_now | apply terminates_on_token_refresh
        | apply terminates_subscript | apply terminates_Customer_upsert
        | apply terminates_Invoice_upsert | apply terminates_on_sync_states ].

Lemma terminates_retry_loop self url todo :
  forall attempt last, terminates (retry_loop E self url todo attempt last).
Proof.
  induction todo as [|todo IH]; intros attempt last; simpl.
  - twalk t_leaf.
  - apply terminates_try_except.
    + unfold attempt_request, http_get. twalk t_leaf.
    + intros e. twalk t_leaf; apply IH.
Qed.

Lemma terminates_fetch_page g pos : terminates (fetch_page E g pos).
Proof. unfold fetch_page, _query. twalk t_leaf. apply terminates_retry_loop. Qed.

Lemma terminates_gen_next g : terminates (gen_next E g).
Proof. unfold gen_next. twalk t_leaf; apply terminates_retry_loop. Qed.

Lemma terminates_ensure_token_valid : terminates (ensure_token_valid E).
Proof. unfold ensure_token_valid, _refresh_tokens. twalk t_leaf. Qed.

Lemma terminates_batch ty acc st batch :
  terminates (atomic (for_each (record_body E ty acc) batch st)).
Proof.
  apply terminates_atomic, terminates_for_each. intros s x.
  destruct ty; simpl; unfold customer_body, invoice_body; twalk t_leaf.
Qed.

(** *** The number of queries only grows *)

Lemma gets_snoc t ev : gets t <= gets (t ++ [ev]).
Proof. unfold gets, requests. rewrite flat_map_app, length_app. lia. Qed.

#[local] Instance gets_grow_frame : Frame gets_grow.
Proof.
  split; try (intros; unfold gets_grow; simpl; lia).
  - split; unfold gets_grow; [intros w; lia | intros a b c; lia].
  - intros. apply gets_snoc.
  - intros w w1 H. exact H.
Qed.

(** A query that returns a document was answered, at some point [t] of
    the log not before the call, by a 200 carrying that document, and the
    log has grown by that request at least. *)
Lemma retry_loop_ok self url todo : forall attempt last w w1 j,
  retry_loop E self url todo attempt last w = (w1, Ret j) ->
  exists t bearer r,
    gets (trace w) <= gets t /\ gets t < gets (trace w1)
    /\ query_endpoint E t url bearer = Response r
    /\ status_code r = 200%Z /\ json r = Some j.
Proof.
  induction todo as [|todo IH]; intros attempt last w w1 j; simpl.
  - discriminate.
  - unfold try_except.
    pose proof (fr_attempt_request E gets_grow self url w) as Hgrow.
    destruct (attempt_request E self url w) as [w' [j'|e|]] eqn:Hatt; simpl in Hgrow.
    + intros [= <- <-]. unfold attempt_request, bind, lift in Hatt.
      destruct (_get_headers self) as [bearer| |]; try discriminate.
      unfold http_get, bind, get, log, modify in Hatt. simpl in Hatt.
      destruct (query_endpoint E (trace w) url bearer) as [msg|r] eqn:Hq;
        try discriminate.
      simpl in Hatt. injection Hatt as <- Hj.
      apply handle_response_ok in Hj. destruct Hj as [Hs Hj].
      exists (trace w), bearer, r. simpl. repeat split; auto.
      unfold gets, requests. rewrite flat_map_app, length_app. simpl. lia.
    + assert (forall (m : M world unit) last',
                maintains gets_grow m ->
                (m ;;; retry_loop E self url todo (S attempt) last') w' = (w1, Ret j) ->
                exists t bearer r,
                  gets (trace w) <= gets t /\ gets t < gets (trace w1)
                  /\ query_endpoint E t url bearer = Response r
                  /\ status_code r = 200%Z /\ json r = Some j) as Hgo.
      { intros m last' Hm. unfold bind. specialize (Hm w').
        destruct (m w') as [w'' [[]|e'|]]; simpl in Hm; try discriminate.
        intros H. apply IH in H. destruct H as (t & b & r & H1 & H2).
        exists t, b, r. split; [unfold gets_grow in *; lia | exact H2]. }
      destruct (isinstance e RateLimitError);
        [apply Hgo; apply fr_sleep; exact _|].
      destruct (isinstance e ServerError).
      { apply Hgo. destruct (_ <? _)%Z; [apply fr_sleep; exact _ | mstep maintains_ret]. }
      destruct (_ || _); [discriminate|].
      destruct (isinstance e RequestException); [|discriminate].
      apply Hgo. destruct (_ <? _)%Z; [apply fr_sleep; exact _ | mstep maintains_ret].
    + discriminate.
Qed.

Lemma fetch_page_ok g pos w w1 batch g' :
  fetch_page E g pos w = (w1, Ret (Some batch, g')) ->
  g' = at_state g (Suspended pos (List.length batch))
  /\ exists t url bearer r j,
       gets (trace w) <= gets t /\ gets t < gets (trace w1)
       /\ query_endpoint E t url bearer = Response r
       /\ status_code r = 200%Z /\ json r = Some j
       /\ batch = entities_of j (g_entity_name g).
Proof.
  unfold fetch_page, bind at 1, get. unfold bind at 1, _query, bind at 1, lift.
  destruct (_build_url _ _) as [url| |]; try discriminate.
  unfold _request_with_retry.
  destruct (retry_loop E _ url _ 0 None w) as [w' [j| |]] eqn:Hloop; try discriminate.
  apply retry_loop_ok in Hloop. destruct Hloop as (t & b & r & H1 & H2 & H3 & H4 & H5).
  cbv zeta. destruct (entities_of j (g_entity_name g)) as [|x l] eqn:Hent;
    unfold ret; intros [= <- <- <-].
  split; [reflexivity|]. exists t, url, b, r, j. repeat split; auto.
Qed.

Lemma for_batches_terminates {S} N (body : S -> list Entity -> M world S) :
  bounded_pages E N ->
  (forall s b, maintains gets_grow (body s b)) ->
  (forall s b, terminates (body s b)) ->
  forall fuel g s w,
    g_page_size g = DEFAULT_PAGE_SIZE ->
    pages_left N g w <= fuel ->
    snd (for_batches E fuel body g s w) <> Diverge.
Proof.
  intros Hb Hgrow Hend. induction fuel as [|fuel IH]; intros g s w Hsize Hfuel.
  - unfold pages_left in Hfuel. destruct (g_state g) as [|p n|];
      try destruct (_ <? _)%N; lia.
  - cbn [for_batches].
    assert (forall pos, pages_left N g w = N - gets (trace w) + 2 ->
              snd ((r <- fetch_page E g pos ;;
                    match r with
                    | (None, _) => ret s
                    | (Some batch, g') =>
                        s' <- body s batch ;; for_batches E fuel body g' s'
                    end) w) <> Diverge) as Hfetch.
    { intros pos Hpot. unfold bind at 1.
      pose proof (terminates_fetch_page g pos w) as Hterm.
      destruct (fetch_page E g pos w) as [w1 [[[batch|] g']|e|]] eqn:Hf;
        simpl in Hterm; try discriminate; try contradiction.
      apply fetch_page_ok in Hf.
      destruct Hf as (-> & t & url & b & r & j & H1 & H2 & H3 & H4 & H5 & ->).
      unfold bind. specialize (Hgrow s (entities_of j (g_entity_name g)) w1).
      specialize (Hend s (entities_of j (g_entity_name g)) w1).
      destruct (body s _ w1) as [w2 [s'|e|]]; simpl in *; try discriminate;
        try contradiction.
      apply IH; [exact Hsize|].
      unfold pages_left. cbn [g_state at_state g_page_size].
      destruct (_ <? _)%N eqn:Hshort; [lia|].
      assert (gets t < N) as Hlt.
      { destruct (Nat.lt_ge_cases (gets t) N) as [|Hge]; auto.
        pose proof (Hb t url b r j (g_entity_name g) Hge H3 H4 H5) as Hs.
        rewrite Hsize in Hshort. apply N.ltb_ge in Hshort. lia. }
      unfold gets_grow in Hgrow. lia. }
    unfold gen_next. unfold pages_left in Hfuel, Hfetch.
    destruct (g_state g) as [|p n|].
    + apply Hfetch. reflexivity.
    + destruct (_ <? _)%N; [discriminate | apply Hfetch; reflexivity].
    + discriminate.
Qed.

(** The two syncs end whenever the remote system serves finitely many
    full pages and the bound on iterations exceeds their number. *)
Lemma sync_type_terminates N ty fuel account :
  bounded_pages E N -> N + 2 <= fuel -> terminates (sync_type E ty fuel account).
Proof.
  intros Hb Hfuel. unfold sync_type.
  apply terminates_bind; [apply terminates_ensure_token_valid|]. intros _.
  apply terminates_bind; [apply terminates_on_sync_states|]. intros s.
  apply terminates_bind; [apply terminates_on_sync_states|]. intros s1.
  apply terminates_try_except; [|intros e; twalk t_leaf].
  apply terminates_bind; [|intros st; twalk t_leaf].
  intros w. apply (for_batches_terminates N); auto.
  - intros. apply fr_batch. exact _.
  - intros. apply terminates_batch.
  - unfold pages_left. simpl. lia.
Qed.

Lemma sync_account_terminates N fuel realm :
  bounded_pages E N -> N + 2 <= fuel -> terminates (sync_account E fuel realm).
Proof.
  intros Hb Hfuel. unfold sync_account.
  apply terminates_try_except; [|intros e; twalk t_leaf].
  apply terminates_bind; [apply terminates_get|]. intros w0.
  destruct (QBOAccount.first_by_realm _ _); [|twalk t_leaf].
  destruct (QBOAccount.is_token_expired _); [twalk t_leaf|].
  apply terminates_bind; [twalk t_leaf|]. intros _.
  apply terminates_bind; [|intros; twalk t_leaf].
  unfold sync_configs. apply terminates_for_each. intros d [name m].
  apply terminates_bind; [|intros; twalk t_leaf].
  unfold _sync_object_type. apply terminates_try_except; [|intros e; twalk t_leaf].
  apply terminates_bind; [|intros; twalk t_leaf].
  destruct m; simpl; now apply (sync_type_terminates N).
Qed.

Lemma fleet_loop_terminates N fuel l results :
  bounded_pages E N -> N + 2 <= fuel -> terminates (fleet_loop E fuel l results).
Proof.
  intros Hb Hfuel. unfold fleet_loop. apply terminates_for_each. intros s x.
  apply terminates_try_except; [|intros e; twalk t_leaf].
  apply terminates_bind; [now apply (sync_account_terminates N) | intros; twalk t_leaf].
Qed.

End Termination.

(** ** The fleet loop *)

Lemma never_raises_ret {A} (a : A) : never_raises (ret a).
Proof. intros w e. discriminate. Qed.

Lemma never_raises_bind {A B} (m : M world A) (k : A -> M world B) :
  never_raises m -> (forall a, never_raises (k a)) -> never_raises (bind m k).
Proof.
  intros Hm Hk w e. unfold bind. specialize (Hm w).
  destruct (m w) as [w1 [a|e1|]]; simpl in *.
  - apply Hk.
  - exfalso. now apply (Hm e1).
  - discriminate.
Qed.

Lemma never_raises_try_except {A} (m : M world A) (h : exn -> M world A) :
  (forall e, never_raises (h e)) -> never_raises (try_except m h).
Proof.
  intros Hh w e. unfold try_except.
  destruct (m w) as [w1 [a|e1|]]; simpl; try discriminate. apply Hh.
Qed.

Lemma never_raises_for_each {A S} (body : S -> A -> M world S) l :
  (forall s x, never_raises (body s x)) -> forall s, never_raises (for_each body l s).
Proof.
  intros Hb. induction l as [|x l IH]; intros s; simpl.
  - apply never_raises_ret.
  - apply never_raises_bind; auto.
Qed.

Lemma yields_ret {A} (Q : A -> Prop) (a : A) : Q a -> yields Q (ret a).
Proof. intros H w b [= <-]. exact H. Qed.

Lemma yields_raise {A} (Q : A -> Prop) e : yields Q (@raise world A e).
Proof. intros w b. discriminate. Qed.

Lemma yields_try_except {A} (Q : A -> Prop) (m : M world A) (h : exn -> M world A) :
  yields Q m -> (forall e, yields Q (h e)) -> yields Q (try_except m h).
Proof.
  intros Hm Hh w a. unfold try_except. specialize (Hm w a).
  destruct (m w) as [w1 [x|e|]]; simpl in *; auto. apply Hh.
Qed.

Section Fleet.

Context (E : Env).

Lemma sync_all_accounts_loop fuel w :
  sync_all_accounts E fuel w
    = fleet_loop E fuel (QBOAccount.get_active_accounts (accounts w)) [] w.
Proof. reflexivity. Qed.

(** One turn of the loop: whatever [sync_account] does, short of running
    on, a record is appended and the loop goes on from the world it left. *)
Lemma fleet_loop_step fuel account l results w :
  fleet_loop E fuel (account :: l) results w =
    match outcome_record (QBOAccount.realm_id account)
            (snd (sync_account E fuel (QBOAccount.realm_id account) w)) with
    | Some record =>
        fleet_loop E fuel l (results ++ [record])%list
          (fst (sync_account E fuel (QBOAccount.realm_id account) w))
    | None => (fst (sync_account E fuel (QBOAccount.realm_id account) w), Diverge)
    end.
Proof.
  unfold fleet_loop. cbn [for_each]. unfold bind at 1, try_except, bind at 1.
  destruct (sync_account E fuel (QBOAccount.realm_id account) w) as [w1 [r|e|]];
    cbn [fst snd outcome_record]; try reflexivity.
  destruct (isinstance e RevokedRefreshTokenError); reflexivity.
Qed.

Lemma fleet_loop_never_raises fuel l results : never_raises (fleet_loop E fuel l results).
Proof.
  unfold fleet_loop. apply never_raises_for_each. intros s x.
  apply never_raises_try_except. intros e.
  destruct (isinstance e RevokedRefreshTokenError); apply never_raises_ret.
Qed.

Lemma sync_account_realm fuel rid :
  yields (fun r => a_realm_id r = rid) (sync_account E fuel rid).
Proof.
  unfold sync_account. apply yields_try_except.
  - apply yields_bind. intros w0.
    destruct (QBOAccount.first_by_realm _ _); [|apply yields_raise].
    destruct (QBOAccount.is_token_expired _); [apply yields_raise|].
    apply yields_bind. intros _. apply yields_bind. intros types.
    now apply yields_ret.
  - intros e. destruct (_ || _); apply yields_raise.
Qed.

Lemma fleet_loop_realms fuel l : forall results w results',
  snd (fleet_loop E fuel l results w) = Ret results' ->
  map a_realm_id results'
    = (map a_realm_id results ++ map QBOAccount.realm_id l)%list.
Proof.
  induction l as [|account l IH]; intros results w results'.
  - intros [= <-]. simpl. now rewrite app_nil_r.
  - rewrite fleet_loop_step.
    pose proof (sync_account_realm fuel (QBOAccount.realm_id account) w) as Hrid.
    destruct (sync_account E fuel (QBOAccount.realm_id account) w) as [w1 [r|e|]];
      cbn [fst snd outcome_record] in *; try discriminate.
    + intros H. rewrite (IH _ _ _ H), map_app, <- app_assoc. simpl.
      now rewrite (Hrid r eq_refl).
    + intros H. rewrite (IH _ _ _ H), map_app, <- app_assoc. simpl.
      now destruct (isinstance e RevokedRefreshTokenError).
Qed.

Lemma get_active_accounts_spec tbl a :
  In a (QBOAccount.get_active_accounts tbl) <->
  In a tbl /\ QBOAccount.is_token_expired a = false
  /\ QBOAccount.refresh_token a <> "".
Proof.
  unfold QBOAccount.get_active_accounts. rewrite !filter_In.
  rewrite andb_true_r, !negb_true_iff, String.eqb_neq. tauto.
Qed.

End Fleet.

(** C7.  [sync_all_accounts] never raises.  It iterates exactly the
    accounts that are not flagged and have a non-empty refresh token,
    calls [sync_account] for each in turn and turns whatever it raises
    into a record, going on with the next account from the world the call
    left; when it returns there is one record per iterated account, in
    order; and it does return whenever the remote system serves finitely
    many full pages. *)
Theorem sync_all_accounts_isolates_failures (E : Env) (fuel : nat) (w : world) :
  (forall e, snd (sync_all_accounts E fuel w) <> Raise e)
  /\ sync_all_accounts E fuel w
       = fleet_loop E fuel (QBOAccount.get_active_accounts (accounts w)) [] w
  /\ (forall a,
        In a (QBOAccount.get_active_accounts (accounts w)) <->
        In a (accounts w) /\ QBOAccount.is_token_expired a = false
        /\ QBOAccount.refresh_token a <> "")
  /\ (forall account l results w1,
        fleet_loop E fuel (account :: l) results w1 =
          match outcome_record (QBOAccount.realm_id account)
                  (snd (sync_account E fuel (QBOAccount.realm_id account) w1)) with
          | Some record =>
              fleet_loop E fuel l (results ++ [record])%list
                (fst (sync_account E fuel (QBOAccount.realm_id account) w1))
          | None =>
              (fst (sync_account E fuel (QBOAccount.realm_id account) w1), Diverge)
          end)
  /\ (forall results,
        snd (sync_all_accounts E fuel w) = Ret results ->
        map a_realm_id results
          = map QBOAccount.realm_id (QBOAccount.get_active_accounts (accounts w)))
  /\ (forall N,
        bounded_pages E N -> N + 2 <= fuel ->
        exists results, snd (sync_all_accounts E fuel w) = Ret results).
Proof.
  split; [|split; [|split; [|split; [|split]]]].
  - intros e. rewrite sync_all_accounts_loop. apply fleet_loop_never_raises.
  - apply sync_all_accounts_loop.
  - intros a. apply get_active_accounts_spec.
  - intros. apply fleet_loop_step.
  - intros results. rewrite sync_all_accounts_loop. intros H.
    now rewrite (fleet_loop_realms E fuel _ _ _ _ H).
  - intros N Hb Hfuel. rewrite sync_all_accounts_loop.
    pose proof (fleet_loop_never_raises E fuel
                  (QBOAccount.get_active_accounts (accounts w)) [] w) as Hraise.
    pose proof (fleet_loop_terminates E N fuel
                  (QBOAccount.get_active_accounts (accounts w)) [] Hb Hfuel w) as Hend.
    destruct (fleet_loop E fuel _ [] w) as [w' [results|e|]]; simpl in *.
    + now exists results.
    + exfalso. now apply (Hraise e).
    + contradiction.
Qed.

(** Four stored accounts, two of them active; the first one's refresh
    token is rejected, and the second one is synced all the same. *)
Lemma sync_all_accounts_isolates_failures_witness :
  exists results,
    snd (sync_all_accounts demo_env 10 demo_world) = Ret results
    /\ map a_realm_id results = ["realm-bad"; "realm-ok"]
    /\ map a_success results = [false; true].
Proof.
  destruct (sync_all_accounts demo_env 10 demo_world) as [w' r] eqn:Hrun.
  assert (exists results, r = Ret results /\ map a_success results = [false; true])
    as (results & -> & Hs).
  { assert (r = snd (sync_all_accounts demo_env 10 demo_world)) as ->
      by (now rewrite Hrun).
    vm_compute. eexists. split; reflexivity. }
  exists results. split; [reflexivity|]. split; [|exact Hs].
  pose proof (proj1 (proj2 (proj2 (proj2 (proj2
                (sync_all_accounts_isolates_failures demo_env 10 demo_world)))))
                results) as H.
  rewrite Hrun in H. exact (H eq_refl).
Defined.

(** ** One record of a batch *)

Section Records.

Context (E : Env).

Lemma parse_falsy o : truthy o = false -> _parse_last_updated_time E o = None.
Proof.
  destruct o as [s|]; simpl; auto. destruct (String.eqb s ""); simpl; congruence.
Qed.

Lemma update_checkpoint_falsy cur o : truthy o = false -> _update_checkpoint cur o = cur.
Proof.
  destruct o as [s|]; simpl; auto. destruct (String.eqb s ""); simpl; congruence.
Qed.

Lemma update_checkpoint_string cur s :
  s <> "" ->
  _update_checkpoint cur (Some s)
    = if truthy cur && negb (str_gt s (wm cur)) then cur else Some s.
Proof.
  intros Hs. apply String.eqb_neq in Hs. unfold _update_checkpoint. rewrite Hs. simpl.
  destruct cur as [c|]; simpl; auto.
  destruct (String.eqb c ""); simpl; auto. destruct (str_gt s c); auto.
Qed.

Lemma customer_luts acc q lut tbl :
  (forall r, In r tbl -> Customer.has_key acc q r = true ->
     Customer.last_updated_time r = lut) ->
  customer_count acc q tbl = 1 ->
  map Customer.last_updated_time (filter (Customer.has_key acc q) tbl) = [lut].
Proof.
  unfold customer_count. intros Hall Hone.
  destruct (filter (Customer.has_key acc q) tbl) as [|r [|r' l]] eqn:Hf; try discriminate.
  assert (In r (filter (Customer.has_key acc q) tbl)) as Hin by (rewrite Hf; now left).
  apply filter_In in Hin. destruct Hin as [Hin Hk]. simpl. now rewrite (Hall r Hin Hk).
Qed.

Lemma invoice_luts acc q lut tbl :
  (forall r, In r tbl -> Invoice.has_key acc q r = true ->
     Invoice.last_updated_time r = lut) ->
  invoice_count acc q tbl = 1 ->
  map Invoice.last_updated_time (filter (Invoice.has_key acc q) tbl) = [lut].
Proof.
  unfold invoice_count. intros Hall Hone.
  destruct (filter (Invoice.has_key acc q) tbl) as [|r [|r' l]] eqn:Hf; try discriminate.
  assert (In r (filter (Invoice.has_key acc q) tbl)) as Hin by (rewrite Hf; now left).
  apply filter_In in Hin. destruct Hin as [Hin Hk]. simpl. now rewrite (Hall r Hin Hk).
Qed.

(** C10 as the code has it, for a record of the QBO schema ([MetaData]
    an object when it is there, [LastUpdatedTime] a string when it is
    there).  A record that carries an [Id], of whose key at most one row
    is stored, is upserted and counted whether its
    [MetaData.LastUpdatedTime] is missing, empty, unparseable or
    parseable; the stored last-updated field is what
    [_parse_last_updated_time] makes of it, which is null when it is
    missing, empty or rejected by [fromisoformat]; the running checkpoint
    is what [_update_checkpoint] makes of the raw string: unchanged when
    it is missing or empty, and for every non-empty string, parseable or
    not, that string when there is no current checkpoint or it compares
    strictly greater, and unchanged otherwise.  A record without [Id] is
    not stored: its insert raises [IntegrityError]. *)
Theorem record_is_upserted_and_raw_timestamp_drives_checkpoint
  (ty : ObjectType) (acc : string) (n : nat) (cur : option string)
  (data : Entity) (w : world) :
  let raw := last_updated_str_of data in
  let normalized s := if endswith_Z s then drop_last s ++ "+00:00" else s in
  (forall q,
     Id data = Some q ->
     List.length (stored_luts ty acc q w) <= 1 ->
     exists w',
       record_body E ty acc (n, cur) data w
         = (w', Ret (n + 1, _update_checkpoint cur raw))
       /\ stored_luts ty acc q w' = [_parse_last_updated_time E raw])
  /\ (Id data = None ->
      exists e,
        record_body E ty acc (n, cur) data w = (w, Raise e)
        /\ exn_cls e = IntegrityError)
  /\ (truthy raw = false ->
      _parse_last_updated_time E raw = None /\ _update_checkpoint cur raw = cur)
  /\ (forall s, raw = Some s -> s <> "" ->
      _parse_last_updated_time E raw = fromisoformat E (normalized s)
      /\ _update_checkpoint cur raw
         = if truthy cur && negb (str_gt s (wm cur)) then cur else Some s).
Proof.
  intros raw normalized.
  assert (forall s, raw = Some s -> s <> "" ->
            _parse_last_updated_time E raw = fromisoformat E (normalized s)
            /\ _update_checkpoint cur raw
               = if truthy cur && negb (str_gt s (wm cur)) then cur else Some s) as Hstr.
  { intros s -> Hs. split; [|now apply update_checkpoint_string].
    apply String.eqb_neq in Hs. simpl. now rewrite Hs. }
  assert (truthy raw = false ->
          _parse_last_updated_time E raw = None /\ _update_checkpoint cur raw = cur)
    as Hfalsy by (intros H; split; [now apply parse_falsy | now apply update_checkpoint_falsy]).
  split; [|split; [|split; assumption]].
  - intros q Hid Hone.
    destruct ty; cbn [record_body stored_luts] in *; rewrite length_map in Hone.
    + unfold customer_body, bind, Customer_upsert. cbn [fst snd]. rewrite Hid.
      fold raw.
      destruct (Customer_upsert_spec acc q data (SyncToken data)
                  (_parse_last_updated_time E raw) (customer_rows w) Hone)
        as (tbl' & -> & Hcount & _ & Hrows & _).
      eexists. split; [reflexivity|].
      cbn [customer_rows with_customer_rows]. apply customer_luts; auto.
      intros r Hin Hk. now destruct (Hrows r Hin Hk) as (_ & _ & ?).
    + unfold invoice_body, bind, Invoice_upsert. cbn [fst snd]. rewrite Hid.
      fold raw.
      destruct (Invoice_upsert_spec acc q data
                  (match CustomerRef data with Some r => value r | None => None end)
                  (SyncToken data) (_parse_last_updated_time E raw) (invoice_rows w) Hone)
        as (tbl' & -> & Hcount & _ & Hrows & _).
      eexists. split; [reflexivity|].
      cbn [invoice_rows with_invoice_rows]. apply invoice_luts; auto.
      intros r Hin Hk. now destruct (Hrows r Hin Hk) as (_ & _ & ?).
  - intros Hid. destruct ty; cbn [record_body].
    + unfold customer_body, bind, Customer_upsert, Customer.upsert,
        Customer.update_or_create. cbn [fst snd]. rewrite Hid.
      eexists. split; reflexivity.
    + unfold invoice_body, bind, Invoice_upsert, Invoice.upsert,
        Invoice.update_or_create. cbn [fst snd]. rewrite Hid.
      eexists. split; reflexivity.
Qed.

End Records.

(** C10, as stated, fails for a timestamp that does not parse: the record
    is upserted with a null last-updated field and counted, and the
    running checkpoint moves from ["2024-01-01T00:00:00Z"] to the raw
    string ["not-a-date"], which compares greater. *)
Lemma unparseable_timestamp_advances_checkpoint :
  let data := {| Id := Some "7"; SyncToken := Some "0";
                 MetaData := Some {| LastUpdatedTime := Some "not-a-date" |};
                 CustomerRef := None; payload := "" |} in
  let r := customer_body demo_env "realm-ok" (0, Some "2024-01-01T00:00:00Z")
             data demo_world in
  _parse_last_updated_time demo_env (last_updated_str_of data) = None
  /\ snd r = Ret (1, Some "not-a-date")
  /\ stored_luts CUSTOMER "realm-ok" "7" (fst r) = [None]
  /\ Some "not-a-date" <> Some "2024-01-01T00:00:00Z".
Proof.
  repeat split; try (vm_compute; reflexivity). discriminate.
Qed.

(** A customer without [MetaData]: stored with a null last-updated field,
    counted, and the checkpoint stays. *)
Lemma record_is_upserted_witness :
  List.length (stored_luts CUSTOMER "realm-ok" "7" demo_world) <= 1
  /\ exists w',
       record_body demo_env CUSTOMER "realm-ok" (0, Some "2024-01-01T00:00:00Z")
         {| Id := Some "7"; SyncToken := Some "0"; MetaData := None;
            CustomerRef := None; payload := "" |} demo_world
         = (w', Ret (1, Some "2024-01-01T00:00:00Z"))
       /\ stored_luts CUSTOMER "realm-ok" "7" w' = [None].
Proof.
  split; [vm_compute; lia|].
  destruct (proj1 (record_is_upserted_and_raw_timestamp_drives_checkpoint demo_env
                     CUSTOMER "realm-ok" 0 (Some "2024-01-01T00:00:00Z")
                     {| Id := Some "7"; SyncToken := Some "0"; MetaData := None;
                        CustomerRef := None; payload := "" |} demo_world)
              "7" eq_refl ltac:(vm_compute; lia)) as (w' & Hrun & Hlut).
  exists w'. split; [exact Hrun | exact Hlut].
Defined.
(** ** The retry policy of [_request_with_retry] *)

Lemma with_trace_same w : with_trace w (trace w ++ [])%list = w.
Proof. destruct w. unfold with_trace. simpl. now rewrite app_nil_r. Qed.

Lemma with_trace_app w l1 l2 :
  with_trace (with_trace w (trace w ++ l1)%list)
             (trace (with_trace w (trace w ++ l1)%list) ++ l2)%list
  = with_trace w (trace w ++ (l1 ++ l2))%list.
Proof. unfold with_trace. simpl. now rewrite app_assoc. Qed.

Lemma sleeps_app t1 t2 : sleeps (t1 ++ t2) = (sleeps t1 ++ sleeps t2)%list.
Proof. unfold sleeps. apply flat_map_app. Qed.

Lemma gets_app t1 t2 : gets (t1 ++ t2) = gets t1 + gets t2.
Proof. unfold gets, requests. now rewrite flat_map_app, length_app. Qed.

(** *** Reading the body of an error *)

(** What the parsing of an error body raises is never an exception that
    the retry loop handles: it is a [TypeError] or an [AttributeError]. *)
Lemma fault_detail_raises {J} (r : response J) e :
  fault_detail r = inr e ->
  isinstance e ValueError || isinstance e KeyError = true
  \/ exn_cls e = TypeError \/ exn_cls e = AttributeError.
Proof.
  unfold fault_detail. destruct (error_json r) as [body|]; [|intros [= <-]; now left].
  destruct body as [| b | n | l z | s | l | d]; cbn [py_contains and_then];
    try (intros [= <-]; right; now left).
  - destruct (contains_str "Fault" s); cbn [py_getitem and_then];
      [intros [= <-]; right; now left | discriminate].
  - destruct (existsb _ l); cbn [py_getitem and_then];
      [intros [= <-]; right; now left | discriminate].
  - unfold py_getitem. destruct (dict_lookup "Fault" d) as [fault|]; [|discriminate].
    cbn [and_then].
    destruct fault as [| b | n | l z | s | l | fd]; cbn [py_get and_then type_name];
      try (intros [= <-]; right; now right).
    destruct (py_truthy _) eqn:Ht; [|discriminate].
    destruct (match dict_lookup "Error" fd with Some x => x | None => VList [] end)
      as [| b | n | l z | s | [|x l] | ed]; cbn [py_first and_then type_name];
      cbn [py_truthy] in Ht;
      try (intros [= <-]; right; now left); try discriminate.
    + destruct (String.eqb s ""); [discriminate|]. cbn [and_then py_get type_name].
      intros [= <-]. right. now right.
    + destruct x as [| b | n | l' z | s | l' | xd]; cbn [py_get and_then type_name];
        try (intros [= <-]; right; now right); discriminate.
    + intros [= <-]. now left.
Qed.

Lemma error_detail_raises E {J} (r : response J) e :
  error_detail E r = inr e -> exn_cls e = TypeError \/ exn_cls e = AttributeError.
Proof.
  unfold error_detail. destruct (fault_detail r) as [v|e0] eqn:Hf; [discriminate|].
  destruct (isinstance e0 ValueError || isinstance e0 KeyError) eqn:Hc; [discriminate|].
  intros [= <-]. destruct (fault_detail_raises r e0 Hf) as [H|H]; [congruence | exact H].
Qed.

(** An error body cannot be read exactly when it is [unreadable]. *)
Lemma error_detail_unreadable E {J} (r : response J) body :
  error_json r = Some body ->
  (exists e, error_detail E r = inr e) <-> unreadable body = true.
Proof.
  intros Hb. unfold error_detail, fault_detail. rewrite Hb.
  destruct body as [| b | n | l z | s | l | d];
    cbn [py_contains and_then unreadable isinstance exn_cls];
    try (split; [reflexivity | intros _; eexists; vm_compute; reflexivity]).
  - destruct (contains_str "Fault" s); cbn [py_getitem and_then].
    + split; [reflexivity | intros _; eexists; vm_compute; reflexivity].
    + split; [intros [e He]; discriminate | discriminate].
  - destruct (existsb _ l); cbn [py_getitem and_then].
    + split; [reflexivity | intros _; eexists; vm_compute; reflexivity].
    + split; [intros [e He]; discriminate | discriminate].
  - unfold py_getitem. destruct (dict_lookup "Fault" d) as [fault|]; cbn [and_then];
      [|split; [intros [e He]; discriminate | discriminate]].
    destruct fault as [| b | n | l z | s | l | fd]; cbn [py_get and_then type_name];
      try (split; [reflexivity | intros _; eexists; vm_compute; reflexivity]).
    destruct (dict_lookup "Error" fd) as [errors|]; cbn [py_truthy];
      [|split; [intros [e He]; discriminate | discriminate]].
    destruct errors as [| b | n | l z | s | [|x l] | [|kv ed]];
      cbn [py_truthy py_first and_then type_name andb negb];
      try (split; [intros [e He]; discriminate | discriminate]).
    + destruct b; cbn [andb];
        [split; [reflexivity | intros _; eexists; vm_compute; reflexivity]
        | split; [intros [e He]; discriminate | discriminate]].
    + destruct (n =? 0)%Z; cbn [negb andb];
        [split; [intros [e He]; discriminate | discriminate]
        | split; [reflexivity | intros _; eexists; vm_compute; reflexivity]].
    + destruct z; cbn [andb];
        [split; [reflexivity | intros _; eexists; vm_compute; reflexivity]
        | split; [intros [e He]; discriminate | discriminate]].
    + destruct (String.eqb s ""); cbn [negb andb and_then py_get type_name];
        [split; [intros [e He]; discriminate | discriminate]
        | split; [reflexivity | intros _; eexists; vm_compute; reflexivity]].
    + destruct x as [| b | n | l' z | s | l' | xd]; cbn [py_get and_then type_name];
        try (split; [reflexivity | intros _; eexists; vm_compute; reflexivity]).
      split; [intros [e He]; discriminate | discriminate].
Qed.

Lemma error_detail_readable E {J} (r : response J) :
  (exists detail, error_detail E r = inl detail)
  <-> match error_json r with
      | None => True
      | Some body => unreadable body = false
      end.
Proof.
  destruct (error_json r) as [body|] eqn:Hb.
  - pose proof (error_detail_unreadable E r body Hb) as H.
    destruct (error_detail E r) as [d|e]; destruct (unreadable body); split;
      try (intros [d' Hd]; discriminate Hd);
      try (intros Hf; discriminate Hf);
      try (intros _; reflexivity);
      try (intros _; eexists; reflexivity).
    + intros _. destruct H as [_ H]. destruct (H eq_refl) as [e' He]. discriminate He.
    + intros _. destruct H as [H _]. exfalso.
      assert (Hf : false = true) by (apply H; eexists; reflexivity).
      discriminate Hf.
  - split; [auto|]. intros _. unfold error_detail, fault_detail. rewrite Hb.
    eexists. reflexivity.
Qed.

Section Retry.

Context (E : Env) (self : ApiBase) (url bearer : string).

Hypothesis has_token : api_access_token self = Some bearer.
Hypothesis token_not_empty : bearer <> "".

Lemma get_headers_run : _get_headers self = Ret bearer.
Proof.
  unfold _get_headers. rewrite has_token.
  apply String.eqb_neq in token_not_empty. now rewrite token_not_empty.
Qed.

(** One attempt: the request is logged, and its answer classified. *)
Lemma attempt_request_run w :
  attempt_request E self url w =
    (with_trace w (trace w ++ [EvGet url bearer])%list,
     match query_endpoint E (trace w) url bearer with
     | NetworkFailure msg => Raise (mkExn RequestException msg)
     | Response r => _handle_response E r
     end).
Proof.
  unfold attempt_request, bind, lift. rewrite get_headers_run.
  unfold http_get, bind, get, log, modify. simpl.
  destruct (query_endpoint E (trace w) url bearer); reflexivity.
Qed.

(** The pause of the linear backoff. *)
Lemma pause_run (more : bool) d w :
  ((if more then sleep d else ret tt) : M world unit) w
    = (with_trace w (trace w ++ (if more then [EvSleep d] else []))%list, Ret tt).
Proof.
  destruct more; [reflexivity|]. unfold ret. now rewrite with_trace_same.
Qed.

(** One failed attempt: the request, the backoff, and the next attempt
    with the failure as the last exception. *)
Lemma retry_step_failure todo attempt last w f :
  failure_of E (query_endpoint E (trace w) url bearer) = Some f ->
  retry_loop E self url (S todo) attempt last w
    = retry_loop E self url todo (S attempt) (Some (surfaced f))
        (with_trace w (trace w ++ EvGet url bearer :: backoff self attempt f)%list).
Proof.
  intros Hf. cbn [retry_loop]. unfold try_except. rewrite attempt_request_run.
  assert (forall e last' evs,
            isinstance e RateLimitError = false ->
            (isinstance e ServerError = true \/
             (isinstance e ServerError = false
              /\ isinstance e AuthenticationError || isinstance e NotFoundError
                 || isinstance e ValidationError = false
              /\ isinstance e RequestException = true)) ->
            last' = (if isinstance e ServerError then Some e
                     else Some (mkExn QBOSDKError ("Network error: " ++ exn_str e))) ->
            evs = (if (Z.of_nat attempt <? Z.of_nat (_max_retries self) - 1)%Z
                   then [EvSleep (_retry_delay self * (Z.of_nat attempt + 1))%Z]
                   else []) ->
            (if isinstance e RateLimitError then
               sleep (_retry_delay self * 2 ^ Z.of_nat attempt)%Z ;;;
               retry_loop E self url todo (S attempt)
                 (Some (mkExn RateLimitError "Rate limit exceeded after retries"))
             else if isinstance e ServerError then
               (if (Z.of_nat attempt <? Z.of_nat (_max_retries self) - 1)%Z
                then sleep (_retry_delay self * (Z.of_nat attempt + 1))%Z else ret tt) ;;;
               retry_loop E self url todo (S attempt) (Some e)
             else if isinstance e AuthenticationError || isinstance e NotFoundError
                     || isinstance e ValidationError then raise e
             else if isinstance e RequestException then
               (if (Z.of_nat attempt <? Z.of_nat (_max_retries self) - 1)%Z
                then sleep (_retry_delay self * (Z.of_nat attempt + 1))%Z else ret tt) ;;;
               retry_loop E self url todo (S attempt)
                 (Some (mkExn QBOSDKError ("Network error: " ++ exn_str e)))
             else raise e)
              (with_trace w (trace w ++ [EvGet url bearer])%list)
            = retry_loop E self url todo (S attempt) last'
                (with_trace w (trace w ++ EvGet url bearer :: evs)%list)) as Hlinear.
  { intros e last' evs H1 H2 -> ->. rewrite H1.
    destruct H2 as [H2|(H2 & H3 & H4)]; rewrite H2; [|rewrite H3, H4];
      unfold bind at 1; rewrite pause_run, with_trace_app; reflexivity. }
  unfold failure_of in Hf.
  destruct (query_endpoint E (trace w) url bearer) as [msg|r].
  - injection Hf as <-.
    apply Hlinear; [reflexivity | right; repeat split | reflexivity | reflexivity].
  - unfold _handle_response. destruct (status_code r =? 200)%Z eqn:Hs.
    + destruct (json r); [discriminate|]. injection Hf as <-.
      apply Hlinear; [reflexivity | right; repeat split | reflexivity | reflexivity].
    + destruct (error_detail E r) as [d|e]; [|discriminate].
      destruct (status_code r =? 429)%Z eqn:H429.
      * injection Hf as <-. apply Z.eqb_eq in H429. rewrite H429.
        cbn [Z.eqb Pos.eqb].
        change (isinstance (mkExn RateLimitError "Rate limit exceeded") RateLimitError)
          with true. cbv iota.
        unfold bind at 1, sleep, log, modify. rewrite with_trace_app. reflexivity.
      * destruct (500 <=? status_code r)%Z eqn:H500; [|discriminate].
        injection Hf as <-. apply Z.leb_le in H500.
        repeat match goal with
               | |- context [(status_code r =? ?k)%Z] =>
                   let Hk := fresh in
                   destruct (Z.eqb_spec (status_code r) k) as [Hk|Hk]; [lia|]
               end.
        destruct (Z.geb_spec (status_code r) 500); [|lia].
        apply Hlinear; [reflexivity | left; reflexivity | reflexivity | reflexivity].
Qed.

(** Consecutive failed attempts. *)
Lemma retry_loop_failed fs : forall attempt last w rest,
  (forall k f,
     nth_error fs k = Some f ->
     failure_of E (query_endpoint E
                     (trace w ++ failed_attempts self url bearer attempt (firstn k fs))%list
                     url bearer)
       = Some f) ->
  retry_loop E self url (List.length fs + rest) attempt last w
    = retry_loop E self url rest (attempt + List.length fs)
        (match fs with
         | [] => last
         | _ => Some (surfaced (List.last fs Throttled))
         end)
        (with_trace w (trace w ++ failed_attempts self url bearer attempt fs)%list).
Proof.
  induction fs as [|f fs IH]; intros attempt last w rest H.
  - cbn [List.length failed_attempts Nat.add]. rewrite with_trace_same, Nat.add_0_r.
    reflexivity.
  - cbn [List.length Nat.add].
    pose proof (H 0 f eq_refl) as H0. cbn [firstn failed_attempts] in H0.
    rewrite app_nil_r in H0.
    rewrite (retry_step_failure _ _ _ _ _ H0), IH.
    + rewrite Nat.add_succ_r. cbn [Nat.add]. f_equal.
      * destruct fs; reflexivity.
      * cbn [failed_attempts]. unfold with_trace.
        cbn [accounts sync_states customer_rows invoice_rows client trace].
        f_equal. rewrite <- app_assoc. reflexivity.
    + intros k f' Hk. specialize (H (S k) f' Hk).
      cbn [firstn failed_attempts] in H. cbn [trace with_trace].
      rewrite <- app_assoc. exact H.
Qed.

(** An attempt that is answered by a 200 with a document returns it. *)
Lemma retry_step_returned todo attempt last w r j :
  query_endpoint E (trace w) url bearer = Response r ->
  status_code r = 200%Z -> json r = Some j ->
  retry_loop E self url (S todo) attempt last w
    = (with_trace w (trace w ++ [EvGet url bearer])%list, Ret j).
Proof.
  intros Hq Hs Hj. cbn [retry_loop]. unfold try_except.
  rewrite attempt_request_run, Hq. unfold _handle_response. now rewrite Hs, Hj.
Qed.

(** An attempt whose answer is raised as an exception that no [except]
    clause retries ends the call: one request, no sleep. *)
Lemma retry_step_raised todo attempt last w r e :
  query_endpoint E (trace w) url bearer = Response r ->
  _handle_response E r = Raise e ->
  isinstance e RateLimitError = false ->
  isinstance e ServerError = false ->
  isinstance e RequestException = false ->
  retry_loop E self url (S todo) attempt last w
    = (with_trace w (trace w ++ [EvGet url bearer])%list, Raise e).
Proof.
  intros Hq Hh H1 H2 H3. cbn [retry_loop]. unfold try_except.
  rewrite attempt_request_run, Hq, Hh, H1, H2, H3.
  destruct (_ || _); reflexivity.
Qed.

(** A 401, 403, 404 or 400 whose error body can be read. *)
Lemma handle_fatal r d :
  In (status_code r) [401; 403; 404; 400]%Z ->
  error_detail E r = inl d ->
  _handle_response E r
    = Raise (if (status_code r =? 401)%Z
             then mkExn AuthenticationError ("Authentication failed: " ++ d)
             else if (status_code r =? 403)%Z
             then mkExn AuthenticationError ("Access forbidden: " ++ d)
             else if (status_code r =? 404)%Z
             then mkExn NotFoundError ("Resource not found: " ++ d)
             else mkExn ValidationError ("Validation error: " ++ d)).
Proof.
  intros Hs Hd. unfold _handle_response. rewrite Hd.
  destruct Hs as [Hs|[Hs|[Hs|[Hs|[]]]]]; rewrite <- Hs; reflexivity.
Qed.

(** An error body that cannot be read. *)
Lemma handle_unreadable r e :
  status_code r <> 200%Z -> error_detail E r = inr e ->
  _handle_response E r = Raise e.
Proof.
  intros Hs Hd. unfold _handle_response. apply Z.eqb_neq in Hs. now rewrite Hs, Hd.
Qed.

End Retry.

Lemma not_retried e :
  exn_cls e = TypeError \/ exn_cls e = AttributeError
  \/ exn_cls e = AuthenticationError \/ exn_cls e = NotFoundError
  \/ exn_cls e = ValidationError \/ exn_cls e = QBOSDKError ->
  isinstance e RateLimitError = false
  /\ isinstance e ServerError = false
  /\ isinstance e RequestException = false.
Proof.
  destruct e as [c s]. unfold isinstance. cbn [exn_cls].
  intros [->|[->|[->|[->|[->| ->]]]]]; repeat split.
Qed.

(** *** The events of failed attempts *)

Lemma gets_failed_attempts self url bearer fs : forall attempt,
  gets (failed_attempts self url bearer attempt fs) = List.length fs.
Proof.
  induction fs as [|f fs IH]; intros attempt; [reflexivity|].
  cbn [failed_attempts List.length].
  change (EvGet url bearer :: ?l)%list with ([EvGet url bearer] ++ l)%list.
  rewrite !gets_app, IH.
  destruct f; cbn [backoff]; try destruct (_ <? _)%Z; reflexivity.
Qed.

Lemma sleeps_failed_attempts self url bearer fs : forall attempt,
  sleeps (failed_attempts self url bearer attempt fs)
    = concat (map (fun af => sleeps (backoff self (fst af) (snd af)))
                  (combine (seq attempt (List.length fs)) fs)).
Proof.
  induction fs as [|f fs IH]; intros attempt; [reflexivity|].
  cbn [failed_attempts List.length seq combine map concat fst snd].
  change (EvGet url bearer :: ?l)%list with ([EvGet url bearer] ++ l)%list.
  rewrite !sleeps_app, IH. reflexivity.
Qed.

(** While every attempt is throttled, the sleeps are the exponential
    backoff of the spec. *)
Lemma sleeps_throttled self url bearer n : forall attempt,
  sleeps (failed_attempts self url bearer attempt (repeat Throttled n))
    = map (fun a => _retry_delay self * 2 ^ Z.of_nat a)%Z (seq attempt n).
Proof.
  induction n as [|n IH]; intros attempt; [reflexivity|].
  cbn [repeat failed_attempts backoff seq map].
  change (EvGet url bearer :: ?l)%list with ([EvGet url bearer] ++ l)%list.
  rewrite !sleeps_app, IH. reflexivity.
Qed.

(** While no attempt is throttled, they are its linear backoff. *)
Lemma sleeps_not_throttled self url bearer fs : forall attempt,
  Forall (fun f => f <> Throttled) fs ->
  attempt + List.length fs = _max_retries self ->
  sleeps (failed_attempts self url bearer attempt fs)
    = map (fun a => _retry_delay self * Z.of_nat a)%Z
          (seq (S attempt) (List.length fs - 1)).
Proof.
  induction fs as [|f fs IH]; intros attempt Hall Hn; [reflexivity|].
  inversion Hall as [|? ? Hf Hall']; subst.
  cbn [failed_attempts List.length] in *.
  change (EvGet url bearer :: ?l)%list with ([EvGet url bearer] ++ l)%list.
  rewrite !sleeps_app, IH by (auto; lia).
  assert (backoff self attempt f
          = if (Z.of_nat attempt <? Z.of_nat (_max_retries self) - 1)%Z
            then [EvSleep (_retry_delay self * (Z.of_nat attempt + 1))%Z] else [])
    as -> by (destruct f; [congruence | reflexivity | reflexivity]).
  destruct (Z.ltb_spec (Z.of_nat attempt) (Z.of_nat (_max_retries self) - 1)).
  - destruct fs as [|f' fs]; [cbn [List.length] in *; lia|].
    cbn [sleeps flat_map app Nat.sub seq map List.length].
    rewrite Nat.sub_0_r. do 2 f_equal. lia.
  - destruct fs as [|f' fs]; [reflexivity | cbn [List.length] in *; lia].
Qed.

(** No call makes more requests than [_max_retries]. *)
Lemma retry_loop_ceiling E self url todo : forall attempt last w,
  gets (trace (fst (retry_loop E self url todo attempt last w)))
    <= gets (trace w) + todo.
Proof.
  induction todo as [|todo IH]; intros attempt last w; simpl; [lia|].
  unfold try_except.
  assert (gets (trace (fst (attempt_request E self url w))) <= gets (trace w) + 1) as H1.
  { unfold attempt_request, bind, lift. destruct (_get_headers self); simpl; try lia.
    unfold http_get, bind, get, log, modify. simpl.
    destruct (query_endpoint E (trace w) url a); simpl; rewrite gets_app;
      change (gets [EvGet url a]) with 1; lia. }
  destruct (attempt_request E self url w) as [w1 [j|e|]]; simpl in *; try lia.
  assert (forall (b : bool) d last',
            gets (trace (fst (((if b then sleep d else ret tt) ;;;
                               retry_loop E self url todo (S attempt) last') w1)))
              <= gets (trace w) + S todo) as Hgo.
  { intros b d last'. unfold bind.
    destruct b; simpl;
      match goal with
      | |- context [retry_loop E self url todo (S attempt) last' ?w'] =>
          specialize (IH (S attempt) last' w')
      end; simpl in IH; try rewrite gets_app in IH;
      try change (gets [EvSleep d]) with 0 in IH; lia. }
  destruct (isinstance e RateLimitError); [apply (Hgo true)|].
  destruct (isinstance e ServerError); [apply Hgo|].
  destruct (_ || _); [simpl; lia|].
  destruct (isinstance e RequestException); [apply Hgo | simpl; lia].
Qed.

(** The run of a call up to the attempt that follows the failures [fs]. *)
Lemma request_after_failures E self url bearer w fs rest :
  api_access_token self = Some bearer ->
  bearer <> "" ->
  fails_with E self url bearer w fs ->
  List.length fs + rest = _max_retries self ->
  _request_with_retry E self url w
    = retry_loop E self url rest (List.length fs)
        (match fs with
         | [] => None
         | _ => Some (surfaced (List.last fs Throttled))
         end)
        (with_trace w (trace w ++ failed_attempts self url bearer 0 fs)%list).
Proof.
  intros Htok Hne Hfs Hn. unfold _request_with_retry. rewrite <- Hn.
  apply (retry_loop_failed E self url bearer Htok Hne fs 0 None w rest Hfs).
Qed.

(** C5.  The status of an answer decides the retry only after its error
    body has been parsed, and the parsing is guarded against [ValueError]
    and [KeyError] alone.  When an answer that is not a 200 has a body
    that cannot be read (the JSON documents [null], [true] or a number; a
    list or a string that holds ['Fault']; an object whose ['Fault'] is
    not an object or whose first error is not one), the parsing raises
    [TypeError] or [AttributeError], which leaves the call at once: a 429
    or a 5xx with such a body is not retried, and no sleep is made. *)
Theorem unreadable_error_body_is_not_retried (E : Env) (self : ApiBase)
  (url bearer : string) (w : world) (r : response api_json) (body : jvalue) :
  api_access_token self = Some bearer ->
  bearer <> "" ->
  0 < _max_retries self ->
  query_endpoint E (trace w) url bearer = Response r ->
  status_code r <> 200%Z ->
  error_json r = Some body ->
  unreadable body = true ->
  exists e,
    _request_with_retry E self url w
      = (with_trace w (trace w ++ [EvGet url bearer])%list, Raise e)
    /\ (exn_cls e = TypeError \/ exn_cls e = AttributeError).
Proof.
  intros Htok Hne Hmax Hq Hs Hb Hu.
  destruct (proj2 (error_detail_unreadable E r body Hb) Hu) as [e He].
  pose proof (error_detail_raises E r e He) as Hcls.
  exists e. split; [|exact Hcls].
  unfold _request_with_retry. destruct (_max_retries self) as [|n]; [lia|].
  destruct (not_retried e) as (H1 & H2 & H3); [tauto|].
  apply (retry_step_raised E self url bearer Htok Hne n 0 None w r e Hq); auto.
  now apply handle_unreadable.
Qed.

(** A remote system that answers 429 with the body [null]: the first
    answer ends the call with a [TypeError], after one request and
    without a sleep. *)
Lemma unreadable_error_body_witness :
  let self := set_access_token ApiBase_init (Some "at-1") in
  let run := _request_with_retry null_body_env self "https://api/query" demo_world in
  (exists e, snd run = Raise e /\ exn_cls e = TypeError)
  /\ gets (trace (fst run)) = 1
  /\ sleeps (trace (fst run)) = [].
Proof.
  cbv zeta.
  destruct (unreadable_error_body_is_not_retried null_body_env
              (set_access_token ApiBase_init (Some "at-1")) "https://api/query" "at-1"
              demo_world
              {| status_code := 429%Z; text := "null"; json := None;
                 error_json := Some VNone;
                 decode_error := "Expecting value: line 1 column 1 (char 0)" |}
              VNone eq_refl ltac:(discriminate) ltac:(simpl; lia) eq_refl
              ltac:(discriminate) eq_refl eq_refl) as (e & Hrun & Hcls).
  rewrite Hrun. cbn [fst snd]. split; [|split; reflexivity].
  exists e. split; [reflexivity|].
  assert (snd (_request_with_retry null_body_env
                 (set_access_token ApiBase_init (Some "at-1")) "https://api/query"
                 demo_world) = Raise e) as He by (now rewrite Hrun).
  vm_compute in He. injection He as <-. reflexivity.
Defined.

(** X23.  The retry policy, attempt by attempt.  A call never makes more
    than [_max_retries] requests (3 by default, with a base delay of 1).
    When all its attempts fail, each with a 429, with a 5xx or on the
    network, whose error body can be read, every attempt is a request
    followed by its own backoff (base delay times 2 to the attempt after a
    429, also after the last attempt; base delay times the attempt number
    after the other failures, except after the last attempt), and the
    call raises the error of the last attempt: [RateLimitError], the
    [ServerError] of the last answer, or the network error wrapped in
    [QBOSDKError].  A 401, 403, 404 or 400 whose error body can be read
    is raised by the attempt that receives it, after the backoffs of the
    failures before it, with no sleep and no further attempt.  An error
    body can be read when it does not decode, and when it decodes to a
    document that is not [unreadable]. *)
Theorem request_retry_policy (E : Env) (self : ApiBase) (url bearer : string)
  (w : world) (fs : list failure) :
  api_access_token self = Some bearer ->
  bearer <> "" ->
  fails_with E self url bearer w fs ->
  let n := _max_retries self in
  let d := _retry_delay self in
  let failed := with_trace w (trace w ++ failed_attempts self url bearer 0 fs)%list in
  (_max_retries ApiBase_init = 3 /\ _retry_delay ApiBase_init = 1%Z)
  /\ gets (trace (fst (_request_with_retry E self url w))) <= gets (trace w) + n
  /\ (fs <> [] -> List.length fs = n ->
      _request_with_retry E self url w
        = (failed, Raise (surfaced (List.last fs Throttled)))
      /\ gets (trace failed) = gets (trace w) + n
      /\ (fs = repeat Throttled n ->
          sleeps (trace failed) = (sleeps (trace w) ++ exponential_backoff d n)%list)
      /\ (Forall (fun f => f <> Throttled) fs ->
          sleeps (trace failed) = (sleeps (trace w) ++ linear_backoff d n)%list))
  /\ (List.length fs < n ->
      forall r detail,
        query_endpoint E (trace failed) url bearer = Response r ->
        In (status_code r) [401; 403; 404; 400]%Z ->
        error_detail E r = inl detail ->
        _request_with_retry E self url w
          = (with_trace failed (trace failed ++ [EvGet url bearer])%list,
             Raise (if (status_code r =? 401)%Z
                    then mkExn AuthenticationError ("Authentication failed: " ++ detail)
                    else if (status_code r =? 403)%Z
                    then mkExn AuthenticationError ("Access forbidden: " ++ detail)
                    else if (status_code r =? 404)%Z
                    then mkExn NotFoundError ("Resource not found: " ++ detail)
                    else mkExn ValidationError ("Validation error: " ++ detail))))
  /\ (forall r : response api_json,
        (exists detail, error_detail E r = inl detail)
        <-> match error_json r with
            | None => True
            | Some body => unreadable body = false
            end).
Proof.
  intros Htok Hne Hfs n d failed.
  split; [split; reflexivity|]. split; [apply retry_loop_ceiling|].
  split; [|split; [|apply error_detail_readable]].
  - intros Hnil Hlen.
    rewrite (request_after_failures E self url bearer w fs 0 Htok Hne Hfs)
      by (fold n; lia).
    cbn [retry_loop]. unfold raise. fold failed.
    split; [destruct fs; [congruence | reflexivity]|].
    unfold failed. cbn [trace with_trace]. rewrite gets_app, sleeps_app, gets_failed_attempts.
    split; [lia|]. split.
    + intros ->. rewrite sleeps_throttled. reflexivity.
    + intros Hall.
      rewrite (sleeps_not_throttled self url bearer fs 0 Hall) by (fold n; lia).
      rewrite Hlen. reflexivity.
  - intros Hlen r detail Hq Hs Hd.
    rewrite (request_after_failures E self url bearer w fs (n - List.length fs)
               Htok Hne Hfs) by (fold n; lia).
    fold failed. destruct (n - List.length fs) as [|rest] eqn:Hrest; [lia|].
    pose proof (handle_fatal E r detail Hs Hd) as Hh.
    apply (retry_step_raised E self url bearer Htok Hne rest _ _ failed r _ Hq Hh);
      destruct Hs as [Hs|[Hs|[Hs|[Hs|[]]]]]; rewrite <- Hs; reflexivity.
Qed.

(** With the defaults, a remote system that fails with a 503, then on the
    network, and then with a 429, is asked three times, with sleeps of 1,
    2 and 4 seconds, and the call raises the [RateLimitError]. *)
Lemma request_retry_policy_witness :
  let self := set_access_token ApiBase_init (Some "at-1") in
  let run := _request_with_retry failing_env self "https://api/query" demo_world in
  snd run = Raise (mkExn RateLimitError "Rate limit exceeded after retries")
  /\ trace (fst run)
     = [EvGet "https://api/query" "at-1"; EvSleep 1;
        EvGet "https://api/query" "at-1"; EvSleep 2;
        EvGet "https://api/query" "at-1"; EvSleep 4]%Z.
Proof.
  cbv zeta.
  assert (fails_with failing_env (set_access_token ApiBase_init (Some "at-1"))
            "https://api/query" "at-1" demo_world
            [ServerFailed 503 "Service Unavailable";
             TransportFailed "Connection reset by peer"; Throttled]) as Hfs.
  { intros [|[|[|k]]] f; cbn [nth_error];
      try (intros [= <-]; vm_compute; reflexivity).
    destruct k; discriminate. }
  destruct (proj1 (proj2 (proj2
              (request_retry_policy failing_env
                 (set_access_token ApiBase_init (Some "at-1"))
                 "https://api/query" "at-1" demo_world _ eq_refl
                 ltac:(discriminate) Hfs)))
              ltac:(discriminate) eq_refl) as (Hrun & _).
  rewrite Hrun. split; reflexivity.
Defined.

(** ** The token manager *)


Section Tokens.

Context (E : Env).

Lemma ensure_token_valid_run w :
  ensure_token_valid E w = if refresh_due E w then _refresh_tokens E w else (w, Ret tt).
Proof.
  unfold ensure_token_valid, refresh_due, bind, get, now.
  destruct (_access_token (client w)); [|reflexivity].
  destruct (_token_expires_at (client w)); [|reflexivity].
  destruct (_ >=? _)%Z; reflexivity.
Qed.


(** What a refusal is raised as: [AuthenticationError] when the body
    does not decode, [AttributeError] when it decodes to something that is
    not an object, and for an object [InvalidGrantError] when its
    ['error'] is ['invalid_grant'] and [AuthenticationError] otherwise. *)
Lemma refresh_error_class (r : response token_json) :
  exn_cls (refresh_error E r)
    = match error_json r with
      | None => AuthenticationError
      | Some (VDict d) =>
          if py_eq_str (match dict_lookup "error" d with
                        | Some v => v
                        | None => VStr ""
                        end) "invalid_grant"
          then InvalidGrantError else AuthenticationError
      | Some _ => AttributeError
      end.
Proof.
  unfold refresh_error. destruct (error_json r) as [body|]; [|reflexivity].
  destruct body; try reflexivity. cbn [py_get and_then].
  destruct (py_eq_str _ _); reflexivity.
Qed.

Lemma refresh_tokens_refused w r :
  token_endpoint E (trace w) (_refresh_token (client w)) = Response r ->
  status_code r <> 200%Z ->
  _refresh_tokens E w
    = (with_trace w (trace w ++ [EvTokenPost (_refresh_token (client w))])%list,
       Raise (refresh_error E r)).
Proof.
  intros Hq Hs. unfold _refresh_tokens, bind at 1, get. unfold bind at 1, log, modify.
  rewrite Hq. apply Z.eqb_neq in Hs. rewrite Hs. reflexivity.
Qed.

(** C6.  A refusal of the identity provider is parsed under
    [except ValueError] alone.  When the body of an answer that is not a
    200 is JSON but not an object (a list, a string, a number, [null]),
    [error_data.get] raises [AttributeError], and that is what
    [_refresh_tokens], and [ensure_token_valid] when a refresh is due,
    raise after the one POST: not an [AuthenticationError], and the client
    is left as it was. *)
Theorem refusal_that_is_not_an_object (w : world) (r : response token_json)
  (body : jvalue) :
  token_endpoint E (trace w) (_refresh_token (client w)) = Response r ->
  status_code r <> 200%Z ->
  error_json r = Some body ->
  (forall d, body <> VDict d) ->
  let posted :=
    with_trace w (trace w ++ [EvTokenPost (_refresh_token (client w))])%list in
  exists e,
    _refresh_tokens E w = (posted, Raise e)
    /\ exn_cls e = AttributeError
    /\ isinstance e AuthenticationError = false
    /\ client posted = client w
    /\ (refresh_due E w = true -> ensure_token_valid E w = (posted, Raise e)).
Proof.
  intros Hq Hs Hb Hobj posted. exists (refresh_error E r).
  pose proof (refresh_error_class r) as Hc. rewrite Hb in Hc.
  assert (exn_cls (refresh_error E r) = AttributeError) as Hcls
    by (destruct body; try exact Hc; now contradiction (Hobj d)).
  split; [now apply refresh_tokens_refused|]. split; [exact Hcls|].
  split; [unfold isinstance; now rewrite Hcls|]. split; [reflexivity|].
  intros Hdue. rewrite ensure_token_valid_run, Hdue. now apply refresh_tokens_refused.
Qed.


End Tokens.

(** An identity provider that refuses the refresh with a 400 whose body
    is [[]]: [ensure_token_valid] raises an [AttributeError], which is not
    an [AuthenticationError]. *)
Lemma refusal_that_is_not_an_object_witness :
  let w := with_client demo_world
             (create_client_for_account array_body_env
                (demo_account "realm-ok" "rt-good" false)) in
  snd (ensure_token_valid array_body_env w)
    = Raise (mkExn AttributeError "'list' object has no attribute 'get'")
  /\ isinstance (mkExn AttributeError "'list' object has no attribute 'get'")
       AuthenticationError = false
  /\ trace (fst (ensure_token_valid array_body_env w)) = [EvTokenPost "rt-good"].
Proof.
  cbv zeta.
  destruct (refusal_that_is_not_an_object array_body_env
              (with_client demo_world
                 (create_client_for_account array_body_env
                    (demo_account "realm-ok" "rt-good" false)))
              {| status_code := 400%Z; text := "[]"; json := None;
                 error_json := Some (VList []);
                 decode_error := "Expecting value: line 1 column 1 (char 0)" |}
              (VList []) eq_refl ltac:(discriminate) eq_refl ltac:(discriminate))
    as (e & Hrun & Hcls & Hnot & _ & Hensure).
  rewrite (Hensure eq_refl). cbn [fst snd]. split; [|split; reflexivity].
  assert (snd (_refresh_tokens array_body_env
                 (with_client demo_world
                    (create_client_for_account array_body_env
                       (demo_account "realm-ok" "rt-good" false)))) = Raise e) as He
    by (now rewrite Hrun).
  vm_compute in He. injection He as <-. reflexivity.
Defined.


(** ** Pagination *)

Section Pages.

Context (E : Env) (g : generator) (w : world) (bearer : string).
Context (pages : nat -> list Entity) (url : nat -> string) (last : nat).

Let ps : N := g_page_size g.
Let api : ApiBase := resource (g_resource g) (client w).

Hypothesis created : g_state g = Created.
Hypothesis page_size_positive : (0 < ps)%N.
Hypothesis has_token : api_access_token api = Some bearer.
Hypothesis token_not_empty : bearer <> "".
Hypothesis may_try : 0 < _max_retries api.

(** [url k] is the URL of the query for page [k]. *)
Hypothesis url_of_page : forall k,
  _build_url api
    ("query?query=" ++ quote (paginated_query (g_base_query g)
                                              (start_position ps k) ps))
  = Ret (url k).

(** The remote system answers the query for page [k] with [pages k]; the
    pages before [last] are full, page [last] is not. *)
Hypothesis served : forall t k,
  k <= last ->
  exists r j,
    query_endpoint E t (url k) bearer = Response r
    /\ status_code r = 200%Z /\ json r = Some j
    /\ entities_of j (g_entity_name g) = pages k.
Hypothesis full_before : forall k,
  k < last -> (ps <= N.of_nat (List.length (pages k)))%N.
Hypothesis short_last : (N.of_nat (List.length (pages last)) < ps)%N.

Lemma fetch_page_served i w0 gi :
  i <= last ->
  client w0 = client w ->
  g_resource gi = g_resource g -> g_base_query gi = g_base_query g ->
  g_entity_name gi = g_entity_name g -> g_page_size gi = ps ->
  fetch_page E gi (start_position ps i) w0 =
    (with_trace w0 (trace w0 ++ [EvGet (url i) bearer])%list,
     Ret match pages i with
         | [] => (None, at_state gi Finished)
         | _ => (Some (pages i),
                 at_state gi (Suspended (start_position ps i) (List.length (pages i))))
         end).
Proof.
  intros Hi Hc Hr Hq Hn Hp. unfold fetch_page, bind at 1, get.
  rewrite Hr, Hq, Hn, Hp, Hc. fold api.
  unfold bind at 1, _query, bind at 1, lift. rewrite url_of_page.
  unfold _request_with_retry. destruct (_max_retries api) as [|n] eqn:Hmax; [lia|].
  cbn [retry_loop]. unfold try_except.
  rewrite (attempt_request_run E api (url i) bearer has_token token_not_empty).
  destruct (served (trace w0) i Hi) as (r & j & -> & Hs & Hj & Hent).
  unfold _handle_response. rewrite Hs, Hj. cbn [Z.eqb Pos.eqb]. cbv zeta.
  rewrite Hent. destruct (pages i); reflexivity.
Qed.

Lemma gen_next_served i w0 :
  i <= last ->
  client w0 = client w ->
  gen_next E (before_page g pages i) w0 =
    (with_trace w0 (trace w0 ++ [EvGet (url i) bearer])%list,
     Ret match pages i with
         | [] => (None, at_state g Finished)
         | _ => (Some (pages i), before_page g pages (S i))
         end).
Proof.
  intros Hi Hc. unfold gen_next, before_page. destruct i as [|j].
  - cbn [g_state at_state].
    rewrite (fetch_page_served 0 w0 _ Hi Hc) by reflexivity. reflexivity.
  - cbn [g_state at_state g_page_size]. fold ps.
    assert ((N.of_nat (List.length (pages j)) <? ps)%N = false) as ->.
    { apply N.ltb_ge. apply full_before. lia. }
    replace (start_position ps j + ps)%N with (start_position ps (S j))
      by (unfold start_position; lia).
    rewrite (fetch_page_served (S j) w0 _ Hi Hc) by reflexivity. reflexivity.
Qed.

(** From page [i] on, the generator yields the full pages up to [last],
    then page [last] unless it is empty, and stops; it sends exactly the
    queries for the pages [i], ..., [last]. *)
Lemma drain_served d : forall i fuel w0,
  i + d = last ->
  d + 2 <= fuel ->
  client w0 = client w ->
  drain E fuel (before_page g pages i) w0 =
    (with_trace w0 (trace w0 ++ map (fun k => EvGet (url k) bearer) (seq i (S d)))%list,
     Ret (map pages (seq i d)
          ++ match pages last with [] => [] | _ => [pages last] end)%list).
Proof.
  induction d as [|d IH]; intros i fuel w0 Hi Hfuel Hc.
  - assert (i = last) as -> by lia.
    destruct fuel as [|[|fuel]]; try lia. cbn [drain]. unfold bind at 1.
    rewrite (gen_next_served last w0 (le_n _) Hc).
    destruct (pages last) as [|x l] eqn:Hp; [reflexivity|].
    unfold bind at 1. cbn [drain]. unfold bind at 1, gen_next, before_page.
    cbn [g_state at_state g_page_size]. fold ps. rewrite Hp.
    assert ((N.of_nat (List.length (x :: l)) <? ps)%N = true) as ->
      by (apply N.ltb_lt; exact short_last).
    reflexivity.
  - destruct fuel as [|fuel]; [lia|]. cbn [drain]. unfold bind at 1.
    rewrite (gen_next_served i w0 ltac:(lia) Hc).
    assert (pages i <> []) as Hne.
    { intros Hnil. assert (i < last) as Hlt by lia.
      pose proof (full_before i Hlt) as H. rewrite Hnil in H. simpl in H. lia. }
    destruct (pages i) as [|x l] eqn:Hp; [congruence|]. rewrite <- Hp.
    unfold bind at 1.
    rewrite (IH (S i) fuel (with_trace w0 (trace w0 ++ [EvGet (url i) bearer])%list)
               ltac:(lia) ltac:(lia) Hc).
    unfold ret. f_equal.
    unfold with_trace. cbn [accounts sync_states customer_rows invoice_rows client trace].
    f_equal. rewrite <- app_assoc. reflexivity.
Qed.

End Pages.

Lemma contains_char_app c a b :
  contains_char c (a ++ b) = contains_char c a || contains_char c b.
Proof.
  induction a as [|x a IH]; simpl; auto. rewrite IH. now rewrite orb_assoc.
Qed.

Lemma string_app_assoc (a b c : string) : (a ++ b) ++ c = a ++ (b ++ c).
Proof. induction a as [|x a IH]; simpl; congruence. Qed.

(** The URL of a query on a configured resource. *)
Lemma build_url_query api s q :
  api_server_url api = Some s -> s <> "" ->
  _build_url api ("query?query=" ++ q)
    = Ret (s ++ "/query?query=" ++ q ++ "&minorversion=" ++ dec_Z (api_minor_version api)).
Proof.
  intros Hs Hne. unfold _build_url. rewrite Hs.
  apply String.eqb_neq in Hne. rewrite Hne.
  rewrite contains_char_app. cbn [contains_char append Ascii.eqb Bool.eqb orb andb].
  rewrite orb_true_r. f_equal. now rewrite !string_app_assoc.
Qed.

(** C4.  [get_all_generator] asks for all records of the type, ordered by
    ascending update-time, when it is given no watermark ([None] or the
    empty string), and otherwise for the records whose
    [MetaData.LastUpdatedTime] is strictly greater than the watermark, in
    the same order; the page size is 100.  Each query carries an explicit
    start position and the page size; the pages are fetched at positions
    1, 101, 201, ...; and against a remote system whose pages before
    [last] are full (or larger) and whose page [last] is short or empty,
    the generator sends exactly the queries for the pages 0 to [last],
    yields the full pages, then page [last] unless it is empty, and
    stops. *)
Theorem pagination_by_start_position
  (E : Env) (ty : ObjectType) (watermark : option string) (w : world)
  (bearer : string) (pages : nat -> list Entity) (url : nat -> string)
  (last fuel : nat) :
  let g := get_all_generator ty watermark in
  let api := resource ty (client w) in
  api_access_token api = Some bearer ->
  bearer <> "" ->
  0 < _max_retries api ->
  (forall k,
     _build_url api
       ("query?query=" ++ quote (paginated_query (all_query ty watermark)
                                                 (start_position 100 k) 100))
     = Ret (url k)) ->
  (forall t k,
     k <= last ->
     exists r j,
       query_endpoint E t (url k) bearer = Response r
       /\ status_code r = 200%Z /\ json r = Some j
       /\ entities_of j (entity_name ty) = pages k) ->
  (forall k, k < last -> (100 <= N.of_nat (List.length (pages k)))%N) ->
  (N.of_nat (List.length (pages last)) < 100)%N ->
  last + 2 <= fuel ->
  (all_query ty None
     = "SELECT * FROM " ++ entity_name ty ++ " ORDER BY MetaData.LastUpdatedTime ASC"
   /\ all_query ty (Some "") = all_query ty None
   /\ forall t, t <> "" ->
        all_query ty (Some t)
          = "SELECT * FROM " ++ entity_name ty
            ++ " WHERE MetaData.LastUpdatedTime > '" ++ t
            ++ "' ORDER BY MetaData.LastUpdatedTime ASC")
  /\ (g_base_query g = all_query ty watermark /\ g_page_size g = 100%N
      /\ g_entity_name g = entity_name ty)
  /\ (forall base pos size,
        paginated_query base pos size
          = base ++ " STARTPOSITION " ++ dec_N pos ++ " MAXRESULTS " ++ dec_N size)
  /\ (forall k, start_position 100 k = (1 + 100 * N.of_nat k)%N)
  /\ drain E fuel g w
     = (with_trace w (trace w ++ map (fun k => EvGet (url k) bearer) (seq 0 (S last)))%list,
        Ret (map pages (seq 0 last)
             ++ match pages last with [] => [] | _ => [pages last] end)%list).
Proof.
  intros g api Htok Hne Htry Hurl Hserved Hfull Hshort Hfuel.
  split; [|split; [|split; [|split]]].
  - split; [reflexivity|]. split; [reflexivity|].
    intros t Ht. apply String.eqb_neq in Ht. unfold all_query. rewrite Ht.
    destruct ty; reflexivity.
  - repeat split.
  - reflexivity.
  - intros k. unfold start_position. lia.
  - change (drain E fuel g w) with (drain E fuel (before_page g pages 0) w).
    apply drain_served with (w := w) (d := last) (i := 0); auto. reflexivity.
Qed.

(** The 240 customers of the remote system arrive in three batches, of
    100, 100 and 40 records, for three queries. *)
Lemma pagination_by_start_position_witness :
  api_access_token (resource CUSTOMER (client demo_ready)) = Some "at-1"
  /\ (N.of_nat (List.length (demo_page 2)) < 100)%N
  /\ exists batches,
       snd (drain demo_env 10 (get_all_generator CUSTOMER None) demo_ready)
         = Ret batches
       /\ map (@List.length Entity) batches = [100; 100; 40]
       /\ requests (trace (fst (drain demo_env 10 (get_all_generator CUSTOMER None)
                                  demo_ready)))
          = map demo_page_url [0; 1; 2].
Proof.
  split; [reflexivity|]. split; [vm_compute; reflexivity|].
  assert (forall k,
            _build_url (resource CUSTOMER (client demo_ready))
              ("query?query=" ++ quote (paginated_query (all_query CUSTOMER None)
                                          (start_position 100 k) 100))
            = Ret (demo_page_url k)) as Hurl.
  { intros k.
    rewrite (build_url_query _
               "https://sandbox-quickbooks.api.intuit.com/v3/company/realm-ok")
      by (reflexivity || discriminate).
    reflexivity. }
  assert (forall t k, k <= 2 ->
            exists r j,
              query_endpoint demo_env t (demo_page_url k) "at-1" = Response r
              /\ status_code r = 200%Z /\ json r = Some j
              /\ entities_of j (entity_name CUSTOMER) = demo_page k) as Hserved.
  { intros t k Hk.
    destruct k as [|[|[|k]]]; [| | |lia];
      (eexists; eexists; split; [vm_compute; reflexivity|];
       split; [reflexivity|]; split; [reflexivity|]; vm_compute; reflexivity). }
  assert (forall k, k < 2 -> (100 <= N.of_nat (List.length (demo_page k)))%N) as Hfull.
  { intros k Hk. destruct k as [|[|k]]; [| |lia]; vm_compute; discriminate. }
  destruct (pagination_by_start_position demo_env CUSTOMER None demo_ready "at-1"
              demo_page demo_page_url 2 10 eq_refl ltac:(discriminate)
              ltac:(vm_compute; lia) Hurl Hserved Hfull
              ltac:(vm_compute; reflexivity) ltac:(lia))
    as (_ & _ & _ & _ & Hdrain).
  rewrite Hdrain. eexists. split; [reflexivity|]. split; vm_compute; reflexivity.
Defined.
(** ** Further properties of the HTTP layer *)

(** A status that is neither a 200 nor one the client knows by name. *)
Lemma handle_other E r detail :
  status_code r <> 200%Z -> (status_code r < 500)%Z ->
  ~ In (status_code r) [401; 403; 404; 400; 429]%Z ->
  error_detail E r = inl detail ->
  _handle_response E r
    = Raise (mkExn QBOSDKError
               ("API error (" ++ dec_Z (status_code r) ++ "): " ++ detail)).
Proof.
  intros H200 H500 Hin Hd. unfold _handle_response. rewrite Hd.
  repeat match goal with
         | |- context [(status_code r =? ?k)%Z] =>
             let Hk := fresh in
             destruct (Z.eqb_spec (status_code r) k) as [Hk|Hk];
             [ try contradiction; exfalso; apply Hin; simpl; auto 10 | ]
         end.
  destruct (Z.geb_spec (status_code r) 500); [lia | reflexivity].
Qed.

(** The detail of an error whose body does not decode: the first 500
    characters of the text. *)
Lemma error_detail_undecodable E {J} (r : response J) :
  error_json r = None -> error_detail E r = inl (take_points 500 (text r)).
Proof. intros H. unfold error_detail, fault_detail. now rewrite H. Qed.

(** X1.  A response whose status the client does not know by name (not a
    200, below 500, and none of 400, 401, 403, 404, 429: a 204, a 302, a
    409, ...) and whose error body can be read ends the call at the
    attempt that receives it, after the backoffs of the failures before
    it: it is raised as a plain [QBOSDKError] naming the status and the
    detail, with no sleep and no further attempt.  When the body does not
    decode, the detail is the first 500 characters of its text. *)
Theorem unexpected_status_is_not_retried (E : Env) (self : ApiBase)
  (url bearer : string) (w : world) (fs : list failure) (r : response api_json)
  (detail : string) :
  api_access_token self = Some bearer ->
  bearer <> "" ->
  fails_with E self url bearer w fs ->
  List.length fs < _max_retries self ->
  let failed := with_trace w (trace w ++ failed_attempts self url bearer 0 fs)%list in
  query_endpoint E (trace failed) url bearer = Response r ->
  status_code r <> 200%Z ->
  (status_code r < 500)%Z ->
  ~ In (status_code r) [401; 403; 404; 400; 429]%Z ->
  error_detail E r = inl detail ->
  _request_with_retry E self url w
    = (with_trace failed (trace failed ++ [EvGet url bearer])%list,
       Raise (mkExn QBOSDKError
                ("API error (" ++ dec_Z (status_code r) ++ "): " ++ detail)))
  /\ (error_json r = None -> detail = take_points 500 (text r)).
Proof.
  intros Htok Hne Hfs Hlen failed Hq H200 H500 Hin Hd. split.
  - rewrite (request_after_failures E self url bearer w fs
               (_max_retries self - List.length fs) Htok Hne Hfs) by lia.
    fold failed.
    destruct (_max_retries self - List.length fs) as [|rest] eqn:Hrest; [lia|].
    apply (retry_step_raised E self url bearer Htok Hne rest _ _ failed r _ Hq
             (handle_other E r detail H200 H500 Hin Hd)); reflexivity.
  - intros Hb. rewrite (error_detail_undecodable E r Hb) in Hd. now injection Hd.
Qed.

Lemma unexpected_status_is_not_retried_witness :
  let self := set_access_token ApiBase_init (Some "at-1") in
  let run := _request_with_retry conflict_env self "https://api/query" demo_world in
  snd run = Raise (mkExn QBOSDKError "API error (409): Conflict")
  /\ gets (trace (fst run)) = 1
  /\ sleeps (trace (fst run)) = [].
Proof.
  cbv zeta.
  rewrite (proj1 (unexpected_status_is_not_retried conflict_env
             (set_access_token ApiBase_init (Some "at-1")) "https://api/query" "at-1"
             demo_world []
             {| status_code := 409%Z; text := "Conflict"; json := None;
                error_json := None;
                decode_error := "Expecting value: line 1 column 1 (char 0)" |}
             "Conflict"
             eq_refl ltac:(discriminate)
             ltac:(intros [|k] f; discriminate) ltac:(simpl; lia) eq_refl
             ltac:(discriminate) ltac:(simpl; lia)
             ltac:(simpl; intuition discriminate) eq_refl)).
  repeat split.
Defined.

(** X2.  Transient failures are recovered from: when the first attempts
    of a call fail, each with a 429, with a 5xx or on the network, whose
    error body can be read, and the next attempt, still within the
    ceiling, is answered by a 200 with a JSON document, the call returns
    that document; what it did is, for each failed attempt, the request
    and its own backoff (exponential after a 429, linear after the other
    failures), and the one request that succeeded. *)
Theorem transient_failures_are_recovered (E : Env) (self : ApiBase)
  (url bearer : string) (w : world) (fs : list failure) (r : response api_json)
  (js : api_json) :
  api_access_token self = Some bearer ->
  bearer <> "" ->
  fails_with E self url bearer w fs ->
  List.length fs < _max_retries self ->
  let failed := with_trace w (trace w ++ failed_attempts self url bearer 0 fs)%list in
  query_endpoint E (trace failed) url bearer = Response r ->
  status_code r = 200%Z ->
  json r = Some js ->
  let run := _request_with_retry E self url w in
  run = (with_trace failed (trace failed ++ [EvGet url bearer])%list, Ret js)
  /\ gets (trace (fst run)) = gets (trace w) + List.length fs + 1
  /\ sleeps (trace (fst run))
     = (sleeps (trace w)
        ++ concat (map (fun af => sleeps (backoff self (fst af) (snd af)))
                       (combine (seq 0 (List.length fs)) fs)))%list.
Proof.
  intros Htok Hne Hfs Hlen failed Hq Hs Hj run.
  assert (run = (with_trace failed (trace failed ++ [EvGet url bearer])%list, Ret js))
    as Hrun.
  { unfold run.
    rewrite (request_after_failures E self url bearer w fs
               (_max_retries self - List.length fs) Htok Hne Hfs) by lia.
    fold failed.
    destruct (_max_retries self - List.length fs) as [|rest] eqn:Hrest; [lia|].
    apply (retry_step_returned E self url bearer Htok Hne rest _ _ failed r js Hq Hs Hj). }
  split; [exact Hrun|]. rewrite Hrun. unfold failed. cbn [fst trace with_trace].
  rewrite !gets_app, !sleeps_app, gets_failed_attempts, sleeps_failed_attempts.
  change (gets [EvGet url bearer]) with 1. change (sleeps [EvGet url bearer]) with (@nil Z).
  rewrite app_nil_r. split; [lia | reflexivity].
Qed.

Lemma transient_failures_are_recovered_witness :
  let self := set_access_token ApiBase_init (Some "at-1") in
  let run := _request_with_retry flaky_env self "https://api/query" demo_world in
  snd run = Ret {| QueryResponse := Some [("Customer", firstn 100 demo_customers)] |}
  /\ gets (trace (fst run)) = 3
  /\ sleeps (trace (fst run)) = [1; 2]%Z.
Proof.
  cbv zeta.
  assert (fails_with flaky_env (set_access_token ApiBase_init (Some "at-1"))
            "https://api/query" "at-1" demo_world
            [ServerFailed 503 "Service Unavailable";
             TransportFailed "Connection reset by peer"]) as Hfs.
  { intros [|[|k]] f; cbn [nth_error];
      try (intros [= <-]; vm_compute; reflexivity).
    destruct k; discriminate. }
  destruct (transient_failures_are_recovered flaky_env
              (set_access_token ApiBase_init (Some "at-1")) "https://api/query" "at-1"
              demo_world _
              {| status_code := 200%Z; text := "";
                 json := Some {| QueryResponse :=
                                   Some [("Customer", firstn 100 demo_customers)] |};
                 error_json := None; decode_error := "" |}
              _ eq_refl ltac:(discriminate) Hfs ltac:(simpl; lia)
              eq_refl eq_refl eq_refl) as (Hrun & Hgets & Hsleeps).
  rewrite Hrun in *. cbn [fst snd] in *. split; [reflexivity|]. split; [exact Hgets|].
  exact Hsleeps.
Defined.

(** X3.  Nothing is sent by a resource that is not configured: without a
    server URL ([None] or empty) [_query] raises [QBOSDKError], with a
    server URL but without an access token ([None] or empty) it raises
    [AuthenticationError] at the first attempt; in both cases the log of
    requests and sleeps is untouched.  A resource fresh from [__init__]
    is in the first case. *)
Theorem unconfigured_resource_sends_nothing (E : Env) (self : ApiBase)
  (query : string) (w : world) :
  (truthy (api_server_url self) = false ->
   _query E self query w = (w, Raise (mkExn QBOSDKError "Server URL not configured")))
  /\ (truthy (api_server_url self) = true ->
      truthy (api_access_token self) = false ->
      0 < _max_retries self ->
      _query E self query w = (w, Raise (mkExn AuthenticationError "Access token not set")))
  /\ truthy (api_server_url ApiBase_init) = false.
Proof.
  split; [|split; [|reflexivity]].
  - intros Hurl. unfold _query, bind, lift, _build_url.
    destruct (api_server_url self) as [s|]; [|reflexivity].
    simpl in Hurl. apply negb_false_iff in Hurl. now rewrite Hurl.
  - intros Hurl Htok Hmax. unfold _query, bind, lift, _build_url.
    destruct (api_server_url self) as [s|]; [|discriminate].
    simpl in Hurl. apply negb_true_iff in Hurl. rewrite Hurl.
    unfold _request_with_retry. destruct (_max_retries self) as [|n]; [lia|].
    cbn [retry_loop]. unfold try_except, attempt_request, bind, lift, _get_headers.
    destruct (api_access_token self) as [t|].
    + simpl in Htok. apply negb_false_iff in Htok. rewrite Htok. reflexivity.
    + reflexivity.
Qed.

Lemma unconfigured_resource_sends_nothing_witness :
  _query demo_env ApiBase_init "SELECT * FROM Customer" demo_world
    = (demo_world, Raise (mkExn QBOSDKError "Server URL not configured"))
  /\ _query demo_env (set_server_url ApiBase_init "https://api/") "SELECT * FROM Customer"
       demo_world
     = (demo_world, Raise (mkExn AuthenticationError "Access token not set")).
Proof.
  split.
  - apply (proj1 (unconfigured_resource_sends_nothing demo_env ApiBase_init
                    "SELECT * FROM Customer" demo_world)). reflexivity.
  - apply (proj1 (proj2 (unconfigured_resource_sends_nothing demo_env
                    (set_server_url ApiBase_init "https://api/")
                    "SELECT * FROM Customer" demo_world)));
      [reflexivity | reflexivity | simpl; lia].
Defined.

(** *** The class of what the API layer raises *)

Lemma subclass_of_sdk_error e :
  isinstance e ServerError || isinstance e AuthenticationError
  || isinstance e NotFoundError || isinstance e ValidationError
  || isinstance e RateLimitError = true ->
  isinstance e QBOSDKError = true.
Proof. destruct e as [[] s]; vm_compute; congruence. Qed.

Lemma handle_response_raises E r e :
  _handle_response E r = Raise e ->
  sdk_or_parse_error e \/ isinstance e RequestException = true.
Proof.
  unfold _handle_response, sdk_or_parse_error.
  destruct (status_code r =? 200)%Z eqn:Hs.
  - destruct (json r); [discriminate|]. intros [= <-]. right. reflexivity.
  - destruct (error_detail E r) as [d|e0] eqn:Hd.
    + repeat match goal with
             | |- context [if ?b then _ else _] => destruct b
             end; intros [= <-]; left; left; reflexivity.
    + intros [= <-]. left. right. exact (error_detail_raises E r e0 Hd).
Qed.

Section ApiErrors.

Context (E : Env).

Lemma attempt_request_raises self url w w' e :
  attempt_request E self url w = (w', Raise e) ->
  sdk_or_parse_error e \/ isinstance e RequestException = true.
Proof.
  unfold attempt_request, bind, lift, _get_headers.
  destruct (api_access_token self) as [t|]; [destruct (String.eqb t "")|];
    try (intros [= _ <-]; left; left; reflexivity).
  unfold http_get, bind, get, log, modify, raise, ret. simpl.
  destruct (query_endpoint E (trace w) url t) as [msg|r].
  - intros [= _ <-]. right. reflexivity.
  - destruct (_handle_response E r) as [j|e0|] eqn:Hh; try discriminate.
    intros [= _ <-]. exact (handle_response_raises E r e0 Hh).
Qed.

Lemma retry_loop_raises self url todo : forall attempt last w w' e,
  (forall l, last = Some l -> isinstance l QBOSDKError = true) ->
  retry_loop E self url todo attempt last w = (w', Raise e) ->
  sdk_or_parse_error e.
Proof.
  induction todo as [|todo IH]; intros attempt last w w' e Hlast; cbn [retry_loop].
  - unfold raise. intros [= _ <-]. left.
    destruct last as [l|]; [now apply Hlast | reflexivity].
  - unfold try_except.
    destruct (attempt_request E self url w) as [w1 [j|e0|]] eqn:Hatt; try discriminate.
    assert (forall (m : M world unit) last',
              (forall l, last' = Some l -> isinstance l QBOSDKError = true) ->
              (forall w3 x, m w1 = (w3, x) -> x = Ret tt) ->
              (m ;;; retry_loop E self url todo (S attempt) last') w1 = (w', Raise e) ->
              sdk_or_parse_error e) as Hgo.
    { intros m last' Hl Hm. unfold bind.
      destruct (m w1) as [w3 x] eqn:Hmw. rewrite (Hm w3 x eq_refl).
      intros Hrun. exact (IH _ _ _ _ _ Hl Hrun). }
    assert (forall (b : bool) d w3 x,
              (if b then sleep d else ret tt) w1 = (w3, x) -> x = Ret tt) as Hpause.
    { intros b d w3 x. destruct b; unfold sleep, log, modify, ret; now intros [= _ <-]. }
    destruct (isinstance e0 RateLimitError) eqn:H1.
    { intros Hrun. refine (Hgo _ _ _ (Hpause true _) Hrun).
      intros l [= <-]. reflexivity. }
    destruct (isinstance e0 ServerError) eqn:H2.
    { intros Hrun. refine (Hgo _ _ _ (Hpause _ _) Hrun).
      intros l [= <-]. apply subclass_of_sdk_error. now rewrite H2. }
    destruct (isinstance e0 AuthenticationError || isinstance e0 NotFoundError
              || isinstance e0 ValidationError) eqn:H3.
    { unfold raise. intros [= _ <-]. left. apply subclass_of_sdk_error.
      apply orb_true_iff in H3. destruct H3 as [H3|H3];
        [apply orb_true_iff in H3; destruct H3 as [H3|H3]|]; rewrite H3;
        rewrite ?orb_true_r; reflexivity. }
    destruct (isinstance e0 RequestException) eqn:H4.
    { intros Hrun. refine (Hgo _ _ _ (Hpause _ _) Hrun).
      intros l [= <-]. reflexivity. }
    unfold raise. intros [= _ <-].
    destruct (attempt_request_raises _ _ _ _ _ Hatt) as [H|H]; [exact H | congruence].
Qed.

Lemma query_raises self query w w' e :
  _query E self query w = (w', Raise e) -> sdk_or_parse_error e.
Proof.
  unfold _query, bind, lift, _build_url.
  destruct (api_server_url self) as [s|]; [destruct (String.eqb s "")|];
    try (intros [= _ <-]; left; reflexivity).
  apply retry_loop_raises. discriminate.
Qed.

End ApiErrors.

(** X6.  Whatever a query or the [next()] of a page generator raises is a
    [QBOSDKError], or the [TypeError] or [AttributeError] that the parsing
    of an error body raised: transport failures and undecodable 200 bodies
    reach the caller only wrapped in a [QBOSDKError], after the retries,
    and a status other than 200 is raised as a subclass of [QBOSDKError]
    whenever its error body can be read. *)
Theorem what_the_api_layer_raises (E : Env) :
  (forall self query w w' e,
     _query E self query w = (w', Raise e) ->
     isinstance e QBOSDKError = true
     \/ exn_cls e = TypeError \/ exn_cls e = AttributeError)
  /\ (forall g w w' e,
        gen_next E g w = (w', Raise e) ->
        isinstance e QBOSDKError = true
        \/ exn_cls e = TypeError \/ exn_cls e = AttributeError)
  /\ (forall self query w w' e,
        _query E self query w = (w', Raise e) ->
        isinstance e RequestException = false).
Proof.
  split; [apply query_raises|]. split.
  - intros g w w' e. unfold gen_next.
    assert (forall pos, fetch_page E g pos w = (w', Raise e) -> sdk_or_parse_error e)
      as Hfetch.
    { intros pos. unfold fetch_page, bind at 1, get. unfold bind.
      destruct (_query E _ _ w) as [w1 [j|e0|]] eqn:Hq.
      - destruct (entities_of j _); discriminate.
      - intros [= _ <-]. exact (query_raises E _ _ _ _ _ Hq).
      - discriminate. }
    destruct (g_state g) as [|pos n|]; [apply Hfetch | | discriminate].
    destruct (_ <? _)%N; [discriminate | apply Hfetch].
  - intros self query w w' e Hrun.
    destruct (query_raises E _ _ _ _ _ Hrun) as [H|[H|H]];
      destruct e as [c s]; unfold isinstance in *; cbn [exn_cls] in *;
      [destruct c; try discriminate; reflexivity | subst c; reflexivity
      | subst c; reflexivity].
Qed.

Lemma what_the_api_layer_raises_witness :
  let self := set_access_token (set_server_url ApiBase_init "https://api") (Some "at-1") in
  snd (_query outage_env self "SELECT * FROM Customer" demo_world)
    = Raise (mkExn ServerError "Server error (503): Service Unavailable")
  /\ (isinstance (mkExn ServerError "Server error (503): Service Unavailable") QBOSDKError
       = true
      \/ ServerError = TypeError \/ ServerError = AttributeError).
Proof.
  split; [vm_compute; reflexivity|].
  apply (proj1 (what_the_api_layer_raises outage_env)
           (set_access_token (set_server_url ApiBase_init "https://api") (Some "at-1"))
           "SELECT * FROM Customer" demo_world
           (fst (_query outage_env
                   (set_access_token (set_server_url ApiBase_init "https://api")
                      (Some "at-1"))
                   "SELECT * FROM Customer" demo_world))).
  vm_compute. reflexivity.
Defined.

(** ** Further properties of the token manager *)

Section TokenRuns.

Context (E : Env).

(** The run of [_refresh_tokens] up to the answer of the identity provider. *)
Lemma refresh_tokens_answer w r :
  token_endpoint E (trace w) (_refresh_token (client w)) = Response r ->
  status_code r = 200%Z ->
  _refresh_tokens E w =
    match json r with
    | None =>
        (with_trace w (trace w ++ [EvTokenPost (_refresh_token (client w))])%list,
         Raise (mkExn JSONDecodeError (decode_error r)))
    | Some token_data =>
        (a <- subscript "access_token" (j_access_token token_data) ;;
         update_client (fun self => set_sdk_access_token self a) ;;;
         rt <- subscript "refresh_token" (j_refresh_token token_data) ;;
         update_client (fun self => set_sdk_refresh_token self rt) ;;;
         t <- now E ;;
         expires_at <- lift_sum (expires_at_of E t (match j_expires_in token_data with
                                                    | Some v => v
                                                    | None => VInt 3600
                                                    end)) ;;
         update_client (fun self => set_sdk_expires_at self expires_at) ;;;
         update_client _update_api_tokens ;;;
         w' <- get ;;
         match _on_token_refresh (client w') with
         | Some pk =>
             log (EvTokenCallback a rt expires_at) ;;;
             on_token_refresh pk a rt expires_at
         | None => ret tt
         end)
          (with_trace w (trace w ++ [EvTokenPost (_refresh_token (client w))])%list)
    end.
Proof.
  intros Hq Hs. unfold _refresh_tokens, bind at 1, get. unfold bind at 1, log, modify.
  rewrite Hq, Hs. cbn [Z.eqb Pos.eqb negb]. destruct (json r); reflexivity.
Qed.

(** What the computation of the expiry raises: [TypeError] when
    [expires_in] is not a number, [OverflowError] when it is an integer
    and the [timedelta] or the sum is out of range, which a number of
    days above 999999999 is. *)
Lemma expires_at_of_raises t v e :
  expires_at_of E t v = inr e ->
  match v with
  | VInt _ | VBool _ => exn_cls e = OverflowError
  | VFloat _ _ => True
  | _ => exn_cls e = TypeError
  end.
Proof.
  unfold expires_at_of, timedelta, and_then, datetime_add.
  destruct v as [| b | n | l z | s | l | d]; try (intros [= <-]; reflexivity); auto;
    repeat match goal with
           | |- context [if ?b then _ else _] => destruct b
           end; try (intros [= <-]; reflexivity); discriminate.
Qed.

Lemma expires_at_of_too_long t n :
  (999999999 < n / 86400)%Z -> exists e, expires_at_of E t (VInt n) = inr e.
Proof.
  intros H. unfold expires_at_of, timedelta, and_then.
  destruct (_ || _); [eexists; reflexivity|].
  assert (((n / 86400 <? -999999999) || (999999999 <? n / 86400))%Z = true) as ->
    by (apply orb_true_iff; right; now apply Z.ltb_lt).
  eexists; reflexivity.
Qed.

End TokenRuns.

(** X4.  What a refresh that the identity provider answers with a 200
    leaves behind when the answer is incomplete.  Without [access_token]
    it raises [KeyError] and client and database are as before.  With
    [access_token] but without [refresh_token] it raises [KeyError] after
    the client's own access token has been replaced: the refresh token,
    the expiry and the tokens of the API resources are still the old ones,
    and nothing is persisted.  With both tokens and an [expires_in] for
    which [now + timedelta(seconds=expires_in)] raises ([TypeError] for
    [null], a string, a list or an object, [OverflowError] for an integer
    out of range), that exception leaves the method after both tokens of
    the client have been replaced: the expiry and the tokens of the API
    resources are the old ones, the callback is not invoked, and nothing
    is persisted.  With both tokens and an expiry, but with the account
    row gone, the client is updated in full and the callback raises
    [DoesNotExist], the database being as before. *)
Theorem incomplete_refresh_answers (E : Env) (w : world)
  (resp : response token_json) (j : token_json) :
  token_endpoint E (trace w) (_refresh_token (client w)) = Response resp ->
  status_code resp = 200%Z ->
  json resp = Some j ->
  let self := client w in
  let posted := with_trace w (trace w ++ [EvTokenPost (_refresh_token self)])%list in
  let expires_in := match j_expires_in j with Some v => v | None => VInt 3600 end in
  (j_access_token j = None ->
   _refresh_tokens E w = (posted, Raise (mkExn KeyError "'access_token'")))
  /\ (forall a,
        j_access_token j = Some a -> j_refresh_token j = None ->
        _refresh_tokens E w
          = (with_client posted (set_sdk_access_token self a),
             Raise (mkExn KeyError "'refresh_token'"))
        /\ _refresh_token (set_sdk_access_token self a) = _refresh_token self
        /\ _token_expires_at (set_sdk_access_token self a) = _token_expires_at self
        /\ customers (set_sdk_access_token self a) = customers self
        /\ invoices (set_sdk_access_token self a) = invoices self)
  /\ (forall a rt e,
        j_access_token j = Some a -> j_refresh_token j = Some rt ->
        expires_at_of E (clock E (trace posted)) expires_in = inr e ->
        let self' := set_sdk_refresh_token (set_sdk_access_token self a) rt in
        _refresh_tokens E w = (with_client posted self', Raise e)
        /\ match expires_in with
           | VInt _ | VBool _ => exn_cls e = OverflowError
           | VFloat _ _ => True
           | _ => exn_cls e = TypeError
           end
        /\ _access_token self' = Some a
        /\ _refresh_token self' = rt
        /\ _token_expires_at self' = _token_expires_at self
        /\ customers self' = customers self
        /\ invoices self' = invoices self
        /\ accounts (with_client posted self') = accounts w
        /\ trace (with_client posted self') = trace posted)
  /\ (forall n, (999999999 < n / 86400)%Z ->
        exists e, expires_at_of E (clock E (trace posted)) (VInt n) = inr e)
  /\ (forall a rt pk expires_at,
        j_access_token j = Some a -> j_refresh_token j = Some rt ->
        expires_at_of E (clock E (trace posted)) expires_in = inl expires_at ->
        _on_token_refresh self = Some pk ->
        QBOAccount.first_by_realm pk (accounts w) = None ->
        _refresh_tokens E w
          = (with_client
               (with_trace w (trace posted ++ [EvTokenCallback a rt expires_at])%list)
               (refreshed self a rt expires_at),
             Raise (mkExn DoesNotExist "QBOAccount matching query does not exist."))).
Proof.
  intros Hq Hs Hj self posted expires_in.
  rewrite (refresh_tokens_answer E w resp Hq Hs), Hj.
  fold self posted expires_in. split; [|split; [|split; [|split]]].
  - intros Ha. rewrite Ha. reflexivity.
  - intros a Ha Hrt. rewrite Ha, Hrt. repeat split.
  - intros a rt e Ha Hrt Hexp self'. rewrite Ha, Hrt.
    split; [|split; [exact (expires_at_of_raises E _ _ _ Hexp) | repeat split]].
    subst posted. cbn [trace with_trace] in Hexp.
    unfold subscript, bind, update_client, log, modify, now, ret, get, lift_sum.
    cbn [client with_client trace with_trace accounts fst snd].
    fold self. rewrite Hexp. reflexivity.
  - intros n Hn. now apply expires_at_of_too_long.
  - intros a rt pk expires_at Ha Hrt Hexp Hcb Hrow. rewrite Ha, Hrt.
    subst posted. cbn [trace with_trace] in Hexp.
    unfold subscript, bind, update_client, log, modify, now, ret, get, on_token_refresh,
      lift_sum.
    cbn [client with_client trace with_trace accounts fst snd].
    fold self. rewrite Hexp.
    cbn [client with_client trace with_trace accounts fst snd
         _on_token_refresh _update_api_tokens set_sdk_expires_at
         set_sdk_refresh_token set_sdk_access_token].
    fold self. rewrite Hcb. cbn [accounts with_client with_trace trace fst snd].
    rewrite Hrow. reflexivity.
Qed.

(** An answer with an access token and no refresh token; and an answer
    with both tokens whose [expires_in] is 10 to the 20. *)
Lemma incomplete_refresh_answers_witness :
  (let w := with_client demo_world
              (create_client_for_account partial_token_env
                 (demo_account "realm-ok" "rt-good" false)) in
   let run := _refresh_tokens partial_token_env w in
   snd run = Raise (mkExn KeyError "'refresh_token'")
   /\ _access_token (client (fst run)) = Some "at-2"
   /\ api_access_token (customers (client (fst run))) = None
   /\ accounts (fst run) = accounts w)
  /\ (let w := with_client demo_world
                 (create_client_for_account long_lived_env
                    (demo_account "realm-ok" "rt-good" false)) in
      let run := _refresh_tokens long_lived_env w in
      snd run = Raise (mkExn OverflowError "Python int too large to convert to C int")
      /\ _access_token (client (fst run)) = Some "at-3"
      /\ _refresh_token (client (fst run)) = "rt-good+"
      /\ _token_expires_at (client (fst run)) = None
      /\ api_access_token (customers (client (fst run))) = None
      /\ accounts (fst run) = accounts w
      /\ trace (fst run) = [EvTokenPost "rt-good"]).
Proof.
  cbv zeta. split.
  - destruct (proj1 (proj2
                (incomplete_refresh_answers partial_token_env
                   (with_client demo_world
                      (create_client_for_account partial_token_env
                         (demo_account "realm-ok" "rt-good" false)))
                   _ _ eq_refl eq_refl eq_refl))
                "at-2" eq_refl eq_refl) as (Hrun & _).
    rewrite Hrun. repeat split.
  - destruct (proj1 (proj2 (proj2
                (incomplete_refresh_answers long_lived_env
                   (with_client demo_world
                      (create_client_for_account long_lived_env
                         (demo_account "realm-ok" "rt-good" false)))
                   _ _ eq_refl eq_refl eq_refl)))
                "at-3" "rt-good+"
                (mkExn OverflowError "Python int too large to convert to C int")
                eq_refl eq_refl eq_refl) as (Hrun & _).
    rewrite Hrun. repeat split.
Defined.

Lemma create_client_refresh_token E account :
  _refresh_token (create_client_for_account E account) = QBOAccount.refresh_token account.
Proof.
  unfold create_client_for_account, QuickBooksOnlineSDK_init.
  destruct (truthy _); reflexivity.
Qed.

Lemma create_client_callback E account :
  _on_token_refresh (create_client_for_account E account)
    = Some (QBOAccount.realm_id account).
Proof.
  unfold create_client_for_account, QuickBooksOnlineSDK_init.
  destruct (truthy _); reflexivity.
Qed.

Lemma first_by_realm_save_other f pk rid tbl :
  rid <> pk ->
  (forall a, QBOAccount.realm_id (f a) = QBOAccount.realm_id a) ->
  QBOAccount.first_by_realm rid (QBOAccount.save f pk tbl)
    = QBOAccount.first_by_realm rid tbl.
Proof.
  intros Hrid Hf. unfold QBOAccount.first_by_realm, QBOAccount.save.
  induction tbl as [|x tbl IH]; [reflexivity|]. cbn [map find].
  destruct (String.eqb (QBOAccount.realm_id x) pk) eqn:Hx.
  - rewrite Hf. apply String.eqb_eq in Hx. rewrite Hx.
    apply String.eqb_neq in Hrid. rewrite String.eqb_sym, Hrid. exact IH.
  - destruct (String.eqb (QBOAccount.realm_id x) rid); [reflexivity | exact IH].
Qed.

(** X5.  Refreshed tokens survive the client: when the client that
    [create_client_for_account] built for a stored account refreshes its
    tokens, the answer being a 200 with both tokens and an [expires_in]
    from which the expiry can be computed, the account row afterwards
    holds the new access token, refresh token and expiry and is not
    flagged, the other rows are as they were, and the client that
    [create_client_for_account] builds from the stored row is the
    refreshed client itself. *)
Theorem refreshed_tokens_are_persisted (E : Env) (w : world)
  (account stored : QBOAccount.t) (resp : response token_json) (j : token_json)
  (a rt : string) (expires_at : datetime) :
  client w = create_client_for_account E account ->
  QBOAccount.first_by_realm (QBOAccount.realm_id account) (accounts w) = Some stored ->
  token_endpoint E (trace w) (QBOAccount.refresh_token account) = Response resp ->
  status_code resp = 200%Z ->
  json resp = Some j ->
  j_access_token j = Some a ->
  j_refresh_token j = Some rt ->
  a <> "" ->
  expires_at_of E
    (clock E (trace w ++ [EvTokenPost (QBOAccount.refresh_token account)])%list)
    (match j_expires_in j with Some v => v | None => VInt 3600 end)
    = inl expires_at ->
  exists w',
    _refresh_tokens E w = (w', Ret tt)
    /\ QBOAccount.first_by_realm (QBOAccount.realm_id account) (accounts w')
       = Some (QBOAccount.with_tokens stored a rt expires_at)
    /\ QBOAccount.is_token_expired (QBOAccount.with_tokens stored a rt expires_at) = false
    /\ client w' = create_client_for_account E (QBOAccount.with_tokens stored a rt expires_at)
    /\ (forall rid, rid <> QBOAccount.realm_id account ->
          QBOAccount.first_by_realm rid (accounts w')
            = QBOAccount.first_by_realm rid (accounts w)).
Proof.
  intros Hc Hrow Hq Hs Hj Ha Hrt Hne Hexp.
  pose proof (create_client_refresh_token E account) as Hr.
  pose proof (create_client_callback E account) as Hcb.
  rewrite <- Hc in Hr, Hcb. rewrite <- Hr in Hq, Hexp.
  rewrite (refresh_tokens_answer E w resp Hq Hs), Hj, Ha, Hrt.
  unfold subscript, bind, update_client, log, modify, now, ret, get, on_token_refresh,
    lift_sum.
  cbn [client with_client trace with_trace accounts fst snd].
  rewrite Hexp.
  cbn [client with_client trace with_trace accounts fst snd
       _on_token_refresh _update_api_tokens set_sdk_expires_at
       set_sdk_refresh_token set_sdk_access_token].
  rewrite Hcb. cbn [accounts with_client with_trace trace fst snd]. rewrite Hrow.
  eexists. split; [reflexivity|].
  cbn [accounts with_accounts client].
  split; [|split; [reflexivity|split]].
  - rewrite first_by_realm_save by reflexivity. now rewrite Hrow.
  - rewrite Hc. pose proof (first_by_realm_realm _ _ _ Hrow) as Hrid.
    unfold create_client_for_account, QuickBooksOnlineSDK_init, QBOAccount.with_tokens.
    cbn [QBOAccount.realm_id QBOAccount.refresh_token QBOAccount.access_token
         QBOAccount.access_token_expires_at].
    rewrite Hrid.
    assert (truthy (Some a) = true) as ->
      by (simpl; apply negb_true_iff, String.eqb_neq, Hne).
    destruct (truthy (QBOAccount.access_token account)); reflexivity.
  - intros rid Hrid. now apply first_by_realm_save_other.
Qed.

Lemma refreshed_tokens_are_persisted_witness :
  let account := demo_account "realm-ok" "rt-good" false in
  let w := demo_world_for account in
  exists w',
    _refresh_tokens demo_env w = (w', Ret tt)
    /\ QBOAccount.first_by_realm "realm-ok" (accounts w')
       = Some (QBOAccount.with_tokens account "at-1" "rt-good+" 1710003600000000%Z)
    /\ client w'
       = create_client_for_account demo_env
           (QBOAccount.with_tokens account "at-1" "rt-good+" 1710003600000000%Z).
Proof.
  cbv zeta.
  destruct (refreshed_tokens_are_persisted demo_env
              (demo_world_for (demo_account "realm-ok" "rt-good" false))
              (demo_account "realm-ok" "rt-good" false)
              (demo_account "realm-ok" "rt-good" false)
              _ _ "at-1" "rt-good+" 1710003600000000%Z
              eq_refl eq_refl eq_refl eq_refl eq_refl eq_refl eq_refl
              ltac:(discriminate) eq_refl)
    as (w' & Hrun & Hrow & _ & Hclient & _).
  exists w'. repeat split; assumption.
Defined.

(** ** Outcomes of [sync_account] *)

Section AccountOutcomes.

Context (E : Env).

(** [_sync_object_type] raises the revoked error or nothing. *)
Lemma sync_object_type_raises fuel account config w w' e :
  _sync_object_type E fuel account config w = (w', Raise e) -> e = revoked_error.
Proof.
  unfold _sync_object_type, try_except, bind at 1.
  destruct (getattr_sync E (snd config) fuel account w) as [w1 [r|e0|]];
    try discriminate.
  destruct (isinstance e0 InvalidGrantError); [|discriminate].
  unfold bind, revoke, modify, raise. now intros [= _ <-].
Qed.

(** The loop over [SYNC_CONFIG], written out. *)
Lemma sync_configs_run fuel account w :
  sync_configs E fuel account SYNC_CONFIG initial_results w =
    (r1 <- _sync_object_type E fuel account ("customers", m_sync_customers) ;;
     r2 <- _sync_object_type E fuel account ("invoices", m_sync_invoices) ;;
     ret [("customers", r1); ("invoices", r2)]) w.
Proof.
  unfold sync_configs, SYNC_CONFIG, initial_results. cbn [for_each fold_left fst].
  unfold bind, ret.
  destruct (_sync_object_type E fuel account ("customers", m_sync_customers) w)
    as [w1 [r1|e|]]; [|reflexivity..].
  destruct (_sync_object_type E fuel account ("invoices", m_sync_invoices) w1)
    as [w2 [r2|e|]]; reflexivity.
Qed.

(** [sync_account] for an account that is stored and not flagged. *)
Lemma sync_account_run fuel realm w account :
  QBOAccount.first_by_realm realm (accounts w) = Some account ->
  QBOAccount.is_token_expired account = false ->
  sync_account E fuel realm w =
    (r1 <- _sync_object_type E fuel account ("customers", m_sync_customers) ;;
     r2 <- _sync_object_type E fuel account ("invoices", m_sync_invoices) ;;
     ret {| a_realm_id := realm;
            a_success := String.eqb (r_status r1) "success"
                         && String.eqb (r_status r2) "success";
            a_error := None;
            a_types := [("customers", r1); ("invoices", r2)] |})
      (with_client w (create_client_for_account E account)).
Proof.
  intros Hfind Hflag.
  unfold sync_account, try_except at 1, bind at 1, get. rewrite Hfind, Hflag.
  unfold bind at 1, try_except at 1, modify. unfold bind at 1.
  rewrite sync_configs_run. set (w0 := with_client w _).
  unfold bind, ret.
  destruct (_sync_object_type E fuel account ("customers", m_sync_customers) w0)
    as [w1 [r1|e|]] eqn:H1.
  - destruct (_sync_object_type E fuel account ("invoices", m_sync_invoices) w1)
      as [w2 [r2|e|]] eqn:H2.
    + unfold all_success, SYNC_CONFIG. cbn. now rewrite andb_true_r.
    + now rewrite (sync_object_type_raises _ _ _ _ _ _ H2).
    + reflexivity.
  - now rewrite (sync_object_type_raises _ _ _ _ _ _ H1).
  - reflexivity.
Qed.

Lemma sync_account_raises fuel realm w w' e :
  sync_account E fuel realm w = (w', Raise e) ->
  (QBOAccount.first_by_realm realm (accounts w) = None
   /\ w' = w
   /\ e = mkExn AccountNotFoundError ("Account with realm_id=" ++ realm ++ " not found"))
  \/ exn_cls e = RevokedRefreshTokenError.
Proof.
  destruct (QBOAccount.first_by_realm realm (accounts w)) as [account|] eqn:Hfind.
  - destruct (QBOAccount.is_token_expired account) eqn:Hflag.
    + unfold sync_account, try_except, bind, get. rewrite Hfind, Hflag.
      intros [= _ <-]. now right.
    + rewrite (sync_account_run fuel realm w account Hfind Hflag).
      unfold bind, ret. set (w0 := with_client w _).
      destruct (_sync_object_type E fuel account ("customers", m_sync_customers) w0)
        as [w1 [r1|e1|]] eqn:H1; try discriminate.
      * destruct (_sync_object_type E fuel account ("invoices", m_sync_invoices) w1)
          as [w2 [r2|e2|]] eqn:H2; try discriminate.
        intros [= _ <-]. right.
        now rewrite (sync_object_type_raises _ _ _ _ _ _ H2).
      * intros [= _ <-]. right.
        now rewrite (sync_object_type_raises _ _ _ _ _ _ H1).
  - unfold sync_account, try_except, bind, get. rewrite Hfind.
    intros [= <- <-]. left. auto.
Qed.

End AccountOutcomes.

(** X7.  [sync_account] raises [AccountNotFoundError] exactly when no
    account has the realm id, and then leaves everything as it is;
    whatever else it raises is a [RevokedRefreshTokenError]: every other
    failure of an object type's sync ends inside that object type's
    result.  When it returns, the result carries the realm id, one entry
    for customers and one for invoices, in that order, and [success] is
    set exactly when both entries have the status [success]. *)
Theorem sync_account_outcomes (E : Env) (fuel : nat) (realm : string) (w : world) :
  (QBOAccount.first_by_realm realm (accounts w) = None ->
   sync_account E fuel realm w
     = (w, Raise (mkExn AccountNotFoundError
                    ("Account with realm_id=" ++ realm ++ " not found"))))
  /\ (forall w' e,
        sync_account E fuel realm w = (w', Raise e) ->
        (exn_cls e = AccountNotFoundError
         /\ QBOAccount.first_by_realm realm (accounts w) = None)
        \/ exn_cls e = RevokedRefreshTokenError)
  /\ (forall w' result,
        sync_account E fuel realm w = (w', Ret result) ->
        a_realm_id result = realm
        /\ a_error result = None
        /\ exists r1 r2,
             a_types result = [("customers", r1); ("invoices", r2)]
             /\ a_success result
                = String.eqb (r_status r1) "success"
                  && String.eqb (r_status r2) "success").
Proof.
  split; [|split].
  - intros Hfind. unfold sync_account, try_except, bind, get. now rewrite Hfind.
  - intros w' e Hrun.
    destruct (sync_account_raises E fuel realm w w' e Hrun) as [(Hf & _ & ->)|H]; auto.
  - intros w' result.
    destruct (QBOAccount.first_by_realm realm (accounts w)) as [account|] eqn:Hfind.
    + destruct (QBOAccount.is_token_expired account) eqn:Hflag.
      * unfold sync_account, try_except, bind, get. rewrite Hfind, Hflag. discriminate.
      * rewrite (sync_account_run E fuel realm w account Hfind Hflag).
        unfold bind, ret. set (w0 := with_client w _).
        destruct (_sync_object_type E fuel account ("customers", m_sync_customers) w0)
          as [w1 [r1|e1|]]; try discriminate.
        destruct (_sync_object_type E fuel account ("invoices", m_sync_invoices) w1)
          as [w2 [r2|e2|]]; try discriminate.
        intros [= _ <-]. cbn. repeat split. exists r1, r2. split; reflexivity.
    + unfold sync_account, try_except, bind, get. rewrite Hfind. discriminate.
Qed.

Lemma sync_account_outcomes_witness :
  sync_account demo_env 10 "realm-unknown" demo_world
    = (demo_world,
       Raise (mkExn AccountNotFoundError "Account with realm_id=realm-unknown not found")).
Proof.
  apply (proj1 (sync_account_outcomes demo_env 10 "realm-unknown" demo_world)).
  reflexivity.
Defined.

(** X8.  The object types of an account fail independently: when the
    customers sync raises anything but [InvalidGrantError], the error ends
    in the customers entry ([failed], count 0, the message), the invoices
    sync is still run, from the state the customers sync left, and the
    account's result is not a success. *)
Theorem object_types_fail_independently (E : Env) (fuel : nat) (realm : string)
  (w w1 : world) (account : QBOAccount.t) (e : exn) :
  QBOAccount.first_by_realm realm (accounts w) = Some account ->
  QBOAccount.is_token_expired account = false ->
  sync_customers E fuel account (with_client w (create_client_for_account E account))
    = (w1, Raise e) ->
  isinstance e InvalidGrantError = false ->
  sync_account E fuel realm w =
    (r2 <- _sync_object_type E fuel account ("invoices", m_sync_invoices) ;;
     ret {| a_realm_id := realm; a_success := false; a_error := None;
            a_types :=
              [("customers",
                {| r_status := "failed"; r_count := 0; r_checkpoint := None;
                   r_error := Some (exn_str e) |});
               ("invoices", r2)] |}) w1.
Proof.
  intros Hfind Hflag Hrun He.
  rewrite (sync_account_run E fuel realm w account Hfind Hflag).
  unfold bind at 1.
  assert (_sync_object_type E fuel account ("customers", m_sync_customers)
            (with_client w (create_client_for_account E account))
          = (w1, Ret {| r_status := "failed"; r_count := 0; r_checkpoint := None;
                        r_error := Some (exn_str e) |})) as ->.
  { unfold _sync_object_type, try_except, bind. cbn [snd getattr_sync].
    rewrite Hrun, He. reflexivity. }
  reflexivity.
Qed.

Lemma object_types_fail_independently_witness :
  let account := demo_account "realm-ok" "rt-good" false in
  exists w1 w2 r2,
    sync_customers outage_env 10 account
      (with_client demo_world (create_client_for_account outage_env account))
      = (w1, Raise (mkExn ServerError "Server error (503): Service Unavailable"))
    /\ sync_account outage_env 10 "realm-ok" demo_world
       = (w2, Ret {| a_realm_id := "realm-ok"; a_success := false; a_error := None;
                     a_types :=
                       [("customers",
                         {| r_status := "failed"; r_count := 0; r_checkpoint := None;
                            r_error := Some "Server error (503): Service Unavailable" |});
                        ("invoices", r2)] |})
    /\ gets (trace w1) = 3 /\ gets (trace w2) = 6.
Proof.
  cbv zeta.
  pose (account := demo_account "realm-ok" "rt-good" false).
  pose (w0 := with_client demo_world (create_client_for_account outage_env account)).
  pose (w1 := fst (sync_customers outage_env 10 account w0)).
  pose (run2 := _sync_object_type outage_env 10 account ("invoices", m_sync_invoices) w1).
  assert (sync_customers outage_env 10 account w0
          = (w1, Raise (mkExn ServerError "Server error (503): Service Unavailable")))
    as Hrun by (vm_compute; reflexivity).
  exists w1, (fst run2),
    {| r_status := "failed"; r_count := 0; r_checkpoint := None;
       r_error := Some "Server error (503): Service Unavailable" |}.
  split; [exact Hrun|].
  split; [|split; vm_compute; reflexivity].
  rewrite (object_types_fail_independently outage_env 10 "realm-ok" demo_world w1
             account _ eq_refl eq_refl Hrun eq_refl).
  vm_compute. reflexivity.
Defined.

(** ** The views *)

Lemma all_counted {A} (p : A -> bool) l :
  Nat.eqb (List.length (filter p l)) (List.length l) = forallb p l.
Proof.
  assert (forall l, List.length (filter p l) <= List.length l) as Hle.
  { intros l0. induction l0 as [|x l0 IH]; simpl; [lia|].
    destruct (p x); simpl; lia. }
  induction l as [|x l IH]; [reflexivity|]. simpl. destruct (p x); simpl.
  - exact IH.
  - apply Nat.eqb_neq. specialize (Hle l). lia.
Qed.

Lemma trigger_one E fuel realm_id w :
  truthy realm_id = true ->
  SyncTriggerView_post E fuel (inl realm_id) w =
    match sync_account E fuel (wm realm_id) w with
    | (w1, Ret result) =>
        (w1, Ret {| sr_status := 200; sr_success := a_success result;
                    sr_results := [result]; sr_error := None;
                    sr_requires_reauthorization := false |})
    | (w1, Raise e) =>
        if isinstance e AccountNotFoundError then
          (w1, Ret {| sr_status := 404; sr_success := false; sr_results := [];
                      sr_error := Some (exn_str e);
                      sr_requires_reauthorization := false |})
        else if isinstance e RevokedRefreshTokenError then
          (w1, Ret {| sr_status := 401; sr_success := false; sr_results := [];
                      sr_error := Some (exn_str e);
                      sr_requires_reauthorization := true |})
        else (w1, Raise e)
    | (w1, Diverge) => (w1, Diverge)
    end.
Proof.
  intros Hrid. unfold SyncTriggerView_post, is_valid, lift_sum. unfold bind at 1.
  rewrite Hrid. unfold try_except, bind, ret, raise.
  destruct (sync_account E fuel (wm realm_id) w) as [w1 [result|e|]]; try reflexivity.
  destruct (isinstance e AccountNotFoundError); [reflexivity|].
  destruct (isinstance e RevokedRefreshTokenError); reflexivity.
Qed.

Lemma trigger_all E fuel realm_id w :
  truthy realm_id = false ->
  SyncTriggerView_post E fuel (inl realm_id) w =
    match sync_all_accounts E fuel w with
    | (w1, Ret results) =>
        (w1, Ret {| sr_status := 200;
                    sr_success := Nat.eqb (List.length (filter a_success results))
                                          (List.length results);
                    sr_results := results; sr_error := None;
                    sr_requires_reauthorization := false |})
    | (w1, Raise e) =>
        if isinstance e AccountNotFoundError then
          (w1, Ret {| sr_status := 404; sr_success := false; sr_results := [];
                      sr_error := Some (exn_str e);
                      sr_requires_reauthorization := false |})
        else if isinstance e RevokedRefreshTokenError then
          (w1, Ret {| sr_status := 401; sr_success := false; sr_results := [];
                      sr_error := Some (exn_str e);
                      sr_requires_reauthorization := true |})
        else (w1, Raise e)
    | (w1, Diverge) => (w1, Diverge)
    end.
Proof.
  intros Hrid. unfold SyncTriggerView_post, is_valid, lift_sum. unfold bind at 1.
  rewrite Hrid. unfold try_except, bind, ret, raise.
  destruct (sync_all_accounts E fuel w) as [w1 [results|e|]]; try reflexivity.
  destruct (isinstance e AccountNotFoundError); [reflexivity|].
  destruct (isinstance e RevokedRefreshTokenError); reflexivity.
Qed.

(** X9.  [SyncTriggerView.post].  An exception that the framework raises
    while it parses and validates the request leaves the view as it is,
    and nothing is done.  On a valid request the view always answers.  For
    one account it answers 404 with the error text, touching nothing,
    exactly when no account has the realm id; 401 with
    [requires_reauthorization] when the account is or becomes revoked; and
    200 with the account's result otherwise.  Without a realm id (absent
    or blank) it syncs the fleet and answers 200 with one result per
    active account, [success] being set exactly when every result is a
    success, which includes the fleet without an active account. *)
Theorem sync_trigger_answers (E : Env) (fuel : nat) (request : option string + exn)
  (w : world) :
  let run := SyncTriggerView_post E fuel request w in
  (forall e, request = inr e -> run = (w, Raise e))
  /\ (forall realm_id,
        request = inl realm_id ->
        (forall e, snd run <> Raise e)
        /\ (truthy realm_id = true ->
            (QBOAccount.first_by_realm (wm realm_id) (accounts w) = None ->
             run = (w, Ret {| sr_status := 404; sr_success := false; sr_results := [];
                              sr_error := Some ("Account with realm_id=" ++ wm realm_id
                                                ++ " not found");
                              sr_requires_reauthorization := false |}))
            /\ (forall resp,
                  snd run = Ret resp ->
                  (sr_status resp = 404%Z
                   /\ QBOAccount.first_by_realm (wm realm_id) (accounts w) = None)
                  \/ (sr_status resp = 401%Z /\ sr_requires_reauthorization resp = true
                      /\ sr_success resp = false)
                  \/ (sr_status resp = 200%Z
                      /\ exists result,
                           snd (sync_account E fuel (wm realm_id) w) = Ret result
                           /\ sr_results resp = [result]
                           /\ sr_success resp = a_success result)))
        /\ (truthy realm_id = false ->
            forall resp,
              snd run = Ret resp ->
              sr_status resp = 200%Z
              /\ sr_success resp = forallb a_success (sr_results resp)
              /\ map a_realm_id (sr_results resp)
                 = map QBOAccount.realm_id
                       (QBOAccount.get_active_accounts (accounts w)))).
Proof.
  intros run. subst run. split; [intros e ->; reflexivity|].
  intros realm_id ->. destruct (truthy realm_id) eqn:Hrid.
  - rewrite (trigger_one E fuel realm_id w Hrid).
    assert (QBOAccount.first_by_realm (wm realm_id) (accounts w) = None ->
            sync_account E fuel (wm realm_id) w
              = (w, Raise (mkExn AccountNotFoundError
                             ("Account with realm_id=" ++ wm realm_id ++ " not found"))))
      as Hmissing.
    { intros Hnone. unfold sync_account, try_except, bind, get. now rewrite Hnone. }
    destruct (sync_account E fuel (wm realm_id) w) as [w1 [result|e|]] eqn:Hrun;
      cbn [fst snd].
    + split; [discriminate|]. split; [|discriminate]. intros _. split.
      * intros Hnone. specialize (Hmissing Hnone). discriminate.
      * intros resp [= <-]. right. right. split; [reflexivity|].
        exists result. auto.
    + destruct (sync_account_raises E fuel (wm realm_id) w w1 e Hrun)
        as [(Hnone & -> & ->)|Hcls].
      * change (isinstance (mkExn AccountNotFoundError _) AccountNotFoundError) with true.
        cbv iota. cbn [fst snd exn_str].
        split; [discriminate|]. split; [|discriminate]. intros _. split.
        -- intros _. reflexivity.
        -- intros resp [= <-]. left. auto.
      * destruct e as [c s]. simpl in Hcls. subst c.
        change (isinstance (mkExn RevokedRefreshTokenError s) AccountNotFoundError)
          with false.
        change (isinstance (mkExn RevokedRefreshTokenError s) RevokedRefreshTokenError)
          with true.
        cbv iota. cbn [fst snd].
        split; [discriminate|]. split; [|discriminate]. intros _. split.
        -- intros Hnone. specialize (Hmissing Hnone). discriminate.
        -- intros resp [= <-]. right. left. auto.
    + split; [discriminate|]. split; [|discriminate]. intros _. split.
      * intros Hnone. specialize (Hmissing Hnone). discriminate.
      * discriminate.
  - rewrite (trigger_all E fuel realm_id w Hrid).
    pose proof (fleet_loop_never_raises E fuel
                  (QBOAccount.get_active_accounts (accounts w)) [] w) as Hraise.
    pose proof (fleet_loop_realms E fuel
                  (QBOAccount.get_active_accounts (accounts w)) [] w) as Hrealms.
    rewrite <- sync_all_accounts_loop in Hraise, Hrealms.
    destruct (sync_all_accounts E fuel w) as [w1 [results|e|]]; cbn [fst snd] in *.
    + split; [discriminate|]. split; [discriminate|]. intros _.
      intros resp [= <-]. cbn.
      split; [reflexivity|]. split; [apply all_counted|].
      exact (Hrealms results eq_refl).
    + exfalso. now apply (Hraise e).
    + split; [discriminate|]. split; discriminate.
Qed.

Lemma sync_trigger_answers_witness :
  SyncTriggerView_post demo_env 10 (inl (Some "realm-unknown")) demo_world
    = (demo_world,
       Ret {| sr_status := 404; sr_success := false; sr_results := [];
              sr_error := Some "Account with realm_id=realm-unknown not found";
              sr_requires_reauthorization := false |})
  /\ option_map sr_status
       (match snd (SyncTriggerView_post demo_env 10 (inl (Some "realm-bad")) demo_world) with
        | Ret resp => Some resp
        | _ => None
        end) = Some 401%Z.
Proof.
  split.
  - apply (proj1 (proj1 (proj2 (proj2 (sync_trigger_answers demo_env 10
                                        (inl (Some "realm-unknown")) demo_world)
                                 (Some "realm-unknown") eq_refl)) eq_refl)).
    reflexivity.
  - vm_compute. reflexivity.
Defined.

(** X10.  [custom_exception_handler] hands on the framework's own
    response when there is one.  Otherwise it answers 404, 401, 502 or
    500; the text of the exception is in the answer for the first three,
    and never for a 500, whose text is fixed.  What the API layer raises
    is answered 401 when it is an [AuthenticationError], 502 when it is
    another [QBOSDKError], a [NotFoundError] of the remote system
    included, and 500 when it is the [TypeError] or [AttributeError] of an
    error body that could not be read; whatever [sync_account] raises is
    answered 404 or 401. *)
Theorem exception_handler_answers :
  (forall (R : Type) (r : R) exc, custom_exception_handler (Some r) exc = inl r)
  /\ (forall (R : Type) exc,
        exists resp,
          custom_exception_handler (@None R) exc = inr resp
          /\ In (err_status resp) [404; 401; 502; 500]%Z
          /\ (err_status resp = 500%Z -> err_error resp = "Internal server error")
          /\ (err_status resp <> 500%Z -> err_error resp = exn_str exc))
  /\ (forall (R : Type) E self query w w' e,
        _query E self query w = (w', Raise e) ->
        (isinstance e QBOSDKError = true
         /\ custom_exception_handler (@None R) e
            = inr {| err_status := if isinstance e AuthenticationError then 401 else 502;
                     err_error := exn_str e |})
        \/ ((exn_cls e = TypeError \/ exn_cls e = AttributeError)
            /\ custom_exception_handler (@None R) e
               = inr {| err_status := 500; err_error := "Internal server error" |}))
  /\ (forall (R : Type) s,
        custom_exception_handler (@None R) (mkExn NotFoundError s)
          = inr {| err_status := 502; err_error := s |})
  /\ (forall (R : Type) E fuel realm w w' e,
        sync_account E fuel realm w = (w', Raise e) ->
        custom_exception_handler (@None R) e
          = inr {| err_status := if isinstance e AccountNotFoundError then 404 else 401;
                   err_error := exn_str e |}).
Proof.
  split; [reflexivity|]. split; [|split; [|split; [reflexivity|]]].
  - intros R exc. unfold custom_exception_handler.
    destruct (isinstance exc AccountNotFoundError);
      [|destruct (_ || _); [|destruct (isinstance exc QBOSDKError)]];
      eexists; (split; [reflexivity|]); cbn;
      (split; [auto 10|]); split; intros H; try reflexivity; try discriminate;
      contradiction.
  - intros R E self query w w' e Hrun.
    destruct (query_raises E self query w w' e Hrun) as [Hsdk|Hcls].
    + left. split; [exact Hsdk|]. unfold custom_exception_handler. destruct e as [c s].
      destruct c; try discriminate Hsdk; reflexivity.
    + right. split; [exact Hcls|]. destruct e as [c s]. cbn [exn_cls] in Hcls.
      destruct Hcls as [-> | ->]; reflexivity.
  - intros R E fuel realm w w' e Hrun.
    destruct (sync_account_raises E fuel realm w w' e Hrun) as [(_ & _ & ->)|Hcls].
    + reflexivity.
    + destruct e as [c s]. simpl in Hcls. subst c. reflexivity.
Qed.

(** ** [get_sync_status] *)

Lemma get_key_set_key {V} k k' (v : V) d :
  get_key k' (set_key k v d) = if String.eqb k k' then Some v else get_key k' d.
Proof.
  unfold get_key. induction d as [|[k0 v0] d IH]; cbn [set_key find fst snd].
  - destruct (String.eqb k k'); reflexivity.
  - destruct (String.eqb k0 k) eqn:H0; cbn [find fst snd].
    + apply String.eqb_eq in H0. subst k0. destruct (String.eqb k k'); reflexivity.
    + destruct (String.eqb k0 k') eqn:H1.
      * apply String.eqb_eq in H1. subst k0. rewrite String.eqb_sym, H0. reflexivity.
      * exact IH.
Qed.

Lemma entity_name_eqb a b :
  String.eqb (entity_name a) (entity_name b) = ObjectType_eqb a b.
Proof. destruct a, b; reflexivity. Qed.

(** The entry that a dict built by successive assignments holds for an
    object type: that of the last state with the type. *)
Lemma sync_states_entry iso ty states : forall d,
  get_key (entity_name ty)
    (fold_left (fun d state =>
                  set_key (entity_name (SyncState.object_type state))
                          (report_of iso state) d) states d)
  = match find (fun s => ObjectType_eqb (SyncState.object_type s) ty) (rev states) with
    | Some s => Some (report_of iso s)
    | None => get_key (entity_name ty) d
    end.
Proof.
  induction states as [|s states IH]; intros d; [reflexivity|].
  cbn [fold_left rev]. rewrite IH, find_snoc.
  destruct (find _ (rev states)); [reflexivity|].
  rewrite get_key_set_key, entity_name_eqb.
  destruct (ObjectType_eqb (SyncState.object_type s) ty); reflexivity.
Qed.

Lemma find_filter {A} (p q : A -> bool) l :
  find p (filter q l) = find (fun x => q x && p x) l.
Proof.
  induction l as [|x l IH]; [reflexivity|]. simpl.
  destruct (q x); simpl; [destruct (p x)|]; auto.
Qed.

Lemma find_ext {A} (p q : A -> bool) l :
  (forall x, p x = q x) -> find p l = find q l.
Proof.
  intros H. induction l as [|x l IH]; [reflexivity|]. simpl. now rewrite H, IH.
Qed.

(** [get_sync_status] for a stored account, and its entry for an object
    type. *)
Lemma get_sync_status_entries iso realm w :
  (QBOAccount.first_by_realm realm (accounts w) = None ->
   get_sync_status iso realm w
     = (w, Raise (mkExn AccountNotFoundError ("Account not found: " ++ realm))))
  /\ (forall account,
        QBOAccount.first_by_realm realm (accounts w) = Some account ->
        exists rep,
          get_sync_status iso realm w = (w, Ret rep)
          /\ forall ty,
               get_key (entity_name ty) (st_sync_states rep)
               = option_map (report_of iso)
                   (find (SyncState.has_key realm ty) (rev (sync_states w)))).
Proof.
  split.
  - intros Hnone. unfold get_sync_status. now rewrite Hnone.
  - intros account Hfind. unfold get_sync_status. rewrite Hfind.
    rewrite (first_by_realm_realm _ _ _ Hfind).
    eexists. split; [reflexivity|]. cbn.
    intros ty. rewrite sync_states_entry, <- filter_rev, find_filter.
    rewrite (find_ext _ (SyncState.has_key realm ty))
      by (intros s0; unfold SyncState.has_key; now rewrite String.eqb_sym).
    destruct (find _ (rev (sync_states w))); reflexivity.
Qed.

(** X11.  [get_sync_status] raises [AccountNotFoundError] exactly when no
    account has the realm id.  Otherwise it returns, changing nothing, the
    realm id, the account's name and flag, the numbers of stored customers
    and invoices of the account, and for each object type the entry of the
    account's sync state (the last one stored for the type): status,
    instants, checkpoint, failure counter and error. *)
Theorem get_sync_status_reports (iso : datetime -> string) (realm : string)
  (w : world) :
  (QBOAccount.first_by_realm realm (accounts w) = None ->
   get_sync_status iso realm w
     = (w, Raise (mkExn AccountNotFoundError ("Account not found: " ++ realm))))
  /\ (forall account,
        QBOAccount.first_by_realm realm (accounts w) = Some account ->
        exists rep,
          get_sync_status iso realm w = (w, Ret rep)
          /\ st_realm_id rep = realm
          /\ st_company_name rep = QBOAccount.company_name account
          /\ st_is_token_expired rep = QBOAccount.is_token_expired account
          /\ st_customers rep
             = List.length (filter (fun r => String.eqb realm (Customer.account r))
                                   (customer_rows w))
          /\ st_invoices rep
             = List.length (filter (fun r => String.eqb realm (Invoice.account r))
                                   (invoice_rows w))
          /\ forall ty,
               get_key (entity_name ty) (st_sync_states rep)
               = option_map (report_of iso)
                   (find (fun s => String.eqb realm (SyncState.account s)
                                   && ObjectType_eqb (SyncState.object_type s) ty)
                         (rev (sync_states w)))).
Proof.
  split.
  - intros Hnone. unfold get_sync_status. now rewrite Hnone.
  - intros account Hfind. unfold get_sync_status. rewrite Hfind.
    rewrite (first_by_realm_realm _ _ _ Hfind).
    eexists. split; [reflexivity|]. cbn. repeat split.
    intros ty. rewrite sync_states_entry, <- filter_rev, find_filter.
    destruct (find _ (rev (sync_states w))); reflexivity.
Qed.

Lemma get_sync_status_reports_witness :
  exists rep,
    get_sync_status (fun t => dec_Z t) "realm-flagged" demo_world = (demo_world, Ret rep)
    /\ st_is_token_expired rep = true
    /\ st_customers rep = 0
    /\ get_sync_status (fun t => dec_Z t) "realm-unknown" demo_world
       = (demo_world, Raise (mkExn AccountNotFoundError "Account not found: realm-unknown")).
Proof.
  destruct (proj2 (get_sync_status_reports (fun t => dec_Z t) "realm-flagged" demo_world)
              (demo_account "realm-flagged" "rt-old" true) eq_refl)
    as (rep & Hrun & _ & _ & Hflag & Hc & _).
  exists rep. split; [exact Hrun|]. split; [exact Hflag|]. split; [exact Hc|].
  apply (proj1 (get_sync_status_reports (fun t => dec_Z t) "realm-unknown" demo_world)).
  reflexivity.
Defined.

(** ** Registering and re-authorizing an account *)

Lemma find_none_filter {A} (p : A -> bool) l : find p l = None -> filter p l = [].
Proof.
  induction l as [|x l IH]; [reflexivity|]. simpl.
  destruct (p x); [discriminate | exact IH].
Qed.

Lemma find_none_existsb {A} (p : A -> bool) l : find p l = None -> existsb p l = false.
Proof.
  induction l as [|x l IH]; [reflexivity|]. simpl.
  destruct (p x); [discriminate | exact IH].
Qed.

Lemma find_filter_one {A} (p : A -> bool) l x : filter p l = [x] -> find p l = Some x.
Proof.
  induction l as [|y l IH]; [discriminate|]. simpl.
  destruct (p y); [now intros [= ->] | exact IH].
Qed.

(** X12.  [QBOAccount.create_or_update] for a realm id that is not stored
    (and for which no sync state is): it appends the account, not flagged,
    with the given tokens and expiry and with the company name only if one
    is given, and creates one pending sync state per object type, without
    checkpoint.  The account is active as soon as its refresh token is not
    empty. *)
Theorem create_or_update_registers (E : Env) (realm refresh_token : string)
  (access_token : option string) (expires : option datetime)
  (company_name : option string) (w : world) :
  QBOAccount.first_by_realm realm (accounts w) = None ->
  (forall ty, SyncState.lookup realm ty (sync_states w) = None) ->
  let account :=
    {| QBOAccount.realm_id := realm;
       QBOAccount.company_name := if truthy company_name then company_name else None;
       QBOAccount.access_token := access_token;
       QBOAccount.refresh_token := refresh_token;
       QBOAccount.access_token_expires_at := expires;
       QBOAccount.is_token_expired := false |} in
  let pending ty :=
    {| SyncState.account := realm; SyncState.object_type := ty;
       SyncState.last_attempt_time := None;
       SyncState.last_successful_sync_time := None;
       SyncState.status := PENDING; SyncState.checkpoint := None;
       SyncState.error_message := None; SyncState.consecutive_failures := 0;
       SyncState.updated_at := clock E (trace w) |} in
  let w' :=
    with_sync_states (with_accounts w (accounts w ++ [account])%list)
      (sync_states w ++ [pending CUSTOMER; pending INVOICE])%list in
  create_or_update E realm refresh_token access_token expires company_name w
    = (w', Ret account)
  /\ QBOAccount.first_by_realm realm (accounts w') = Some account
  /\ (forall ty, SyncState.lookup realm ty (sync_states w') = Some (pending ty))
  /\ (refresh_token <> "" ->
      In account (QBOAccount.get_active_accounts (accounts w'))).
Proof.
  intros Hnone Hstates account pending w'.
  assert (create_or_update E realm refresh_token access_token expires company_name w
          = (w', Ret account)) as Hrun.
  { unfold create_or_update, QBOAccount_update_or_create.
    unfold QBOAccount.first_by_realm in Hnone. rewrite (find_none_filter _ _ Hnone).
    cbn [ObjectType_values for_each]. unfold bind, ret, SyncState_objects_create.
    cbn [QBOAccount.realm_id sync_states with_accounts trace].
    unfold SyncState_create.
    rewrite (find_none_existsb _ _ (Hstates CUSTOMER)).
    cbn [sync_states with_sync_states trace with_accounts].
    rewrite existsb_app, (find_none_existsb _ _ (Hstates INVOICE)).
    cbn [existsb SyncState.has_key SyncState.account SyncState.object_type
         ObjectType_eqb andb orb].
    unfold SyncState.has_key.
    cbn [SyncState.account SyncState.object_type ObjectType_eqb].
    rewrite andb_false_r. cbn [orb].
    unfold w', with_sync_states, with_accounts.
    cbn [accounts sync_states customer_rows invoice_rows client trace].
    rewrite <- app_assoc. reflexivity. }
  split; [exact Hrun|].
  assert (QBOAccount.first_by_realm realm (accounts w') = Some account) as Hfind.
  { unfold w'. cbn [accounts with_sync_states with_accounts].
    unfold QBOAccount.first_by_realm in *. rewrite find_snoc, Hnone.
    cbn [QBOAccount.realm_id]. now rewrite String.eqb_refl. }
  split; [exact Hfind|]. split.
  - intros ty. unfold w'. cbn [sync_states with_sync_states].
    unfold SyncState.lookup in *.
    change [pending CUSTOMER; pending INVOICE]
      with ([pending CUSTOMER] ++ [pending INVOICE])%list.
    rewrite app_assoc, !find_snoc, (Hstates ty).
    unfold SyncState.has_key, pending.
    cbn [SyncState.account SyncState.object_type].
    rewrite !String.eqb_refl. destruct ty; reflexivity.
  - intros Hrt. apply get_active_accounts_spec. split; [|split; [reflexivity|exact Hrt]].
    unfold QBOAccount.first_by_realm in Hfind. now apply find_some in Hfind.
Qed.

Lemma create_or_update_registers_witness :
  exists w' account,
    create_or_update demo_env "realm-new" "rt-new" (Some "at-new") None
      (Some "Acme") demo_world = (w', Ret account)
    /\ map QBOAccount.realm_id (QBOAccount.get_active_accounts (accounts w'))
       = ["realm-bad"; "realm-ok"; "realm-new"]
    /\ List.length (sync_states w') = 6.
Proof.
  destruct (create_or_update_registers demo_env "realm-new" "rt-new" (Some "at-new")
              None (Some "Acme") demo_world eq_refl
              ltac:(intros []; reflexivity))
    as (Hrun & _).
  eexists. eexists. split; [exact Hrun|]. split; reflexivity.
Defined.

(** X13.  [QBOAccount.create_or_update] for a stored realm id
    re-authorizes the account: the row gets the new tokens and expiry and
    is no longer flagged, its company name changes only if one is given,
    no row is added, the other accounts are as they were, and the sync
    states, with their checkpoints, and the stored records are untouched.
    The account is active again as soon as its refresh token is not
    empty. *)
Theorem create_or_update_reauthorizes (E : Env) (realm refresh_token : string)
  (access_token : option string) (expires : option datetime)
  (company_name : option string) (w : world) (stored : QBOAccount.t) :
  filter (fun a => String.eqb (QBOAccount.realm_id a) realm) (accounts w) = [stored] ->
  let account :=
    {| QBOAccount.realm_id := QBOAccount.realm_id stored;
       QBOAccount.company_name :=
         if truthy company_name then company_name else QBOAccount.company_name stored;
       QBOAccount.access_token := access_token;
       QBOAccount.refresh_token := refresh_token;
       QBOAccount.access_token_expires_at := expires;
       QBOAccount.is_token_expired := false |} in
  exists w',
    create_or_update E realm refresh_token access_token expires company_name w
      = (w', Ret account)
    /\ QBOAccount.first_by_realm realm (accounts w') = Some account
    /\ map QBOAccount.realm_id (accounts w') = map QBOAccount.realm_id (accounts w)
    /\ (forall rid, rid <> realm ->
          QBOAccount.first_by_realm rid (accounts w')
            = QBOAccount.first_by_realm rid (accounts w))
    /\ sync_states w' = sync_states w
    /\ customer_rows w' = customer_rows w
    /\ invoice_rows w' = invoice_rows w
    /\ trace w' = trace w
    /\ (refresh_token <> "" ->
        In account (QBOAccount.get_active_accounts (accounts w'))).
Proof.
  intros Hone account.
  set (set := fun a : QBOAccount.t =>
         {| QBOAccount.realm_id := QBOAccount.realm_id a;
            QBOAccount.company_name :=
              if truthy company_name then company_name else QBOAccount.company_name a;
            QBOAccount.access_token := access_token;
            QBOAccount.refresh_token := refresh_token;
            QBOAccount.access_token_expires_at := expires;
            QBOAccount.is_token_expired := false |}).
  exists (with_accounts w (QBOAccount.save set realm (accounts w))).
  assert (QBOAccount.first_by_realm realm
            (QBOAccount.save set realm (accounts w)) = Some account) as Hfind.
  { rewrite first_by_realm_save by reflexivity.
    unfold QBOAccount.first_by_realm. now rewrite (find_filter_one _ _ _ Hone). }
  split; [|split; [exact Hfind|split; [|split; [|repeat (split; [reflexivity|])]]]].
  - unfold create_or_update, QBOAccount_update_or_create. rewrite Hone.
    unfold bind, ret. reflexivity.
  - cbn [accounts with_accounts]. now apply QBOAccount_save_realms.
  - intros rid Hrid. cbn [accounts with_accounts].
    now apply first_by_realm_save_other.
  - intros Hrt. apply get_active_accounts_spec. split; [|split; [reflexivity|exact Hrt]].
    cbn [accounts with_accounts]. unfold QBOAccount.first_by_realm in Hfind.
    now apply find_some in Hfind.
Qed.

Lemma create_or_update_reauthorizes_witness :
  exists w' account,
    create_or_update demo_env "realm-flagged" "rt-fresh" (Some "at-fresh") None None
      demo_world = (w', Ret account)
    /\ map QBOAccount.realm_id (QBOAccount.get_active_accounts (accounts w'))
       = ["realm-bad"; "realm-ok"; "realm-flagged"]
    /\ sync_states w' = sync_states demo_world.
Proof.
  pose proof (create_or_update_reauthorizes demo_env "realm-flagged" "rt-fresh"
                (Some "at-fresh") None None demo_world
                (demo_account "realm-flagged" "rt-old" true) eq_refl) as H.
  cbv zeta in H. destruct H as (w' & Hrun & _ & _ & _ & Hs & _).
  exists w'. eexists. split; [exact Hrun|]. split; [|exact Hs].
  injection Hrun as <-. reflexivity.
Defined.

(** ** What [get_sync_status] reports after a sync *)

Lemma find_rev_save acc ty cols self tbl :
  find (SyncState.has_key acc ty) (rev (SyncState.save cols self tbl)) =
    option_map
      (fun r => if SyncState.has_key (SyncState.account self)
                                     (SyncState.object_type self) r
                then SyncState.write_columns cols self r else r)
      (find (SyncState.has_key acc ty) (rev tbl)).
Proof.
  unfold SyncState.save. rewrite <- map_rev. apply find_map_same.
  intros r. destruct (SyncState.has_key _ _ r); reflexivity.
Qed.

Lemma find_rev_some {A} (p : A -> bool) l x :
  find p l = Some x -> exists y, find p (rev l) = Some y /\ p y = true.
Proof.
  intros H. apply find_some in H. destruct H as [Hin Hp].
  destruct (find p (rev l)) as [y|] eqn:Hy.
  - exists y. split; [reflexivity|]. now apply find_some in Hy.
  - exfalso. apply in_rev in Hin. pose proof (find_none _ _ Hy x Hin) as Hn.
    congruence.
Qed.

Lemma find_rev_unique {A} (p : A -> bool) l :
  List.length (filter p l) <= 1 -> find p (rev l) = find p l.
Proof.
  induction l as [|x l IH]; [reflexivity|]. cbn [rev filter find]. rewrite find_snoc.
  destruct (p x) eqn:Hx; cbn [List.length]; intros Hlen.
  - destruct (filter p l) as [|y rest] eqn:Hf; [|simpl in Hlen; lia].
    rewrite IH by (simpl; lia).
    assert (find p l = None) as ->; [|reflexivity].
    destruct (find p l) as [z|] eqn:Hz; [|reflexivity].
    apply find_some in Hz. destruct Hz as [Hin Hp].
    assert (In z (filter p l)) as Hz by (apply filter_In; auto).
    rewrite Hf in Hz. destruct Hz.
  - rewrite (IH Hlen). now destruct (find p l).
Qed.

(** Where the key is unique, the last row with the key after
    [get_or_create] is the object it returned. *)
Lemma get_or_create_last t acc ty tbl :
  List.length (filter (SyncState.has_key acc ty) tbl) <= 1 ->
  find (SyncState.has_key acc ty) (rev (snd (SyncState.get_or_create t acc ty tbl)))
    = Some (fst (SyncState.get_or_create t acc ty tbl)).
Proof.
  intros Hu. unfold SyncState.get_or_create.
  destruct (SyncState.lookup acc ty tbl) as [r0|] eqn:Hl; cbn [fst snd].
  - now rewrite (find_rev_unique _ _ Hu).
  - rewrite rev_app_distr. cbn [rev app find].
    unfold SyncState.has_key at 1. cbn [SyncState.account SyncState.object_type].
    rewrite String.eqb_refl.
    replace (ObjectType_eqb ty ty) with true by (now destruct ty). reflexivity.
Qed.

Section StatusAfterSync.

Context (E : Env) (iso : datetime -> string).

(** The sync states after a sync of one object type that got past the
    token check: the table [get_or_create] and [mark_started] left, with
    one last [save]. *)
Lemma sync_type_states ty fuel account w w' res :
  sync_type E ty fuel account w = (w', res) ->
  res <> Diverge ->
  (forall e, ensure_token_valid E w <> (w', Raise e)) ->
  exists w1 t3,
    let acc := QBOAccount.realm_id account in
    let t1 := clock E (trace w1) in
    let s := fst (SyncState.get_or_create t1 acc ty (sync_states w)) in
    let tbl2 := snd (SyncState.get_or_create t1 acc ty (sync_states w)) in
    let s1 := fst (SyncState.mark_started t1 s tbl2) in
    let tbl3 := snd (SyncState.mark_started t1 s tbl2) in
    match res with
    | Ret st => sync_states w' = snd (SyncState.mark_success t3 s1 (snd st) tbl3)
    | Raise e => sync_states w' = snd (SyncState.mark_failed t3 s1 (exn_str e) tbl3)
    | Diverge => False
    end.
Proof.
  unfold sync_type. unfold bind at 1.
  pose proof (fr_ensure_token_valid E same_sync_states w) as H1.
  destruct (ensure_token_valid E w) as [w1 [[]|e|]] eqn:Hens; simpl in H1.
  - unfold bind at 1. rewrite on_sync_states_run.
    unfold bind at 1. rewrite on_sync_states_run.
    cbn [sync_states with_sync_states trace]. rewrite H1.
    set (t1 := clock E (trace w1)).
    set (s := fst (SyncState.get_or_create t1 _ ty (sync_states w))).
    set (tbl2 := snd (SyncState.get_or_create t1 _ ty (sync_states w))).
    set (s1 := fst (SyncState.mark_started t1 s tbl2)).
    set (tbl3 := snd (SyncState.mark_started t1 s tbl2)).
    set (w3 := with_sync_states (with_sync_states w1 tbl2) tbl3).
    unfold try_except, bind at 1.
    pose proof (fr_batches E same_sync_states ty (QBOAccount.realm_id account) fuel
                  (get_all_generator ty (SyncState.checkpoint s))
                  (0, SyncState.checkpoint s) w3) as H4.
    destruct (for_batches E fuel _ _ _ w3) as [w4 [st|e0|]]; simpl in H4.
    + unfold bind. rewrite on_sync_states_run. intros [= <- <-] _ _.
      exists w1, (clock E (trace w4)). cbn [sync_states with_sync_states].
      now rewrite H4.
    + unfold bind. rewrite on_sync_states_run. intros [= <- <-] _ _.
      exists w1, (clock E (trace w4)). cbn [sync_states with_sync_states].
      now rewrite H4.
    + intros [= _ <-] Hd. now contradiction Hd.
  - intros [= <- <-] _ Hne. now contradiction (Hne e).
  - intros [= _ <-] Hd. now contradiction Hd.
Qed.

End StatusAfterSync.

(** X14.  What [get_sync_status] reports for an object type after a sync
    of it.  After a sync that returned: the status [success], no error,
    no consecutive failure, both instants, and as checkpoint the one the
    sync returned, or the one stored before if that is empty.  After a
    sync that raised once the token check had passed: the status
    [failed], the text of the exception as error, one consecutive failure
    more than stored before, and the checkpoint stored before. *)
Theorem status_after_sync (E : Env) (iso : datetime -> string) (ty : ObjectType)
  (fuel : nat) (account stored : QBOAccount.t) (w w' : world) :
  let acc := QBOAccount.realm_id account in
  QBOAccount.first_by_realm acc (accounts w) = Some stored ->
  List.length (filter (SyncState.has_key acc ty) (sync_states w)) <= 1 ->
  (forall n c,
     sync_type E ty fuel account w = (w', Ret (n, c)) ->
     exists rep entry,
       get_sync_status iso acc w' = (w', Ret rep)
       /\ get_key (entity_name ty) (st_sync_states rep) = Some entry
       /\ rep_status entry = "success"
       /\ rep_error entry = None
       /\ rep_consecutive_failures entry = 0%Z
       /\ rep_checkpoint entry
          = (if truthy c then c else stored_checkpoint acc ty w)
       /\ rep_last_attempt entry <> None
       /\ rep_last_success entry <> None)
  /\ (forall w1 e,
        ensure_token_valid E w = (w1, Ret tt) ->
        sync_type E ty fuel account w = (w', Raise e) ->
        exists rep entry,
          get_sync_status iso acc w' = (w', Ret rep)
          /\ get_key (entity_name ty) (st_sync_states rep) = Some entry
          /\ rep_status entry = "failed"
          /\ rep_error entry = Some (exn_str e)
          /\ rep_consecutive_failures entry
             = (match SyncState.lookup acc ty (sync_states w) with
                | Some r => SyncState.consecutive_failures r
                | None => 0
                end + 1)%Z
          /\ rep_checkpoint entry = stored_checkpoint acc ty w).
Proof.
  intros acc Hstored Hunique.
  assert (forall res,
            sync_type E ty fuel account w = (w', res) ->
            exists stored', QBOAccount.first_by_realm acc (accounts w') = Some stored')
    as Hacc'.
  { intros res Hrun.
    pose proof (ef_sync_type E same_realms ty fuel account w) as Hsame.
    rewrite Hrun in Hsame. simpl in Hsame.
    exact (first_by_realm_same_realms acc (accounts w) (accounts w') stored Hsame Hstored). }
  assert (forall t s,
            s = fst (SyncState.get_or_create t acc ty (sync_states w)) ->
            SyncState.account s = acc /\ SyncState.object_type s = ty
            /\ SyncState.checkpoint s = stored_checkpoint acc ty w
            /\ SyncState.consecutive_failures s
               = match SyncState.lookup acc ty (sync_states w) with
                 | Some r => SyncState.consecutive_failures r
                 | None => 0%Z
                 end) as Hs.
  { intros t s ->.
    destruct (SyncState_get_or_create_spec t acc ty (sync_states w))
      as (_ & Ha & Ht & Hc & _).
    repeat split; auto. unfold SyncState.get_or_create.
    destruct (SyncState.lookup acc ty (sync_states w)); reflexivity. }
  split.
  - intros n c Hrun.
    destruct (Hacc' _ Hrun) as [stored' Hfind].
    destruct (proj2 (get_sync_status_entries iso acc w') stored' Hfind)
      as (rep & Hrep & Hentry).
    destruct (sync_type_states E ty fuel account w w' _ Hrun ltac:(discriminate))
      as (w1 & t3 & Hstates).
    { intros e He. unfold sync_type, bind at 1 in Hrun. rewrite He in Hrun.
      discriminate. }
    cbv zeta in Hstates. fold acc in Hstates. cbn [snd] in Hstates.
    destruct (Hs (clock E (trace w1)) _ eq_refl) as (Ha & Ht & Hc & _).
    pose proof (get_or_create_last (clock E (trace w1)) acc ty (sync_states w) Hunique)
      as Hr0.
    assert (SyncState.has_key acc ty
              (fst (SyncState.get_or_create (clock E (trace w1)) acc ty (sync_states w)))
            = true) as Hk0.
    { unfold SyncState.has_key. rewrite Ha, Ht, String.eqb_refl. now destruct ty. }
    exists rep. eexists. split; [exact Hrep|].
    rewrite Hentry, Hstates.
    unfold SyncState.mark_success, SyncState.mark_started. cbn [fst snd].
    rewrite !find_rev_save, Hr0.
    cbn [option_map SyncState.account SyncState.object_type].
    rewrite Ha, Ht, Hk0.
    replace (SyncState.has_key acc ty (SyncState.write_columns _ _ _)) with true
      by (symmetry; exact Hk0).
    split; [reflexivity|]. cbn. rewrite Hc. repeat split; discriminate.
  - intros w1 e Hens Hrun.
    destruct (Hacc' _ Hrun) as [stored' Hfind].
    destruct (proj2 (get_sync_status_entries iso acc w') stored' Hfind)
      as (rep & Hrep & Hentry).
    destruct (sync_type_states E ty fuel account w w' _ Hrun ltac:(discriminate))
      as (w1' & t3 & Hstates).
    { intros e0 He. rewrite Hens in He. discriminate. }
    cbv zeta in Hstates. fold acc in Hstates.
    destruct (Hs (clock E (trace w1')) _ eq_refl) as (Ha & Ht & Hc & Hn).
    pose proof (get_or_create_last (clock E (trace w1')) acc ty (sync_states w) Hunique)
      as Hr0.
    assert (SyncState.has_key acc ty
              (fst (SyncState.get_or_create (clock E (trace w1')) acc ty (sync_states w)))
            = true) as Hk0.
    { unfold SyncState.has_key. rewrite Ha, Ht, String.eqb_refl. now destruct ty. }
    exists rep. eexists. split; [exact Hrep|].
    rewrite Hentry, Hstates.
    unfold SyncState.mark_failed, SyncState.mark_started. cbn [fst snd].
    rewrite !find_rev_save, Hr0.
    cbn [option_map SyncState.account SyncState.object_type].
    rewrite Ha, Ht, Hk0.
    replace (SyncState.has_key acc ty (SyncState.write_columns _ _ _)) with true
      by (symmetry; exact Hk0).
    split; [reflexivity|]. cbn. rewrite Hn, Hc. repeat split.
Qed.

Lemma status_after_sync_witness :
  let account := demo_account "realm-ok" "rt-good" false in
  let run := sync_customers demo_env 10 account (demo_world_for account) in
  exists rep entry,
    get_sync_status (fun t => dec_Z t) "realm-ok" (fst run) = (fst run, Ret rep)
    /\ get_key "Customer" (st_sync_states rep) = Some entry
    /\ rep_status entry = "success"
    /\ rep_checkpoint entry = Some "2024-03-25T10:00:00-08:00".
Proof.
  cbv zeta.
  pose (account := demo_account "realm-ok" "rt-good" false).
  pose (w0 := demo_world_for account).
  assert (sync_type demo_env CUSTOMER 10 account w0
          = (fst (sync_customers demo_env 10 account w0),
             Ret (240, Some "2024-03-25T10:00:00-08:00"))) as Hrun
    by (vm_compute; reflexivity).
  destruct (proj1 (status_after_sync demo_env (fun t => dec_Z t) CUSTOMER 10 account
                     account w0 (fst (sync_customers demo_env 10 account w0))
                     eq_refl ltac:(simpl; lia))
              240 (Some "2024-03-25T10:00:00-08:00") Hrun)
    as (rep & entry & H1 & H2 & H3 & _ & _ & H6 & _).
  exists rep, entry. repeat split; assumption.
Defined.

(** ** [AuthorizeView.post] *)

Lemma create_or_update_raises E realm rt at_ exp name w w' e :
  create_or_update E realm rt at_ exp name w = (w', Raise e) ->
  isinstance e AuthenticationError = false.
Proof.
  unfold create_or_update, QBOAccount_update_or_create.
  destruct (filter _ (accounts w)) as [|r0 [|r1 rest]].
  - cbn [ObjectType_values for_each]. unfold bind, ret, SyncState_objects_create,
      SyncState_create.
    repeat match goal with
           | |- context [if ?b then _ else _] => destruct b
           end; try discriminate; now intros [= _ <-].
  - unfold bind, ret. discriminate.
  - now intros [= _ <-].
Qed.

(** X15.  [AuthorizeView.post].  An exception that the framework raises
    while it parses and validates the request leaves the view as it is.
    On a valid request: when the identity provider refuses the code (any
    status but 200), the view answers 400 with the body's text when the
    body does not decode, and with the provider's error description, or
    the text when there is none, when the body is an object, and nothing
    is stored; a refusal whose body is JSON but not an object raises
    [AttributeError].  When the provider accepts and the expiry of now
    plus [expires_in] (3600 seconds by default) can be computed, the
    account is created or re-authorized with the two tokens and that
    expiry, and the view answers 200 with the account's data; an accepted
    answer without [refresh_token], or else without [access_token],
    raises [KeyError], and one whose expiry cannot be computed raises the
    exception of the computation; nothing is stored in either case.  A
    transport failure is raised as it is. *)
Theorem authorize_answers (E : Env) (request : string + exn)
  (outcome : http_outcome token_json) (w : world) :
  let run := AuthorizeView_post E request outcome w in
  let refusal msg :=
    (w, Ret {| az_status := 400; az_success := false; az_account := None;
               az_error := Some ("Token exchange failed: " ++ msg) |}) in
  (forall e, request = inr e -> run = (w, Raise e))
  /\ (forall realm,
        request = inl realm ->
        (forall r,
           outcome = Response r -> status_code r <> 200%Z ->
           (error_json r = None -> run = refusal (text r))
           /\ (forall d,
                 error_json r = Some (VDict d) ->
                 run = refusal (py_str E (match dict_lookup "error_description" d with
                                          | Some v => v
                                          | None => VStr (text r)
                                          end)))
           /\ (forall body,
                 error_json r = Some body -> (forall d, body <> VDict d) ->
                 exists e, run = (w, Raise e) /\ exn_cls e = AttributeError))
        /\ (forall r j,
              outcome = Response r -> status_code r = 200%Z -> json r = Some j ->
              let expires_in :=
                match j_expires_in j with Some v => v | None => VInt 3600 end in
              (forall e,
                 expires_at_of E (clock E (trace w)) expires_in = inr e ->
                 isinstance e AuthenticationError = false ->
                 run = (w, Raise e))
              /\ (forall expires_at,
                    expires_at_of E (clock E (trace w)) expires_in = inl expires_at ->
                    (j_refresh_token j = None ->
                     run = (w, Raise (mkExn KeyError "'refresh_token'")))
                    /\ (forall rt,
                          j_refresh_token j = Some rt -> j_access_token j = None ->
                          run = (w, Raise (mkExn KeyError "'access_token'")))
                    /\ (forall rt a,
                          j_refresh_token j = Some rt -> j_access_token j = Some a ->
                          run = (account <- create_or_update E realm rt (Some a)
                                              (Some expires_at) None ;;
                                 ret {| az_status := 200; az_success := true;
                                        az_account := Some (QBOAccountSerializer account);
                                        az_error := None |}) w)))
        /\ (forall msg,
              outcome = NetworkFailure msg ->
              run = (w, Raise (mkExn RequestException msg)))).
Proof.
  intros run refusal. subst run refusal. split; [intros e ->; reflexivity|].
  intros realm ->. unfold AuthorizeView_post, is_valid, lift_sum. unfold bind at 1.
  split; [|split].
  - intros r -> Hs. unfold try_except, bind, lift.
    cbn [exchange_authorization_code]. apply Z.eqb_neq in Hs. rewrite Hs.
    cbn [negb]. split; [|split].
    + intros ->. reflexivity.
    + intros d ->. reflexivity.
    + intros body -> Hobj.
      destruct body as [| b | n | l z | s | l | d];
        try (eexists; split; reflexivity).
      now contradiction (Hobj d).
  - intros r j -> Hs Hj.
    set (expires_in := match j_expires_in j with Some v => v | None => VInt 3600 end).
    assert (exchange_authorization_code E (Response r) = Ret j) as Hx.
    { cbn [exchange_authorization_code]. now rewrite Hs, Hj. }
    split.
    + intros e Hexp Hcls. unfold try_except, bind, lift, now, subscript.
      rewrite Hx. fold expires_in. rewrite Hexp, Hcls. reflexivity.
    + intros expires_at Hexp. split; [|split].
      * intros Hrt. unfold try_except, bind, lift, now, subscript.
        rewrite Hx. fold expires_in. rewrite Hexp, Hrt. reflexivity.
      * intros rt Hrt Ha. unfold try_except, bind, lift, now, subscript.
        rewrite Hx. fold expires_in. rewrite Hexp, Hrt, Ha. reflexivity.
      * intros rt a Hrt Ha.
        unfold try_except, bind, lift, now, subscript, ret.
        rewrite Hx. fold expires_in. rewrite Hexp, Hrt, Ha.
        destruct (create_or_update E realm rt (Some a) _ None w) as [w1 [acc|e|]] eqn:Hc;
          try reflexivity.
        now rewrite (create_or_update_raises _ _ _ _ _ _ _ _ _ Hc).
  - intros msg ->. reflexivity.
Qed.

Lemma authorize_answers_witness :
  AuthorizeView_post demo_env (inl "realm-new")
    (refused 400 "bad request"
       (Some (VDict [("error", VStr "invalid_grant");
                     ("error_description", VStr "Invalid authorization code")])))
    demo_world
  = (demo_world,
     Ret {| az_status := 400; az_success := false; az_account := None;
            az_error := Some "Token exchange failed: Invalid authorization code" |}).
Proof.
  exact (proj1 (proj2 (proj1 (proj2 (authorize_answers demo_env (inl "realm-new")
                                       (refused 400 "bad request"
                                          (Some (VDict [("error", VStr "invalid_grant");
                                                        ("error_description",
                                                         VStr "Invalid authorization code")])))
                                       demo_world)
                                "realm-new" eq_refl)
                         _ eq_refl ltac:(discriminate)))
           _ eq_refl).
Defined.

(** ** Ingesting the records of a sync *)

Lemma filter_filter_implies {A} (p q : A -> bool) l :
  (forall x, p x = true -> q x = true) -> filter p (filter q l) = filter p l.
Proof.
  intros H. induction l as [|x l IH]; [reflexivity|]. simpl.
  destruct (q x) eqn:Hq; simpl.
  - now rewrite IH.
  - rewrite IH. destruct (p x) eqn:Hp; [|reflexivity].
    rewrite (H x Hp) in Hq. discriminate.
Qed.

Lemma Customer_other_key acc q acc' q' r :
  String.eqb acc' acc && String.eqb q' q = false ->
  Customer.has_key acc' q' r = true -> negb (Customer.has_key acc q r) = true.
Proof.
  unfold Customer.has_key. intros Hne Hk. apply andb_prop in Hk. destruct Hk as [Ha Hq].
  apply String.eqb_eq in Ha, Hq. rewrite Ha, Hq, (String.eqb_sym acc' acc),
    (String.eqb_sym q' q) in *. now rewrite Hne.
Qed.

Lemma Invoice_other_key acc q acc' q' r :
  String.eqb acc' acc && String.eqb q' q = false ->
  Invoice.has_key acc' q' r = true -> negb (Invoice.has_key acc q r) = true.
Proof.
  unfold Invoice.has_key. intros Hne Hk. apply andb_prop in Hk. destruct Hk as [Ha Hq].
  apply String.eqb_eq in Ha, Hq. rewrite Ha, Hq, (String.eqb_sym acc' acc),
    (String.eqb_sym q' q) in *. now rewrite Hne.
Qed.

(** One upsert, seen through the payloads stored per key. *)
Lemma Customer_upsert_payloads acc q raw tok lut tbl :
  customer_count acc q tbl <= 1 ->
  exists tbl',
    Customer.upsert acc (Some q) raw tok lut tbl = inl tbl'
    /\ map Customer.raw_data (filter (Customer.has_key acc q) tbl') = [raw]
    /\ forall acc' q',
         String.eqb acc' acc && String.eqb q' q = false ->
         filter (Customer.has_key acc' q') tbl' = filter (Customer.has_key acc' q') tbl.
Proof.
  intros Hone.
  destruct (Customer_upsert_spec acc q raw tok lut tbl Hone)
    as (tbl' & Hrun & Hcount & _ & Hrows & Hothers).
  exists tbl'. split; [exact Hrun|]. split.
  - unfold customer_count in Hcount.
    destruct (filter (Customer.has_key acc q) tbl') as [|r [|r' l]] eqn:Hf;
      try discriminate.
    assert (In r (filter (Customer.has_key acc q) tbl')) as Hin by (rewrite Hf; now left).
    apply filter_In in Hin. destruct Hin as [Hin Hk]. simpl.
    now destruct (Hrows r Hin Hk) as (-> & _).
  - intros acc' q' Hne.
    rewrite <- (filter_filter_implies _ (fun r => negb (Customer.has_key acc q r)) tbl')
      by (intros x; now apply Customer_other_key).
    rewrite Hothers. apply filter_filter_implies. intros x. now apply Customer_other_key.
Qed.

Lemma Invoice_upsert_payloads acc q raw cref tok lut tbl :
  invoice_count acc q tbl <= 1 ->
  exists tbl',
    Invoice.upsert acc (Some q) raw cref tok lut tbl = inl tbl'
    /\ map Invoice.raw_data (filter (Invoice.has_key acc q) tbl') = [raw]
    /\ forall acc' q',
         String.eqb acc' acc && String.eqb q' q = false ->
         filter (Invoice.has_key acc' q') tbl' = filter (Invoice.has_key acc' q') tbl.
Proof.
  intros Hone.
  destruct (Invoice_upsert_spec acc q raw cref tok lut tbl Hone)
    as (tbl' & Hrun & Hcount & _ & Hrows & Hothers).
  exists tbl'. split; [exact Hrun|]. split.
  - unfold invoice_count in Hcount.
    destruct (filter (Invoice.has_key acc q) tbl') as [|r [|r' l]] eqn:Hf;
      try discriminate.
    assert (In r (filter (Invoice.has_key acc q) tbl')) as Hin by (rewrite Hf; now left).
    apply filter_In in Hin. destruct Hin as [Hin Hk]. simpl.
    now destruct (Hrows r Hin Hk) as (-> & _).
  - intros acc' q' Hne.
    rewrite <- (filter_filter_implies _ (fun r => negb (Invoice.has_key acc q r)) tbl')
      by (intros x; now apply Invoice_other_key).
    rewrite Hothers. apply filter_filter_implies. intros x. now apply Invoice_other_key.
Qed.

Section Ingest.

Context (E : Env) (ty : ObjectType) (acc : string).

(** One record with an id, upserted into a table where its key is unique. *)
Lemma record_body_step q st d w :
  Id d = Some q ->
  List.length (stored_payloads ty acc q w) <= 1 ->
  exists w',
    record_body E ty acc st d w
      = (w', Ret (fst st + 1, _update_checkpoint (snd st) (last_updated_str_of d)))
    /\ stored_payloads ty acc q w' = [d]
    /\ (forall acc' q',
          String.eqb acc' acc && String.eqb q' q = false ->
          stored_payloads ty acc' q' w' = stored_payloads ty acc' q' w)
    /\ (forall ty' acc' q', ty' <> ty ->
          stored_payloads ty' acc' q' w' = stored_payloads ty' acc' q' w)
    /\ same_but_records w w'.
Proof.
  intros Hid Hone. destruct ty; cbn [record_body stored_payloads] in *;
    rewrite length_map in Hone.
  - unfold customer_body, bind, Customer_upsert. rewrite Hid.
    destruct (Customer_upsert_payloads acc q d (SyncToken d)
                (_parse_last_updated_time E (last_updated_str_of d))
                (customer_rows w) Hone) as (tbl' & -> & Hnew & Hothers).
    eexists. split; [reflexivity|]. cbn [customer_rows with_customer_rows].
    split; [exact Hnew|]. split; [|split; [|repeat split]].
    + intros acc' q' Hne. now rewrite (Hothers acc' q' Hne).
    + intros ty' acc' q' Hty. destruct ty'; [congruence | reflexivity].
  - unfold invoice_body, bind, Invoice_upsert. rewrite Hid.
    destruct (Invoice_upsert_payloads acc q d
                (match CustomerRef d with Some r => value r | None => None end)
                (SyncToken d)
                (_parse_last_updated_time E (last_updated_str_of d))
                (invoice_rows w) Hone) as (tbl' & -> & Hnew & Hothers).
    eexists. split; [reflexivity|]. cbn [invoice_rows with_invoice_rows].
    split; [exact Hnew|]. split; [|split; [|repeat split]].
    + intros acc' q' Hne. now rewrite (Hothers acc' q' Hne).
    + intros ty' acc' q' Hty. destruct ty'; [reflexivity | congruence].
Qed.

(** A batch whose records all carry an id, upserted into a table where
    the keys of the account are unique. *)
Lemma batch_ingest l : forall st w,
  (forall d, In d l -> Id d <> None) ->
  (forall q, List.length (stored_payloads ty acc q w) <= 1) ->
  exists w',
    for_each (record_body E ty acc) l st w
      = (w', Ret (fst st + List.length l, checkpoint_after l (snd st)))
    /\ (forall q, stored_payloads ty acc q w'
                  = latest q l (stored_payloads ty acc q w))
    /\ (forall q, List.length (stored_payloads ty acc q w') <= 1)
    /\ (forall acc' q, acc' <> acc ->
          stored_payloads ty acc' q w' = stored_payloads ty acc' q w)
    /\ (forall ty' acc' q, ty' <> ty ->
          stored_payloads ty' acc' q w' = stored_payloads ty' acc' q w)
    /\ same_but_records w w'.
Proof.
  induction l as [|d l IH]; intros st w Hids Huniq.
  - exists w. cbn [for_each List.length checkpoint_after fold_left latest].
    rewrite Nat.add_0_r. unfold ret. destruct st. repeat split; auto.
  - destruct (Id d) as [q0|] eqn:Hid; [|now contradiction (Hids d (or_introl eq_refl))].
    destruct (record_body_step q0 st d w Hid (Huniq q0))
      as (w1 & Hrun & Hnew & Hothers & Htypes & Hsame).
    assert (forall q, stored_payloads ty acc q w1
                      = if String.eqb q0 q then [d] else stored_payloads ty acc q w)
      as Hstep.
    { intros q. destruct (String.eqb q0 q) eqn:Hq.
      - apply String.eqb_eq in Hq. now subst q.
      - apply Hothers. now rewrite String.eqb_refl, String.eqb_sym, Hq. }
    destruct (IH (fst st + 1, _update_checkpoint (snd st) (last_updated_str_of d)) w1)
      as (w' & Hrest & Hlatest & Huniq' & Hacc' & Hty' & Hsame').
    { intros d' Hin. apply Hids. now right. }
    { intros q. rewrite Hstep. destruct (String.eqb q0 q); [simpl; lia | apply Huniq]. }
    exists w'. cbn [for_each]. unfold bind. rewrite Hrun, Hrest.
    cbn [fst snd List.length checkpoint_after fold_left latest].
    split; [f_equal; f_equal; f_equal; lia|].
    split; [|split; [exact Huniq'|split; [|split]]].
    + intros q. rewrite Hlatest, Hstep, Hid. reflexivity.
    + intros acc' q Hne. rewrite (Hacc' acc' q Hne). apply Hothers.
      apply String.eqb_neq in Hne. now rewrite Hne.
    + intros ty' acc' q Hne. rewrite (Hty' ty' acc' q Hne). now apply Htypes.
    + destruct Hsame as (A1 & A2 & A3 & A4), Hsame' as (B1 & B2 & B3 & B4).
      repeat split; congruence.
Qed.

End Ingest.

Lemma atomic_ret {A} (m : M world A) w w' a :
  m w = (w', Ret a) -> atomic m w = (w', Ret a).
Proof. intros H. unfold atomic. now rewrite H. Qed.

Lemma latest_app q a b before :
  latest q (a ++ b) before = latest q b (latest q a before).
Proof. revert before. induction a as [|d a IH]; intros before; simpl; auto. Qed.

Lemma checkpoint_after_app a b c :
  checkpoint_after (a ++ b) c = checkpoint_after b (checkpoint_after a c).
Proof. unfold checkpoint_after. apply fold_left_app. Qed.

Section SyncIngest.

Context (E : Env) (ty : ObjectType) (acc : string) (watermark : option string).
Context (w : world) (bearer : string).
Context (pages : nat -> list Entity) (url : nat -> string) (last : nat).

Let g : generator := get_all_generator ty watermark.
Let api : ApiBase := resource ty (client w).

Hypothesis has_token : api_access_token api = Some bearer.
Hypothesis token_not_empty : bearer <> "".
Hypothesis may_try : 0 < _max_retries api.
Hypothesis url_of_page : forall k,
  _build_url api
    ("query?query=" ++ quote (paginated_query (all_query ty watermark)
                                              (start_position 100 k) 100))
  = Ret (url k).
Hypothesis served : forall t k,
  k <= last ->
  exists r j,
    query_endpoint E t (url k) bearer = Response r
    /\ status_code r = 200%Z /\ json r = Some j
    /\ entities_of j (entity_name ty) = pages k.
Hypothesis full_before : forall k,
  k < last -> (100 <= N.of_nat (List.length (pages k)))%N.
Hypothesis short_last : (N.of_nat (List.length (pages last)) < 100)%N.
Hypothesis all_ids : forall k d, k <= last -> In d (pages k) -> Id d <> None.

Lemma next_page i w0 :
  i <= last ->
  client w0 = client w ->
  gen_next E (before_page g pages i) w0 =
    (with_trace w0 (trace w0 ++ [EvGet (url i) bearer])%list,
     Ret match pages i with
         | [] => (None, at_state g Finished)
         | _ => (Some (pages i), before_page g pages (S i))
         end).
Proof.
  apply (gen_next_served E g w bearer pages url last); auto.
  reflexivity.
Qed.

(** The loop of a sync from page [i] on: every page is fetched once and
    its records are upserted in order. *)
Lemma for_batches_ingest d : forall i fuel st w0,
  i + d = last ->
  d + 2 <= fuel ->
  client w0 = client w ->
  (forall q, List.length (stored_payloads ty acc q w0) <= 1) ->
  let records := concat (map pages (seq i (S d))) in
  exists w',
    for_batches E fuel
      (fun st batch => atomic (for_each (record_body E ty acc) batch st))
      (before_page g pages i) st w0
      = (w', Ret (fst st + List.length records, checkpoint_after records (snd st)))
    /\ trace w' = (trace w0 ++ map (fun k => EvGet (url k) bearer) (seq i (S d)))%list
    /\ (forall q, stored_payloads ty acc q w'
                  = latest q records (stored_payloads ty acc q w0))
    /\ (forall acc' q, acc' <> acc ->
          stored_payloads ty acc' q w' = stored_payloads ty acc' q w0)
    /\ (forall ty' acc' q, ty' <> ty ->
          stored_payloads ty' acc' q w' = stored_payloads ty' acc' q w0)
    /\ accounts w' = accounts w0 /\ sync_states w' = sync_states w0
    /\ client w' = client w0.
Proof.
  induction d as [|d IH]; intros i fuel st w0 Hi Hfuel Hc Huniq records.
  - assert (i = last) as -> by lia. subst records.
    cbn [seq map concat]. rewrite app_nil_r.
    destruct fuel as [|[|fuel]]; try lia. cbn [for_batches]. unfold bind at 1.
    rewrite (next_page last w0 (le_n _) Hc).
    set (w1 := with_trace w0 (trace w0 ++ [EvGet (url last) bearer])%list).
    destruct (pages last) as [|x l] eqn:Hp.
    + exists w1. unfold ret. cbn [List.length checkpoint_after fold_left latest].
      rewrite Nat.add_0_r. destruct st. repeat split; auto.
    + rewrite <- Hp.
      destruct (batch_ingest E ty acc (pages last) st w1) as
        (w2 & Hrun & Hlatest & _ & Hacc & Hty & (A1 & A2 & A3 & A4)).
      { intros d0 Hin. apply (all_ids last d0 (le_n _) Hin). }
      { exact Huniq. }
      unfold bind at 1. rewrite (atomic_ret _ _ _ _ Hrun).
      cbn [for_batches]. unfold bind at 1, gen_next, before_page.
      cbn [g_state at_state g_page_size].
      assert ((N.of_nat (List.length (pages last)) <? g_page_size g)%N = true) as ->
        by (rewrite Hp; apply N.ltb_lt; exact short_last).
      exists w2. unfold ret. repeat split; auto.
  - destruct fuel as [|fuel]; [lia|]. cbn [for_batches]. unfold bind at 1.
    rewrite (next_page i w0 ltac:(lia) Hc).
    set (w1 := with_trace w0 (trace w0 ++ [EvGet (url i) bearer])%list).
    assert (pages i <> []) as Hne.
    { intros Hnil. assert (i < last) as Hlt by lia.
      pose proof (full_before i Hlt) as H. rewrite Hnil in H. simpl in H. lia. }
    destruct (pages i) as [|x l] eqn:Hp; [congruence|]. rewrite <- Hp.
    destruct (batch_ingest E ty acc (pages i) st w1) as
      (w2 & Hrun & Hlatest & Huniq2 & Hacc & Hty & (A1 & A2 & A3 & A4)).
    { intros d0 Hin. apply (all_ids i d0 ltac:(lia) Hin). }
    { exact Huniq. }
    unfold bind at 1. rewrite (atomic_ret _ _ _ _ Hrun).
    destruct (IH (S i) fuel
                (fst st + List.length (pages i), checkpoint_after (pages i) (snd st))
                w2 ltac:(lia) ltac:(lia) ltac:(rewrite A3; exact Hc) Huniq2)
      as (w' & Hrest & Htrace & Hlatest' & Hacc' & Hty' & B1 & B2 & B3).
    exists w'. rewrite Hrest. subst records.
    change (seq i (S (S d))) with (i :: seq (S i) (S d)).
    cbn [map concat fst snd]. rewrite length_app, checkpoint_after_app.
    split; [f_equal; f_equal; f_equal; lia|].
    split; [|split; [|split; [|split; [|split; [|split]]]]];
      [ | | | | now rewrite B1, A1 | now rewrite B2, A2 | now rewrite B3, A3 ].
    + rewrite Htrace, A4. unfold w1. cbn [trace with_trace map].
      now rewrite <- app_assoc.
    + intros q. rewrite Hlatest', Hlatest, latest_app. reflexivity.
    + intros acc' q Hne'. rewrite (Hacc' acc' q Hne'). now apply Hacc.
    + intros ty' acc' q Hne'. rewrite (Hty' ty' acc' q Hne'). now apply Hty.
Qed.

End SyncIngest.

(** X16.  A sync of one object type, end to end.  With a valid token, a
    remote system that serves the pages of the query for the stored
    watermark, records that all carry an id, and a table in which the keys
    of the account are unique, [sync_customers] / [sync_invoices] returns
    the number of records served and the checkpoint that
    [_update_checkpoint] folds out of their timestamps; it sends one query
    per page and nothing else; afterwards every id that was served holds
    exactly one row, with the payload of the last record served for it;
    the ids that were not served, the other accounts and the other object
    type are as before; and the watermark stored is the checkpoint
    returned, or the old one if that is empty. *)
Theorem sync_ingests_every_record (E : Env) (ty : ObjectType) (fuel : nat)
  (account : QBOAccount.t) (w : world) (bearer : string)
  (pages : nat -> list Entity) (url : nat -> string) (last : nat) :
  let acc := QBOAccount.realm_id account in
  let watermark := stored_checkpoint acc ty w in
  let api := resource ty (client w) in
  let records := concat (map pages (seq 0 (S last))) in
  refresh_due E w = false ->
  api_access_token api = Some bearer ->
  bearer <> "" ->
  0 < _max_retries api ->
  (forall k,
     _build_url api
       ("query?query=" ++ quote (paginated_query (all_query ty watermark)
                                                 (start_position 100 k) 100))
     = Ret (url k)) ->
  (forall t k,
     k <= last ->
     exists r j,
       query_endpoint E t (url k) bearer = Response r
       /\ status_code r = 200%Z /\ json r = Some j
       /\ entities_of j (entity_name ty) = pages k) ->
  (forall k, k < last -> (100 <= N.of_nat (List.length (pages k)))%N) ->
  (N.of_nat (List.length (pages last)) < 100)%N ->
  (forall k d, k <= last -> In d (pages k) -> Id d <> None) ->
  (forall q, List.length (stored_payloads ty acc q w) <= 1) ->
  last + 2 <= fuel ->
  exists w',
    sync_type E ty fuel account w
      = (w', Ret (List.length records, checkpoint_after records watermark))
    /\ trace w' = (trace w ++ map (fun k => EvGet (url k) bearer) (seq 0 (S last)))%list
    /\ (forall q, stored_payloads ty acc q w'
                  = latest q records (stored_payloads ty acc q w))
    /\ (forall acc' q, acc' <> acc ->
          stored_payloads ty acc' q w' = stored_payloads ty acc' q w)
    /\ (forall ty' acc' q, ty' <> ty ->
          stored_payloads ty' acc' q w' = stored_payloads ty' acc' q w)
    /\ accounts w' = accounts w
    /\ stored_checkpoint acc ty w'
       = (if truthy (checkpoint_after records watermark)
          then checkpoint_after records watermark else watermark).
Proof.
  intros acc watermark api records Hdue Htok Hne Htry Hurl Hserved Hfull Hshort Hids
    Huniq Hfuel.
  assert (exists w',
            sync_type E ty fuel account w
              = (w', Ret (List.length records, checkpoint_after records watermark))
            /\ trace w' = (trace w ++ map (fun k => EvGet (url k) bearer)
                                          (seq 0 (S last)))%list
            /\ (forall q, stored_payloads ty acc q w'
                          = latest q records (stored_payloads ty acc q w))
            /\ (forall acc' q, acc' <> acc ->
                  stored_payloads ty acc' q w' = stored_payloads ty acc' q w)
            /\ (forall ty' acc' q, ty' <> ty ->
                  stored_payloads ty' acc' q w' = stored_payloads ty' acc' q w)
            /\ accounts w' = accounts w) as (w' & Hrun & H).
  { unfold sync_type. fold acc. unfold bind at 1.
    rewrite ensure_token_valid_run, Hdue.
    unfold bind at 1. rewrite on_sync_states_run.
    unfold bind at 1. rewrite on_sync_states_run.
    cbn [sync_states with_sync_states trace].
    set (t1 := clock E (trace w)).
    pose proof (SyncState_get_or_create_spec t1 acc ty (sync_states w))
      as (_ & _ & _ & Hck & _).
    set (s := fst (SyncState.get_or_create t1 acc ty (sync_states w))) in *.
    set (tbl2 := snd (SyncState.get_or_create t1 acc ty (sync_states w))).
    set (s1 := fst (SyncState.mark_started t1 s tbl2)).
    set (tbl3 := snd (SyncState.mark_started t1 s tbl2)).
    set (w3 := with_sync_states (with_sync_states w tbl2) tbl3).
    fold (stored_checkpoint acc ty w) in Hck. fold watermark in Hck. rewrite Hck.
    destruct (for_batches_ingest E ty acc watermark w bearer pages url last
                Htok Hne Htry Hurl Hserved Hfull Hshort Hids
                last 0 fuel (0, watermark) w3 eq_refl Hfuel eq_refl Huniq)
      as (w4 & Hloop & Htrace & Hlatest & Hacc & Hty & A1 & A2 & A3).
    unfold try_except, bind at 1.
    change (get_all_generator ty watermark)
      with (before_page (get_all_generator ty watermark) pages 0).
    rewrite Hloop. unfold bind. rewrite on_sync_states_run. cbn [fst snd].
    eexists. split; [reflexivity|].
    cbn [trace accounts with_sync_states].
    split; [exact Htrace|]. split; [|split; [|split; [|exact A1]]].
    - intros q. destruct ty; apply (Hlatest q).
    - intros acc' q Hne'. destruct ty; apply (Hacc acc' q Hne').
    - intros ty' acc' q Hne'. destruct ty'; apply (Hty _ acc' q Hne'). }
  exists w'. split; [exact Hrun|]. repeat (split; [apply H|]).
  apply (sync_type_success E ty fuel account w w' _ _ Hrun).
Qed.

Lemma has_ids l :
  forallb (fun d => match Id d with Some _ => true | None => false end) l = true ->
  forall d, In d l -> Id d <> None.
Proof.
  intros H d Hin. rewrite forallb_forall in H. specialize (H d Hin).
  destruct (Id d); [discriminate | discriminate].
Qed.

(** The backfill of the 240 customers: three queries, 240 records, one row
    each, and the latest update time as watermark. *)
Lemma sync_ingests_every_record_witness :
  let account := demo_account "realm-ok" "rt-good" false in
  exists w',
    sync_customers demo_env 10 account demo_ready
      = (w', Ret (240, Some "2024-03-25T10:00:00-08:00"))
    /\ requests (trace w') = (requests (trace demo_ready) ++ map demo_page_url [0; 1; 2])%list
    /\ stored_payloads CUSTOMER "realm-ok" "17" w' = [demo_customer 17]
    /\ stored_checkpoint "realm-ok" CUSTOMER w' = Some "2024-03-25T10:00:00-08:00".
Proof.
  cbv zeta.
  assert (forall k,
            _build_url (resource CUSTOMER (client demo_ready))
              ("query?query=" ++ quote (paginated_query (all_query CUSTOMER None)
                                          (start_position 100 k) 100))
            = Ret (demo_page_url k)) as Hurl.
  { intros k.
    rewrite (build_url_query _
               "https://sandbox-quickbooks.api.intuit.com/v3/company/realm-ok")
      by (reflexivity || discriminate).
    reflexivity. }
  assert (forall t k, k <= 2 ->
            exists r j,
              query_endpoint demo_env t (demo_page_url k) "at-1" = Response r
              /\ status_code r = 200%Z /\ json r = Some j
              /\ entities_of j (entity_name CUSTOMER) = demo_page k) as Hserved.
  { intros t k Hk.
    destruct k as [|[|[|k]]]; [| | |lia];
      (eexists; eexists; split; [vm_compute; reflexivity|];
       split; [reflexivity|]; split; [reflexivity|]; vm_compute; reflexivity). }
  assert (forall k, k < 2 -> (100 <= N.of_nat (List.length (demo_page k)))%N) as Hfull.
  { intros k Hk. destruct k as [|[|k]]; [| |lia]; vm_compute; discriminate. }
  assert (forall k d, k <= 2 -> In d (demo_page k) -> Id d <> None) as Hids.
  { intros k d Hk. destruct k as [|[|[|k]]]; [| | |lia];
      apply has_ids; vm_compute; reflexivity. }
  destruct (sync_ingests_every_record demo_env CUSTOMER 10
              (demo_account "realm-ok" "rt-good" false) demo_ready "at-1"
              demo_page demo_page_url 2 eq_refl eq_refl ltac:(discriminate)
              ltac:(vm_compute; lia) Hurl Hserved Hfull
              ltac:(vm_compute; reflexivity) Hids
              ltac:(intros q; vm_compute; lia) ltac:(lia))
    as (w' & Hrun & Htrace & Hlatest & _ & _ & _ & Hck).
  exists w'. split; [|split; [|split]].
  - unfold sync_customers. rewrite Hrun. f_equal; vm_compute; reflexivity.
  - rewrite Htrace. unfold requests. rewrite flat_map_app. reflexivity.
  - cbn [QBOAccount.realm_id demo_account] in Hlatest. rewrite (Hlatest "17").
    vm_compute. reflexivity.
  - cbn [QBOAccount.realm_id demo_account] in Hck. rewrite Hck. vm_compute. reflexivity.
Defined.

(** ** The key (account, external id) stays unique *)

#[local] Instance same_records_preorder : PreOrder same_records.
Proof.
  split; unfold same_records.
  - intros w. auto.
  - intros a b c [H1 H2] [H3 H4]. split; congruence.
Qed.

#[local] Instance keys_stay_unique_preorder : PreOrder keys_stay_unique.
Proof. split; unfold keys_stay_unique; [intros w; auto | intros a b c; auto]. Qed.

Section SameRecords.

Context (E : Env).

Lemma sr_modify f :
  (forall w, customer_rows (f w) = customer_rows w
             /\ invoice_rows (f w) = invoice_rows w) ->
  maintains same_records (modify f).
Proof. intros H w. apply H. Qed.

Lemma sr_pure {A} (m : M world A) :
  (forall w, fst (m w) = w) -> maintains same_records m.
Proof. intros H w. rewrite H. reflexivity. Qed.

Lemma sr_on_token_refresh pk a rt exp :
  maintains same_records (on_token_refresh pk a rt exp).
Proof.
  intros w. unfold on_token_refresh.
  destruct (QBOAccount.first_by_realm _ _); simpl; split; reflexivity.
Qed.

Lemma sr_on_sync_states f : maintains same_records (on_sync_states E f).
Proof. intros w. split; reflexivity. Qed.

Lemma sr_lift {A} (r : res A) : maintains same_records (lift r).
Proof. apply sr_pure. reflexivity. Qed.

Lemma sr_now : maintains same_records (now E).
Proof. apply sr_pure. reflexivity. Qed.

Lemma sr_log ev : maintains same_records (log ev).
Proof. apply sr_modify. intros; split; reflexivity. Qed.

Lemma sr_sleep d : maintains same_records (sleep d).
Proof. apply sr_log. Qed.

Lemma sr_update_client f : maintains same_records (update_client f).
Proof. apply sr_modify. intros; split; reflexivity. Qed.

Lemma sr_subscript {A} key (v : option A) : maintains same_records (subscript key v).
Proof. apply sr_pure. intros w. now destruct v. Qed.

Ltac sr_leaf :=
  first [ apply sr_log | apply sr_update_client | apply sr_now
        | apply sr_lift | apply sr_subscript | apply sr_on_token_refresh
        | apply sr_on_sync_states ].

Lemma sr_http_get url bearer : maintains same_records (http_get E url bearer).
Proof. unfold http_get. mwalk sr_leaf. Qed.

Lemma sr_attempt_request self url : maintains same_records (attempt_request E self url).
Proof. unfold attempt_request. mwalk sr_leaf. Qed.

Lemma sr_retry_loop self url todo :
  forall attempt last, maintains same_records (retry_loop E self url todo attempt last).
Proof.
  induction todo as [|todo IH]; intros attempt last; simpl.
  - mwalk sr_leaf.
  - mstep maintains_try_except; [apply sr_attempt_request|].
    intros e. mwalk sr_leaf; solve [apply sr_sleep | apply IH].
Qed.

Lemma sr_fetch_page g pos : maintains same_records (fetch_page E g pos).
Proof. unfold fetch_page. mwalk sr_leaf. apply sr_retry_loop. Qed.

Lemma sr_gen_next g : maintains same_records (gen_next E g).
Proof. unfold gen_next. mwalk sr_leaf; apply sr_retry_loop. Qed.

Lemma sr_refresh_tokens : maintains same_records (_refresh_tokens E).
Proof. unfold _refresh_tokens. mwalk sr_leaf. Qed.

Lemma sr_ensure_token_valid : maintains same_records (ensure_token_valid E).
Proof. unfold ensure_token_valid. mwalk sr_leaf; apply sr_refresh_tokens. Qed.

End SameRecords.

Lemma unique_of_same {A} (m : M world A) :
  maintains same_records m -> maintains keys_stay_unique m.
Proof.
  intros H w [Hc Hi]. destruct (H w) as [H1 H2].
  unfold unique_keys, stored_payloads in *. rewrite H1, H2. auto.
Qed.

Section Unique.

Context (E : Env).

Lemma ku_Customer_upsert acc qid raw tok lut :
  maintains keys_stay_unique (Customer_upsert acc qid raw tok lut).
Proof.
  intros w [Hc Hi]. unfold Customer_upsert. destruct qid as [q|]; [|split; assumption].
  assert (customer_count acc q (customer_rows w) <= 1) as Hone.
  { specialize (Hc acc q). cbn [stored_payloads] in Hc. now rewrite length_map in Hc. }
  destruct (Customer_upsert_payloads acc q raw tok lut (customer_rows w) Hone)
    as (tbl' & -> & Hnew & Hothers).
  cbn [fst]. split; [|exact Hi].
  intros a k. cbn [stored_payloads customer_rows with_customer_rows].
  destruct (String.eqb a acc && String.eqb k q) eqn:Hk.
  - apply andb_prop in Hk. destruct Hk as [Ha Hq].
    apply String.eqb_eq in Ha, Hq. subst a k. rewrite Hnew. simpl. lia.
  - rewrite (Hothers a k Hk). apply (Hc a k).
Qed.

Lemma ku_Invoice_upsert acc qid raw cref tok lut :
  maintains keys_stay_unique (Invoice_upsert acc qid raw cref tok lut).
Proof.
  intros w [Hc Hi]. unfold Invoice_upsert. destruct qid as [q|]; [|split; assumption].
  assert (invoice_count acc q (invoice_rows w) <= 1) as Hone.
  { specialize (Hi acc q). cbn [stored_payloads] in Hi. now rewrite length_map in Hi. }
  destruct (Invoice_upsert_payloads acc q raw cref tok lut (invoice_rows w) Hone)
    as (tbl' & -> & Hnew & Hothers).
  cbn [fst]. split; [exact Hc|].
  intros a k. cbn [stored_payloads invoice_rows with_invoice_rows].
  destruct (String.eqb a acc && String.eqb k q) eqn:Hk.
  - apply andb_prop in Hk. destruct Hk as [Ha Hq].
    apply String.eqb_eq in Ha, Hq. subst a k. rewrite Hnew. simpl. lia.
  - rewrite (Hothers a k Hk). apply (Hi a k).
Qed.

Lemma ku_record_body ty acc st d :
  maintains keys_stay_unique (record_body E ty acc st d).
Proof.
  destruct ty; simpl; unfold customer_body, invoice_body;
    (mstep maintains_bind; [|intros; mstep maintains_ret]).
  - apply ku_Customer_upsert.
  - apply ku_Invoice_upsert.
Qed.

Lemma ku_batch ty acc st batch :
  maintains keys_stay_unique (atomic (for_each (record_body E ty acc) batch st)).
Proof.
  mstep maintains_atomic.
  - intros w w1 _ H. exact H.
  - mstep maintains_for_each. intros. apply ku_record_body.
Qed.

Lemma ku_batches ty acc fuel g st :
  maintains keys_stay_unique
    (for_batches E fuel
       (fun st batch => atomic (for_each (record_body E ty acc) batch st)) g st).
Proof.
  mstep maintains_for_batches.
  - intros g0. apply unique_of_same, sr_gen_next.
  - intros. apply ku_batch.
Qed.

Lemma ku_modify f :
  (forall w, customer_rows (f w) = customer_rows w
             /\ invoice_rows (f w) = invoice_rows w) ->
  maintains keys_stay_unique (modify f).
Proof. intros H. now apply unique_of_same, sr_modify. Qed.

Ltac ku_leaf :=
  first [ apply unique_of_same, sr_on_sync_states
        | apply unique_of_same, sr_ensure_token_valid
        | apply ku_batches
        | apply ku_modify; intros; split; reflexivity ].

Lemma ku_sync_type ty fuel account :
  maintains keys_stay_unique (sync_type E ty fuel account).
Proof. unfold sync_type. mwalk ku_leaf. Qed.

Lemma ku_sync_object_type fuel account config :
  maintains keys_stay_unique (_sync_object_type E fuel account config).
Proof.
  unfold _sync_object_type, revoke. destruct config as [name []]; simpl;
    unfold sync_customers, sync_invoices;
    (mstep maintains_try_except;
     [ mstep maintains_bind; [apply ku_sync_type | intros; mwalk ku_leaf]
     | intros e; mwalk ku_leaf ]).
Qed.

Lemma ku_sync_configs fuel account cfgs d :
  maintains keys_stay_unique (sync_configs E fuel account cfgs d).
Proof.
  unfold sync_configs. mstep maintains_for_each. intros.
  mstep maintains_bind; [apply ku_sync_object_type | intros; mwalk ku_leaf].
Qed.

Lemma ku_sync_account fuel realm_id :
  maintains keys_stay_unique (sync_account E fuel realm_id).
Proof.
  unfold sync_account, revoke.
  mstep maintains_try_except; [|intros e; mwalk ku_leaf].
  mstep maintains_bind; [mstep maintains_get|]. intros w0.
  destruct (QBOAccount.first_by_realm _ _); [|mwalk ku_leaf].
  destruct (QBOAccount.is_token_expired _); [mwalk ku_leaf|].
  mstep maintains_bind; [mwalk ku_leaf|]. intros _.
  mstep maintains_bind; [apply ku_sync_configs | intros; mwalk ku_leaf].
Qed.

Lemma ku_sync_all_accounts fuel :
  maintains keys_stay_unique (sync_all_accounts E fuel).
Proof.
  unfold sync_all_accounts.
  mstep maintains_bind; [mstep maintains_get|]. intros w0.
  unfold fleet_loop. mstep maintains_for_each. intros results account.
  mstep maintains_try_except; [|intros e; mwalk ku_leaf].
  mstep maintains_bind; [apply ku_sync_account | intros; mwalk ku_leaf].
Qed.

Lemma ku_run_cycles cs : forall w, keys_stay_unique w (run_cycles E cs w).
Proof.
  unfold run_cycles. induction cs as [|[fuel c] cs IH]; intros w; [intros H; exact H|].
  cbn [fold_left]. intros H. apply IH. revert H.
  unfold run_cycle. cbn [fst snd]. destruct c.
  - apply ku_sync_type.
  - apply ku_sync_account.
  - apply ku_sync_all_accounts.
Qed.

End Unique.

(** X17.  No sync creates a duplicate: when every (account, external id)
    has at most one customer row and at most one invoice row, the same
    holds after any sequence of sync cycles, of one object type, of an
    account or of the fleet, however each of them ends. *)
Theorem syncs_keep_keys_unique (E : Env) (cs : list (nat * cycle)) (w : world) :
  unique_keys CUSTOMER w ->
  unique_keys INVOICE w ->
  unique_keys CUSTOMER (run_cycles E cs w) /\ unique_keys INVOICE (run_cycles E cs w).
Proof. intros Hc Hi. apply ku_run_cycles. split; assumption. Qed.

Lemma syncs_keep_keys_unique_witness :
  let after := run_cycles demo_env [(10, CycleAll); (10, CycleAll)] demo_world in
  List.length (customer_rows after) = 240
  /\ unique_keys CUSTOMER after /\ unique_keys INVOICE after.
Proof.
  split; [vm_compute; reflexivity|].
  apply (syncs_keep_keys_unique demo_env [(10, CycleAll); (10, CycleAll)] demo_world);
    intros acc q; simpl; lia.
Defined.

(** ** A batch with a record that cannot be stored *)

Section BadRecord.

Context (E : Env) (ty : ObjectType) (acc : string).

Lemma record_body_ends st d w :
  match record_body E ty acc st d w with
  | (w1, Ret _) => Id d <> None
  | (w1, Raise e) =>
      w1 = w /\ (exn_cls e = IntegrityError \/ exn_cls e = MultipleObjectsReturned)
  | (w1, Diverge) => False
  end.
Proof.
  destruct ty; cbn [record_body]; unfold customer_body, invoice_body, bind,
    Customer_upsert, Invoice_upsert, Customer.upsert, Invoice.upsert,
    Customer.update_or_create, Invoice.update_or_create;
    (destruct (Id d) as [q|]; [|cbn; auto]);
    match goal with
    | |- context [filter ?p ?l] => destruct (filter p l) as [|r0 [|r1 rest]]
    end; cbn; auto; discriminate.
Qed.

Lemma for_each_bad_record l : forall st w,
  (exists d, In d l /\ Id d = None) ->
  exists w1 e,
    for_each (record_body E ty acc) l st w = (w1, Raise e)
    /\ (exn_cls e = IntegrityError \/ exn_cls e = MultipleObjectsReturned).
Proof.
  induction l as [|d0 l IH]; intros st w (d & Hin & Hid); [destruct Hin|].
  cbn [for_each]. unfold bind.
  pose proof (record_body_ends st d0 w) as H0.
  destruct (record_body E ty acc st d0 w) as [w1 [st1|e|]].
  - destruct Hin as [<-|Hin]; [congruence|].
    apply IH. exists d. auto.
  - exists w1, e. split; [reflexivity | apply H0].
  - destruct H0.
Qed.

End BadRecord.

(** X18.  A batch is stored as a whole or not at all: when one of its
    records has no [Id], processing the batch raises (the insert is
    refused, or an earlier record of the batch already failed), and the
    rows that the records before it had written are rolled back with the
    transaction: the record tables are those from before the batch. *)
Theorem batch_with_a_bad_record_is_rolled_back (E : Env) (ty : ObjectType)
  (acc : string) (batch : list Entity) (st : nat * option string) (w : world) :
  (exists d, In d batch /\ Id d = None) ->
  exists w' e,
    atomic (for_each (record_body E ty acc) batch st) w = (w', Raise e)
    /\ (exn_cls e = IntegrityError \/ exn_cls e = MultipleObjectsReturned)
    /\ customer_rows w' = customer_rows w
    /\ invoice_rows w' = invoice_rows w
    /\ sync_states w' = sync_states w
    /\ accounts w' = accounts w.
Proof.
  intros Hbad.
  destruct (for_each_bad_record E ty acc batch st w Hbad) as (w1 & e & Hrun & Hcls).
  unfold atomic. rewrite Hrun. eexists. exists e. split; [reflexivity|].
  split; [exact Hcls|]. repeat split.
Qed.

Lemma batch_with_a_bad_record_is_rolled_back_witness :
  let batch := [demo_customer 1; demo_customer 2;
                {| Id := None; SyncToken := None; MetaData := None;
                   CustomerRef := None; payload := "no id" |}] in
  exists w' e,
    atomic (for_each (record_body demo_env CUSTOMER "realm-ok") batch (0, None))
      demo_world = (w', Raise e)
    /\ customer_rows w' = []
    /\ List.length (customer_rows
                      (fst (for_each (record_body demo_env CUSTOMER "realm-ok") batch
                              (0, None) demo_world))) = 2.
Proof.
  cbv zeta.
  destruct (batch_with_a_bad_record_is_rolled_back demo_env CUSTOMER "realm-ok"
              [demo_customer 1; demo_customer 2;
               {| Id := None; SyncToken := None; MetaData := None;
                  CustomerRef := None; payload := "no id" |}]
              (0, None) demo_world)
    as (w' & e & Hrun & _ & Hc & _).
  { eexists. split; [right; right; left; reflexivity | reflexivity]. }
  exists w', e. split; [exact Hrun|]. split; [exact Hc|]. vm_compute. reflexivity.
Defined.

(** ** Timestamps with a trailing [Z] *)

Lemma endswith_Z_app s : endswith_Z (s ++ "Z") = true.
Proof.
  induction s as [|c s IH]; [reflexivity|]. cbn [append endswith_Z].
  destruct (s ++ "Z") eqn:H; [destruct s; discriminate | exact IH].
Qed.

Lemma drop_last_app s : drop_last (s ++ "Z") = s.
Proof.
  induction s as [|c s IH]; [reflexivity|]. cbn [append drop_last].
  destruct (s ++ "Z") eqn:H; [destruct s; discriminate|]. now rewrite IH.
Qed.

Lemma endswith_Z_offset s : endswith_Z (s ++ "+00:00") = false.
Proof.
  induction s as [|c s IH]; [reflexivity|]. cbn [append endswith_Z].
  destruct (s ++ "+00:00") eqn:H; [destruct s; discriminate | exact IH].
Qed.

Lemma app_not_empty s t : t <> "" -> s ++ t <> "".
Proof. destruct s; simpl; [auto | discriminate]. Qed.

(** X19.  [_parse_last_updated_time] reads a trailing [Z] as the offset
    [+00:00]: the two spellings of a timestamp parse to the same result,
    whatever [fromisoformat] makes of it.  Missing and empty values parse
    to nothing, without [fromisoformat] being asked. *)
Theorem trailing_Z_is_utc (E : Env) (s : string) :
  _parse_last_updated_time E (Some (s ++ "Z"))
    = _parse_last_updated_time E (Some (s ++ "+00:00"))
  /\ _parse_last_updated_time E (Some (s ++ "Z")) = fromisoformat E (s ++ "+00:00")
  /\ _parse_last_updated_time E None = None
  /\ _parse_last_updated_time E (Some "") = None.
Proof.
  assert (forall t, t <> "" -> String.eqb (s ++ t) "" = false) as Hne.
  { intros t Ht. apply String.eqb_neq. now apply app_not_empty. }
  unfold _parse_last_updated_time.
  rewrite !Hne by discriminate.
  rewrite endswith_Z_app, drop_last_app, endswith_Z_offset. repeat split.
Qed.

(** ** The server URL *)

Lemma list_ascii_app a b :
  list_ascii_of_string (a ++ b) = (list_ascii_of_string a ++ list_ascii_of_string b)%list.
Proof. induction a as [|c a IH]; simpl; [reflexivity | now rewrite IH]. Qed.

Lemma list_ascii_slashes k : list_ascii_of_string (slashes k) = repeat "/"%char k.
Proof. induction k as [|k IH]; simpl; [reflexivity | now rewrite IH]. Qed.

Lemma rev_repeat_same {A} (c : A) k : rev (repeat c k) = repeat c k.
Proof.
  induction k as [|k IH]; [reflexivity|]. simpl. rewrite IH.
  clear IH. induction k as [|k IH]; [reflexivity|]. simpl. now rewrite IH.
Qed.

Lemma drop_leading_repeat c k l :
  drop_leading c (repeat c k ++ l)%list = drop_leading c l.
Proof.
  induction k as [|k IH]; [reflexivity|]. simpl. now rewrite Ascii.eqb_refl.
Qed.

Lemma rstrip_slash_slashes u k : rstrip_slash (u ++ slashes k) = rstrip_slash u.
Proof.
  unfold rstrip_slash.
  now rewrite list_ascii_app, list_ascii_slashes, rev_app_distr, rev_repeat_same,
    drop_leading_repeat.
Qed.

(** X20.  Trailing slashes of the server URL do not matter: a resource
    configured with a URL and with the same URL followed by any number of
    slashes builds the same request URLs.  A URL made of slashes only
    leaves the resource unconfigured, and [_build_url] raises; any other
    URL gives [base/endpoint], followed by the minor version as a further
    query parameter when the URL already has a query, and as its first
    one otherwise. *)
Theorem server_url_trailing_slashes (self : ApiBase) (u endpoint : string) (k : nat) :
  let base := rstrip_slash u in
  _build_url (set_server_url self (u ++ slashes k)) endpoint
    = _build_url (set_server_url self u) endpoint
  /\ (base = "" ->
      _build_url (set_server_url self u) endpoint
        = Raise (mkExn QBOSDKError "Server URL not configured"))
  /\ (base <> "" ->
      _build_url (set_server_url self u) endpoint
        = Ret ((base ++ "/" ++ endpoint)
               ++ (if contains_char "?"%char (base ++ "/" ++ endpoint) then "&" else "?")
               ++ "minorversion=" ++ dec_Z (api_minor_version self))).
Proof.
  intros base. unfold _build_url, set_server_url.
  cbn [api_server_url api_minor_version]. rewrite rstrip_slash_slashes. fold base.
  split; [reflexivity|]. split.
  - intros ->. reflexivity.
  - intros Hne. apply String.eqb_neq in Hne. rewrite Hne. reflexivity.
Qed.

(** ** Revocation and the fleet *)

(** X21.  Revoking an account takes it, and only it, out of the fleet:
    after [revoke] the active accounts are those that were active before
    and have another realm id, so the next [sync_all_accounts] does not
    attempt the account, and goes on attempting every other one. *)
Theorem revoked_account_leaves_the_fleet (account : QBOAccount.t) (w : world) :
  let w' := fst (revoke account w) in
  (forall a,
     In a (QBOAccount.get_active_accounts (accounts w')) <->
     In a (QBOAccount.get_active_accounts (accounts w))
     /\ QBOAccount.realm_id a <> QBOAccount.realm_id account)
  /\ sync_states w' = sync_states w
  /\ customer_rows w' = customer_rows w
  /\ invoice_rows w' = invoice_rows w
  /\ trace w' = trace w.
Proof.
  intros w'. split; [|repeat split].
  intros a. unfold w', revoke, modify. cbn [fst accounts with_accounts].
  rewrite !get_active_accounts_spec. unfold QBOAccount.save. rewrite in_map_iff.
  split.
  - intros ((r & Hr & Hin) & Hflag & Hrt).
    destruct (String.eqb (QBOAccount.realm_id r) (QBOAccount.realm_id account)) eqn:Hk.
    + subst a. discriminate.
    + subst a. apply String.eqb_neq in Hk. auto.
  - intros ((Hin & Hflag & Hrt) & Hne). split; [|auto].
    exists a. apply String.eqb_neq in Hne. now rewrite Hne.
Qed.

(** ** Starting a sync *)

(** X22.  [mark_started] sets the status to in-progress, stamps the
    last-attempt instant and clears the error message; the checkpoint, the
    consecutive-failure counter and the last-successful-sync instant stay
    as they were, on the object and on the stored row, and the rows of
    other keys are untouched: a failed state that is started again still
    counts its failures and keeps its watermark. *)
Theorem mark_started_effects (now : datetime) (self : SyncState.t)
  (tbl : list SyncState.t) :
  let mine := SyncState.has_key (SyncState.account self) (SyncState.object_type self) in
  let self' := fst (SyncState.mark_started now self tbl) in
  let tbl' := snd (SyncState.mark_started now self tbl) in
  SyncState.status self' = IN_PROGRESS
  /\ SyncState.last_attempt_time self' = Some now
  /\ SyncState.error_message self' = None
  /\ SyncState.checkpoint self' = SyncState.checkpoint self
  /\ SyncState.consecutive_failures self' = SyncState.consecutive_failures self
  /\ SyncState.last_successful_sync_time self' = SyncState.last_successful_sync_time self
  /\ List.length tbl' = List.length tbl
  /\ forall i r, nth_error tbl i = Some r ->
       exists r', nth_error tbl' i = Some r'
         /\ SyncState.account r' = SyncState.account r
         /\ SyncState.object_type r' = SyncState.object_type r
         /\ SyncState.checkpoint r' = SyncState.checkpoint r
         /\ SyncState.consecutive_failures r' = SyncState.consecutive_failures r
         /\ SyncState.last_successful_sync_time r' = SyncState.last_successful_sync_time r
         /\ (mine r = true ->
               SyncState.status r' = IN_PROGRESS
               /\ SyncState.last_attempt_time r' = Some now
               /\ SyncState.error_message r' = None)
         /\ (mine r = false -> r' = r).
Proof.
  intros mine self' tbl'. subst self' tbl'. cbn [fst snd SyncState.mark_started].
  repeat (split; [reflexivity|]).
  split; [apply SyncState_save_length|].
  intros i r Hr. eexists. split; [apply SyncState_save_nth; exact Hr|].
  cbn [SyncState.account SyncState.object_type]. fold (mine r).
  destruct (mine r); repeat split; try discriminate; reflexivity.
Qed.
